(** * Convos invite protocol: a shallow embedding of convos-node-sdk

    The development embeds the invite pipeline of the SDK (hex, compression
    framing, URL-safe base64, the protobufjs wire codec of [InvitePayload],
    [SignedInvite] and [ConversationCustomMetadata], the conversation token,
    signed invites, the join-request middleware and the group wrapper) and
    states the properties of the specification over it.

    Conventions.
    - A [Uint8Array] is a [list byte].
    - A JavaScript string is a Rocq [string] holding its UTF-8 code units, so
      [TextEncoder.encode] is the conversion from [string] to [list byte] and
      [TextDecoder.decode] its inverse after the byte order mark is dropped.
      Strings with lone surrogates have no counterpart here.
    - A function that can throw returns [option]; [None] is the exception.
    - Libraries that are not part of the repository (pako, the noble
      cryptography packages, the WHATWG [URL] class, [JSON], [Date]) are
      the fields of the class [Platform]; what is assumed of them is the
      class [PlatformLaws].  [reference_platform] is an executable instance. *)

From Stdlib Require Import ZArith NArith Lia List String Ascii Bool.
From Stdlib.Strings Require Import Byte.
From stdpp Require Import base option list strings.
Import ListNotations.
Open Scope string_scope.
Open Scope list_scope.
Open Scope nat_scope.

(* stdpp keeps [simpl] from unfolding string append; the proofs below compute with it. *)
#[global] Arguments String.append !_ _ /.

(* ===================================================================== *)
(** * Part I: definitions                                                 *)
(* ===================================================================== *)

(** ** Bytes and characters *)

Abbreviation bytes := (list byte).

Definition byte_of_N (n : N) : byte :=
  match Byte.of_N (n mod 256) with Some b => b | None => x00 end.

Definition byte_of_Z (z : Z) : byte := byte_of_N (Z.to_N (z mod 256)).

Definition byte_eqb (a b : byte) : bool := (Byte.to_N a =? Byte.to_N b)%N.

#[global] Instance byte_eq_dec : EqDecision byte.
Proof.
  intros a b. destruct (N.eq_dec (Byte.to_N a) (Byte.to_N b)) as [E|E].
  - left. apply (f_equal Byte.of_N) in E. rewrite !Byte.of_to_N in E. congruence.
  - right. congruence.
Defined.

(** [TextEncoder.encode], and the UTF-8 reader of protobufjs, on the
    UTF-8 model. *)
Definition utf8_encode (s : string) : bytes := list_byte_of_string s.
Definition utf8_decode (b : bytes) : string := string_of_list_byte b.

(** [new TextDecoder().decode]: a byte order mark at the head of the
    input is dropped. *)
Definition strip_BOM (b : bytes) : bytes :=
  match b with
  | xef :: xbb :: xbf :: r => r
  | _ => b
  end.

Definition TextDecoder_decode (b : bytes) : string := utf8_decode (strip_BOM b).

Definition code (c : ascii) : N := N_of_ascii c.

Definition in_range (lo hi : ascii) (c : ascii) : bool :=
  ((code lo <=? code c) && (code c <=? code hi))%N.

Definition is_digit (c : ascii) : bool := in_range "0" "9" c.
Definition is_upper (c : ascii) : bool := in_range "A" "Z" c.
Definition is_lower (c : ascii) : bool := in_range "a" "z" c.
Definition is_alnum (c : ascii) : bool := is_digit c || is_upper c || is_lower c.

Definition ascii_eqb (a b : ascii) : bool := (code a =? code b)%N.

(** [String.prototype.toLowerCase], on ASCII letters. *)
Definition lower_char (c : ascii) : ascii :=
  if is_upper c then ascii_of_N (code c + 32) else c.

Fixpoint toLowerCase (s : string) : string :=
  match s with
  | EmptyString => EmptyString
  | String c r => String (lower_char c) (toLowerCase r)
  end.

Fixpoint string_forallb (p : ascii -> bool) (s : string) : bool :=
  match s with
  | EmptyString => true
  | String c r => p c && string_forallb p r
  end.

Fixpoint string_rev_onto (s acc : string) : string :=
  match s with
  | EmptyString => acc
  | String c r => string_rev_onto r (String c acc)
  end.

Definition string_rev (s : string) : string := string_rev_onto s EmptyString.

Fixpoint string_filter (p : ascii -> bool) (s : string) : string :=
  match s with
  | EmptyString => EmptyString
  | String c r => if p c then String c (string_filter p r) else string_filter p r
  end.

(** The number of UTF-16 code units of the string, which is what [s.length]
    is in JavaScript: one per UTF-8 lead byte, two for a four-byte sequence,
    none for a continuation byte. *)
Definition utf16_units (c : ascii) : nat :=
  if (code c <? 128)%N then 1
  else if (code c <? 192)%N then 0
  else if (code c <? 240)%N then 1 else 2.

Fixpoint js_length (s : string) : nat :=
  match s with
  | EmptyString => 0
  | String c r => utf16_units c + js_length r
  end.

(** [String.prototype.trim]: white space and line terminators are removed
    at both ends.  The code points are U+0009..U+000D, U+0020, U+00A0,
    U+1680, U+2000..U+200A, U+2028, U+2029, U+202F, U+205F, U+3000 and
    U+FEFF, matched here in their UTF-8 form. *)
Definition is_ascii_space (c : ascii) : bool :=
  in_range "009" "013" c || ascii_eqb c " ".

Definition ws3 (a b c : ascii) : bool :=
  let x := code a in let y := code b in let z := code c in
  (((x =? 225) && (y =? 154) && (z =? 128))
   || ((x =? 226) && (y =? 128) && ((128 <=? z) && (z <=? 138)))
   || ((x =? 226) && (y =? 128) && ((z =? 168) || (z =? 169) || (z =? 175)))
   || ((x =? 226) && (y =? 129) && (z =? 159))
   || ((x =? 227) && (y =? 128) && (z =? 128))
   || ((x =? 239) && (y =? 187) && (z =? 191)))%N.

Definition ws2 (a b : ascii) : bool := ((code a =? 194) && (code b =? 160))%N.

Fixpoint trimStart (s : string) : string :=
  match s with
  | String a r =>
      if is_ascii_space a then trimStart r
      else match r with
           | String b r' =>
               if ws2 a b then trimStart r'
               else match r' with
                    | String c r'' => if ws3 a b c then trimStart r'' else s
                    | EmptyString => s
                    end
           | EmptyString => s
           end
  | EmptyString => s
  end.

(** The same scan on the reversed string, where a multi-byte white space
    shows its bytes in the opposite order. *)
Fixpoint trimStart_rev (s : string) : string :=
  match s with
  | String a r =>
      if is_ascii_space a then trimStart_rev r
      else match r with
           | String b r' =>
               if ws2 b a then trimStart_rev r'
               else match r' with
                    | String c r'' => if ws3 c b a then trimStart_rev r'' else s
                    | EmptyString => s
                    end
           | EmptyString => s
           end
  | EmptyString => s
  end.

Definition trim (s : string) : string :=
  string_rev (trimStart_rev (string_rev (trimStart s))).

(** [needle] occurs in [s] as a character. *)
Definition string_mem (needle : ascii) (s : string) : bool :=
  negb (string_forallb (fun c => negb (ascii_eqb c needle)) s).

(** [a || undefined] on a string: the empty string is falsy. *)
Definition or_undefined (s : string) : option string :=
  match s with EmptyString => None | _ => Some s end.

(** [s.split(sep)] for a one-character separator. *)
Fixpoint split_on (sep : ascii) (s : string) (cur : string) : list string :=
  match s with
  | EmptyString => [string_rev cur]
  | String c r =>
      if ascii_eqb c sep then string_rev cur :: split_on sep r EmptyString
      else split_on sep r (String c cur)
  end.

Definition nonempty (s : string) : bool :=
  match s with EmptyString => false | _ => true end.

(* --------------------------------------------------------------------- *)
(** ** utils/hex.js *)

Definition hex_value (c : ascii) : option Z :=
  if is_digit c then Some (Z.of_N (code c) - 48)%Z
  else if in_range "a" "f" c then Some (Z.of_N (code c) - 87)%Z
  else if in_range "A" "F" c then Some (Z.of_N (code c) - 55)%Z
  else None.

(** [parseInt(chunk, 16)] on a chunk of two characters; [None] is [NaN].
    Leading white space and a sign are accepted, the prefix [0x] is
    stripped, and the longest run of hexadecimal digits is read. *)
Definition parseInt16 (c1 c2 : ascii) : option Z :=
  match hex_value c1, hex_value c2 with
  | Some a, Some b => Some (16 * a + b)%Z
  | Some a, None =>
      if ascii_eqb c1 "0" && (ascii_eqb c2 "x" || ascii_eqb c2 "X") then None
      else Some a
  | None, Some b =>
      if is_ascii_space c1 || ascii_eqb c1 "+" then Some b
      else if ascii_eqb c1 "-" then Some (- b)%Z
      else None
  | None, None => None
  end.

(** A store into a [Uint8Array]: [NaN] becomes 0, a number wraps. *)
Definition toUint8 (v : option Z) : byte :=
  match v with Some z => byte_of_Z z | None => x00 end.

(** A UTF-16 code unit of a string as [parseInt] sees it: an ASCII
    character, a white space outside ASCII, or any other unit, which is
    no digit. *)
Inductive CodeUnit :=
| AsciiUnit (c : ascii)
| SpaceUnit
| OtherUnit.

(** The white space that begins with the lead byte [a], followed by [r]. *)
Definition space_sequence (a : ascii) (r : string) : bool :=
  match r with
  | String b r' =>
      ws2 a b || match r' with String c _ => ws3 a b c | EmptyString => false end
  | EmptyString => false
  end.

(** The code units of a string, read off its UTF-8 form as [js_length]
    counts them: one for an ASCII byte and for the lead byte of a two- or
    three-byte sequence, two (a surrogate pair) for the lead byte of a
    four-byte sequence, none for a continuation byte. *)
Fixpoint code_units (s : string) : list CodeUnit :=
  match s with
  | EmptyString => []
  | String a r =>
      if (code a <? 128)%N then AsciiUnit a :: code_units r
      else if (code a <? 192)%N then code_units r
      else if (code a <? 240)%N
           then (if space_sequence a r then SpaceUnit else OtherUnit) :: code_units r
           else OtherUnit :: OtherUnit :: code_units r
  end.

(** [parseInt(chunk, 16)] on a chunk of two code units. *)
Definition parseInt16_units (u1 u2 : CodeUnit) : option Z :=
  match u1, u2 with
  | AsciiUnit c1, AsciiUnit c2 => parseInt16 c1 c2
  | AsciiUnit c1, _ => hex_value c1
  | SpaceUnit, AsciiUnit c2 => hex_value c2
  | _, _ => None
  end.

(** The loop [bytes[i] = parseInt(hex.slice(i * 2, i * 2 + 2), 16)]. *)
Fixpoint unit_pairs (l : list CodeUnit) : bytes :=
  match l with
  | u1 :: u2 :: r => toUint8 (parseInt16_units u1 u2) :: unit_pairs r
  | _ => []
  end.

Definition hexToBytes (hex : string) : option bytes :=
  if Nat.even (js_length hex) then Some (unit_pairs (code_units hex)) else None.

(** The bytes [hexToBytes] returns for a string of ASCII characters,
    whose code units are its characters. *)
Fixpoint hex_pairs (s : string) : bytes :=
  match s with
  | String c1 (String c2 r) => toUint8 (parseInt16 c1 c2) :: hex_pairs r
  | _ => []
  end.

Definition hex_char (n : N) : ascii :=
  if (n <? 10)%N then ascii_of_N (48 + n) else ascii_of_N (87 + n).

(** [b.toString(16).padStart(2, "0")] *)
Definition byte_hex (b : byte) : string :=
  let n := Byte.to_N b in
  String (hex_char (n / 16)) (String (hex_char (n mod 16)) EmptyString).

Fixpoint bytesToHex (bs : bytes) : string :=
  match bs with
  | [] => EmptyString
  | b :: r => byte_hex b +:+ bytesToHex r
  end.

(** Lowercase, no prefix, even length: the hex strings of the data model. *)
Definition is_lower_hex_char (c : ascii) : bool :=
  is_digit c || in_range "a" "f" c.

Definition is_lower_hex (s : string) : bool :=
  Nat.even (String.length s) && string_forallb is_lower_hex_char s.

(** The ASCII characters: on a string of them the code units are the
    characters. *)
Definition is_ascii_char (c : ascii) : bool := (code c <? 128)%N.

(* --------------------------------------------------------------------- *)
(** ** The libraries the SDK calls *)

(** What [parseInviteCode] reads of a parsed [URL]. *)
Record URL := {
  url_searchParams : list (string * string);
  url_pathname : string
}.

(** [None] is a thrown exception throughout.
    - [pako_deflate], [pako_inflate]: [pako.deflate] and [pako.inflate];
      the latter is also [None] where pako hands back no buffer.
    - [secp_getPublicKey k] is [secp.getPublicKey(k, false)].
    - [secp_sign h k] is [secp.sign(h, k)], as the compact bytes and the
      recovery bit of the signature.
    - [secp_recoverPublicKey h c v] is
      [Signature.fromCompact(c).addRecoveryBit(v).recoverPublicKey(h)
       .toRawBytes(false)].
    - [secp_pointFromHex p] is [ProjectivePoint.fromHex(p).toRawBytes(false)].
    - [hkdf_sha256 ikm salt info L] is [hkdf(sha256, ikm, salt, info, L)].
    - [chacha_encrypt key nonce aad pt] and [chacha_decrypt key nonce aad ct]
      are [chacha20poly1305(key, nonce, aad).encrypt(pt)] and [.decrypt(ct)].
    - [new_URL s] is [new URL(s)].
    - [JSON_quote s] is [JSON.stringify(s)] for a string [s];
      [Date_toISOString ms] is [new Date(ms).toISOString()]. *)
Class Platform := {
  pako_deflate : bytes -> option bytes;
  pako_inflate : bytes -> option bytes;
  sha256 : bytes -> bytes;
  secp_getPublicKey : bytes -> option bytes;
  secp_sign : bytes -> bytes -> option (bytes * option byte);
  secp_recoverPublicKey : bytes -> bytes -> byte -> option bytes;
  secp_pointFromHex : bytes -> option bytes;
  hkdf_sha256 : bytes -> bytes -> bytes -> nat -> bytes;
  chacha_encrypt : bytes -> bytes -> bytes -> bytes -> option bytes;
  chacha_decrypt : bytes -> bytes -> bytes -> bytes -> option bytes;
  new_URL : string -> option URL;
  JSON_quote : string -> string;
  Date_toISOString : Z -> string
}.

(** The stream [pako.deflate] produces for the empty input: the zlib
    header, one empty fixed-Huffman block, and the Adler-32 of nothing. *)
Definition zlib_empty_stream : bytes := [x78; x9c; x03; x00; x00; x00; x00; x01].

(** What the development assumes of the libraries. *)
Class PlatformLaws (P : Platform) : Prop := {
  inflate_deflate :
    forall x c, pako_deflate x = Some c -> pako_inflate c = Some x;
  deflate_empty : pako_deflate [] = Some zlib_empty_stream;
  sha256_length : forall x, length (sha256 x) = 32;
  getPublicKey_length :
    forall k pk, secp_getPublicKey k = Some pk -> length pk = 65;
  getPublicKey_key_length :
    forall k, length k <> 32 -> secp_getPublicKey k = None;
  sign_recover :
    forall h k pk, length h = 32 -> secp_getPublicKey k = Some pk ->
      exists c v, secp_sign h k = Some (c, Some v) /\ length c = 64 /\
                  (Byte.to_N v <= 3)%N /\ secp_recoverPublicKey h c v = Some pk;
  hkdf_length :
    forall ikm salt info L, length (hkdf_sha256 ikm salt info L) = L;
  chacha_roundtrip :
    forall k n aad pt, length k = 32 -> length n = 12 ->
      exists ct, chacha_encrypt k n aad pt = Some ct /\
                 length ct = length pt + 16 /\
                 chacha_decrypt k n aad ct = Some pt;
  URL_needs_scheme :
    forall s u, new_URL s = Some u -> string_mem ":" s = true
}.

(* --------------------------------------------------------------------- *)
(** ** utils/compression.js *)

Definition COMPRESSION_MARKER : byte := x78.
Definition MAX_DECOMPRESSED_SIZE : N := 1024 * 1024.
Definition MIN_SIZE_FOR_COMPRESSION : nat := 100.

Definition compressIfSmaller `{Platform} (data : bytes) : bytes :=
  if length data <? MIN_SIZE_FOR_COMPRESSION then data
  else match pako_deflate data with
       | Some compressed =>
           if length compressed + 1 <? length data
           then COMPRESSION_MARKER :: compressed
           else data
       | None => data
       end.

Definition decompress `{Platform} (data : bytes) : option bytes :=
  match data with
  | [] => Some data
  | b0 :: compressed =>
      if byte_eqb b0 COMPRESSION_MARKER then
        decompressed ← pako_inflate compressed;
        if (MAX_DECOMPRESSED_SIZE <? N.of_nat (length decompressed))%N then None
        else Some decompressed
      else Some data
  end.

Definition isCompressed (data : bytes) : bool :=
  match data with
  | b0 :: _ => byte_eqb b0 COMPRESSION_MARKER
  | [] => false
  end.

(* --------------------------------------------------------------------- *)
(** ** utils/base64url.js, over Node's [Buffer] *)

(** The standard alphabet. *)
Definition b64char (v : N) : ascii :=
  if (v <? 26)%N then ascii_of_N (65 + v)
  else if (v <? 52)%N then ascii_of_N (71 + v)
  else if (v <? 62)%N then ascii_of_N (v - 4)
  else if (v =? 62)%N then "+"%char else "/"%char.

Fixpoint sextets (bs : bytes) : list N :=
  match bs with
  | a :: b :: c :: r =>
      let x := Byte.to_N a in let y := Byte.to_N b in let z := Byte.to_N c in
      (x / 4 :: (x mod 4) * 16 + y / 16 :: (y mod 16) * 4 + z / 64 :: z mod 64
         :: sextets r)%N
  | [a; b] =>
      let x := Byte.to_N a in let y := Byte.to_N b in
      [x / 4; (x mod 4) * 16 + y / 16; (y mod 16) * 4]%N
  | [a] => let x := Byte.to_N a in [x / 4; (x mod 4) * 16]%N
  | [] => []
  end.

Fixpoint string_of_chars (l : list ascii) : string :=
  match l with
  | [] => EmptyString
  | c :: r => String c (string_of_chars r)
  end.

Fixpoint string_repeat (c : ascii) (n : nat) : string :=
  match n with
  | O => EmptyString
  | S k => String c (string_repeat c k)
  end.

(** [Buffer.from(data).toString("base64")] *)
Definition toString_base64 (data : bytes) : string :=
  string_of_chars (map b64char (sextets data))
  +:+ string_repeat "=" ((3 - length data mod 3) mod 3).

(** Node reads both alphabets. *)
Definition unbase64 (c : ascii) : option N :=
  if is_upper c then Some (code c - 65)%N
  else if is_lower c then Some (code c - 71)%N
  else if is_digit c then Some (code c + 4)%N
  else if ascii_eqb c "+" || ascii_eqb c "-" then Some 62%N
  else if ascii_eqb c "/" || ascii_eqb c "_" then Some 63%N
  else None.

(** Node's decoder skips a character outside the alphabets and stops at
    the first [=]. *)
Fixpoint legal_sextets (s : string) : list N :=
  match s with
  | EmptyString => []
  | String c r =>
      if ascii_eqb c "=" then []
      else match unbase64 c with
           | Some v => v :: legal_sextets r
           | None => legal_sextets r
           end
  end.

Fixpoint unsextets (l : list N) : bytes :=
  match l with
  | a :: b :: c :: d :: r =>
      (byte_of_N (a * 4 + b / 16) :: byte_of_N ((b mod 16) * 16 + c / 4)
         :: byte_of_N ((c mod 4) * 64 + d) :: unsextets r)%N
  | [a; b; c] =>
      [byte_of_N (a * 4 + b / 16); byte_of_N ((b mod 16) * 16 + c / 4)]%N
  | [a; b] => [byte_of_N (a * 4 + b / 16)%N]
  | _ => []
  end.

(** [Buffer.from(s, "base64")] *)
Definition from_base64 (s : string) : bytes := unsextets (legal_sextets s).

(** [s.replace(/x/g, y)] for single characters. *)
Fixpoint replace_char (x y : ascii) (s : string) : string :=
  match s with
  | EmptyString => EmptyString
  | String c r =>
      String (if ascii_eqb c x then y else c) (replace_char x y r)
  end.

Fixpoint drop_leading (x : ascii) (s : string) : string :=
  match s with
  | String c r => if ascii_eqb c x then drop_leading x r else s
  | EmptyString => s
  end.

(** [s.replace(/=+$/, "")] *)
Definition strip_padding (s : string) : string :=
  string_rev (drop_leading "=" (string_rev s)).

Definition base64UrlEncode (data : bytes) : string :=
  strip_padding (replace_char "/" "_" (replace_char "+" "-" (toString_base64 data))).

Definition base64UrlDecode (str : string) : bytes :=
  let base64 := replace_char "_" "/" (replace_char "-" "+" str) in
  let padLength := (4 - js_length base64 mod 4) mod 4 in
  from_base64 (base64 +:+ string_repeat "=" padLength).

(* --------------------------------------------------------------------- *)
(** ** invite/encoding.js *)

Definition IMESSAGE_SEPARATOR : ascii := "*".
Definition IMESSAGE_CHUNK_SIZE : nat := 300.

(** [getInviteBaseURL(env = "dev")] *)
Definition getInviteBaseURL (env : option string) : string :=
  let env := default "dev" env in
  if decide (env = "production") then "https://popup.convos.org/v2"
  else "https://dev.convos.org/v2".

Fixpoint string_take (n : nat) (s : string) : string :=
  match n, s with
  | S k, String c r => String c (string_take k r)
  | _, _ => EmptyString
  end.

Fixpoint string_drop (n : nat) (s : string) : string :=
  match n, s with
  | S k, String _ r => string_drop k r
  | _, _ => s
  end.

(** The loop of [insertSeparators]: [parts.push(str.slice(i, i + every))]. *)
Fixpoint slices (fuel every : nat) (s : string) : list string :=
  match fuel with
  | O => []
  | S f =>
      match s with
      | EmptyString => []
      | _ => string_take every s :: slices f every (string_drop every s)
      end
  end.

Fixpoint join (sep : ascii) (parts : list string) : string :=
  match parts with
  | [] => EmptyString
  | [p] => p
  | p :: r => p +:+ String sep (join sep r)
  end.

Definition insertSeparators (str : string) (separator : ascii) (every : nat) : string :=
  if String.length str <=? every then str
  else join separator (slices (String.length str) every str).

Definition encodeToSlug `{Platform} (data : bytes) : string :=
  let compressed := compressIfSmaller data in
  let encoded := base64UrlEncode compressed in
  insertSeparators encoded IMESSAGE_SEPARATOR IMESSAGE_CHUNK_SIZE.

Definition decodeFromSlug `{Platform} (slug : string) : option bytes :=
  let withoutSeparators :=
    string_filter (fun c => negb (ascii_eqb c "*")) slug in
  let decoded := base64UrlDecode withoutSeparators in
  decompress decoded.

(** [encodeURIComponent]: the unreserved characters stay, every other
    UTF-8 byte becomes [%XX] with uppercase digits. *)
Definition uri_unreserved (c : ascii) : bool :=
  is_alnum c
  || existsb (ascii_eqb c) ["-"; "_"; "."; "!"; "~"; "*"; "'"; "("; ")"]%char.

Definition upper_hex_char (n : N) : ascii :=
  if (n <? 10)%N then ascii_of_N (48 + n) else ascii_of_N (55 + n).

Fixpoint encodeURIComponent (s : string) : string :=
  match s with
  | EmptyString => EmptyString
  | String c r =>
      if uri_unreserved c then String c (encodeURIComponent r)
      else String "%" (String (upper_hex_char (code c / 16))
             (String (upper_hex_char (code c mod 16)) (encodeURIComponent r)))
  end.

(** [generateInviteURL(slug, baseURL = "https://popup.convos.org/v2")] *)
Definition generateInviteURL (slug : string) (baseURL : option string) : string :=
  default "https://popup.convos.org/v2" baseURL +:+ "?i=" +:+ encodeURIComponent slug.

(** [url.searchParams.get(name)] *)
Fixpoint searchParams_get (ps : list (string * string)) (name : string) : option string :=
  match ps with
  | [] => None
  | (k, v) :: r => if decide (k = name) then Some v else searchParams_get r name
  end.

(** A value that is set and truthy. *)
Definition truthy_param (v : option string) : option string :=
  match v with
  | Some s => if nonempty s then Some s else None
  | None => None
  end.

Definition parseInviteCode `{Platform} (input : string) : string :=
  let trimmed := trim input in
  match new_URL trimmed with
  | Some url =>
      match truthy_param (searchParams_get (url_searchParams url) "i") with
      | Some iParam => iParam
      | None =>
          match truthy_param (searchParams_get (url_searchParams url) "code") with
          | Some codeParam => codeParam
          | None =>
              let pathParts :=
                filter (fun p => nonempty p = true)
                       (split_on "/" (url_pathname url) EmptyString) in
              match last pathParts with
              | Some p => p
              | None => trimmed
              end
          end
      end
  | None => trimmed
  end.

(* --------------------------------------------------------------------- *)
(** ** protobufjs: the writer and the reader *)

(** [writeVarint32]: seven bits at a time, low group first. *)
Fixpoint writeVarint32 (fuel : nat) (val : N) : bytes :=
  match fuel with
  | O => [byte_of_N val]
  | S f =>
      if (127 <? val)%N
      then byte_of_N (val mod 128 + 128) :: writeVarint32 f (val / 128)
      else [byte_of_N val]
  end.

(** [Writer.uint32(value)]: [value >>> 0] is written, in at most five bytes. *)
Definition writer_uint32 (value : N) : bytes :=
  writeVarint32 4 (value mod 2 ^ 32).

Definition writer_bytes (value : bytes) : bytes :=
  writer_uint32 (N.of_nat (length value)) ++ value.

Definition writer_string (value : string) : bytes :=
  writer_bytes (utf8_encode value).

Definition writer_bool (value : bool) : bytes := [if value then x01 else x00].

(** A [Long]: the two 32-bit halves of a 64-bit integer. *)
Record Long := { Long_low : Z; Long_high : Z }.

Definition Long_zero : Long := {| Long_low := 0; Long_high := 0 |}.

(** The helper [Long.fromBigInt] of proto/invite.ts and
    proto/conversation-metadata.ts. *)
Definition Long_fromBigInt (value : Z) : Long :=
  {| Long_low := Z.land value 4294967295;
     Long_high := Z.land (Z.shiftr value 32) 4294967295 |}.

(** [BigInt(l.toString())] for a signed [Long]. *)
Definition Long_toBigInt (l : Long) : Z :=
  let u := (Long_high l mod 2 ^ 32 * 2 ^ 32 + Long_low l mod 2 ^ 32)%Z in
  if (u <? 2 ^ 63)%Z then u else (u - 2 ^ 64)%Z.

Definition writeFixed32 (v : Z) : bytes :=
  [byte_of_Z v; byte_of_Z (v / 256); byte_of_Z (v / 65536); byte_of_Z (v / 16777216)].

Definition writer_sfixed64 (l : Long) : bytes :=
  writeFixed32 (Long_low l) ++ writeFixed32 (Long_high l).

(** [Reader.uint32]: up to five bytes carry the value; a fifth byte that
    still has its high bit set makes the reader step over five more. *)
Fixpoint readVarint32 (n : nat) (shift : N) (acc : N) (bs : bytes) : option (N * bytes) :=
  match bs with
  | [] => None
  | b :: r =>
      match n with
      | O =>
          let v := (acc + (Byte.to_N b mod 16) * 2 ^ shift)%N in
          if (Byte.to_N b <? 128)%N then Some (v, r)
          else if 5 <=? length r then Some (v, skipn 5 r) else None
      | S n' =>
          let v := (acc + (Byte.to_N b mod 128) * 2 ^ shift)%N in
          if (Byte.to_N b <? 128)%N then Some (v, r)
          else readVarint32 n' (shift + 7) v r
      end
  end.

Definition reader_uint32 (bs : bytes) : option (N * bytes) := readVarint32 4 0 0 bs.

Definition reader_bytes (bs : bytes) : option (bytes * bytes) :=
  '(len, r) ← reader_uint32 bs;
  if (N.of_nat (length r) <? len)%N then None
  else Some (firstn (N.to_nat len) r, skipn (N.to_nat len) r).

Definition reader_string (bs : bytes) : option (string * bytes) :=
  '(v, r) ← reader_bytes bs; Some (utf8_decode v, r).

Definition reader_bool (bs : bytes) : option (bool * bytes) :=
  '(v, r) ← reader_uint32 bs; Some (negb (v =? 0)%N, r).

Definition readFixed32 (b0 b1 b2 b3 : byte) : Z :=
  (Z.of_N (Byte.to_N b0) + 256 * Z.of_N (Byte.to_N b1)
   + 65536 * Z.of_N (Byte.to_N b2) + 16777216 * Z.of_N (Byte.to_N b3))%Z.

Definition reader_sfixed64 (bs : bytes) : option (Long * bytes) :=
  match bs with
  | b0 :: b1 :: b2 :: b3 :: b4 :: b5 :: b6 :: b7 :: r =>
      Some ({| Long_low := readFixed32 b0 b1 b2 b3;
               Long_high := readFixed32 b4 b5 b6 b7 |}, r)
  | _ => None
  end.

(** [Reader.skip()] over a varint and [Reader.skip(n)]. *)
Fixpoint reader_skip_varint (bs : bytes) : option bytes :=
  match bs with
  | [] => None
  | b :: r => if (Byte.to_N b <? 128)%N then Some r else reader_skip_varint r
  end.

Definition reader_skip (n : N) (bs : bytes) : option bytes :=
  if (N.of_nat (length bs) <? n)%N then None else Some (skipn (N.to_nat n) bs).

(** [Reader.skipType(wireType)]; a group is skipped up to its end tag. *)
Fixpoint reader_skipType (fuel : nat) (wireType : N) (bs : bytes) : option bytes :=
  match fuel with
  | O => None
  | S f =>
      match wireType with
      | 0%N => reader_skip_varint bs
      | 1%N => reader_skip 8 bs
      | 2%N => '(l, r) ← reader_uint32 bs; reader_skip l r
      | 3%N =>
          (fix group (n : nat) (bs : bytes) : option bytes :=
             match n with
             | O => None
             | S n' =>
                 '(t, r) ← reader_uint32 bs;
                 if (t mod 8 =? 4)%N then Some r
                 else r' ← reader_skipType f (t mod 8) r; group n' r'
             end) (S (length bs)) bs
      | 5%N => reader_skip 4 bs
      | _ => None
      end
  end.

(** The loop of a generated [decode]: [while (r.pos < c)], where [stop]
    is the number of bytes that follow position [c].  [step] decodes the
    field whose tag has been read. *)
Fixpoint decode_loop {M : Type}
    (step : nat -> N -> bytes -> M -> option (M * bytes))
    (fuel : nat) (stop : nat) (bs : bytes) (m : M) : option (M * bytes) :=
  if length bs <=? stop then Some (m, bs)
  else match fuel with
       | O => None
       | S f =>
           '(t, r) ← reader_uint32 bs;
           '(m', r') ← step f t r m;
           decode_loop step f stop r' m'
       end.

(** [Type.decode(buffer)] *)
Definition decode_message {M : Type}
    (step : nat -> N -> bytes -> M -> option (M * bytes)) (empty : M)
    (bs : bytes) : option M :=
  '(m, _) ← decode_loop step (S (length bs)) 0 bs empty; Some m.

(** [Type.decode(r, r.uint32())]: a message nested in a field, as the
    decoders generated by protobufjs 7.0 to 7.5 read it: the loop runs
    while the reader is before the declared end of the message, and a
    field that runs past that end is read in full. *)
Definition decode_nested {M : Type}
    (step : nat -> N -> bytes -> M -> option (M * bytes)) (empty : M)
    (fuel : nat) (bs : bytes) : option (M * bytes) :=
  '(l, r) ← reader_uint32 bs;
  if (N.of_nat (length r) <? l)%N then None
  else decode_loop step fuel (length r - N.to_nat l) r empty.

(** A field of the encoder: written when the property is set. *)
Definition field {A : Type} (id : N) (wireType : N) (write : A -> bytes)
    (v : option A) : bytes :=
  match v with
  | Some x => writer_uint32 (id * 8 + wireType) ++ write x
  | None => []
  end.

(** An object is truthy whatever it holds. *)
Definition object_truthy {A : Type} (_ : A) : bool := true.

(* --------------------------------------------------------------------- *)
(** ** proto/invite.ts *)

(** A message of [InvitePayloadType]: a property is [Some] when the
    message has it as its own; reading a property the message does not
    have yields the default of its type, from the prototype. *)
Record InvitePayloadMessage := {
  msg_conversationToken : option bytes;
  msg_creatorInboxId : option bytes;
  msg_tag : option string;
  msg_name : option string;
  msg_description : option string;
  msg_imageURL : option string;
  msg_conversationExpiresAtUnix : option Long;
  msg_expiresAtUnix : option Long;
  msg_expiresAfterUse : option bool
}.

Definition InvitePayloadMessage_empty : InvitePayloadMessage :=
  {| msg_conversationToken := None; msg_creatorInboxId := None; msg_tag := None;
     msg_name := None; msg_description := None; msg_imageURL := None;
     msg_conversationExpiresAtUnix := None; msg_expiresAtUnix := None;
     msg_expiresAfterUse := None |}.

Record SignedInviteMessage := {
  msg_payload : option bytes;
  msg_signature : option bytes
}.

Definition SignedInviteMessage_empty : SignedInviteMessage :=
  {| msg_payload := None; msg_signature := None |}.

Record InvitePayload := {
  ip_conversationToken : bytes;
  ip_creatorInboxId : bytes;
  ip_tag : string;
  ip_name : option string;
  ip_description : option string;
  ip_imageURL : option string;
  ip_conversationExpiresAtUnix : option Z;
  ip_expiresAtUnix : option Z;
  ip_expiresAfterUse : bool
}.

Record SignedInvite := {
  si_payload : bytes;
  si_signature : bytes
}.

(** [InvitePayloadType.encode(message).finish()]: the fields in the order
    of their numbers. *)
Definition InvitePayloadType_encode (m : InvitePayloadMessage) : bytes :=
  field 1 2 writer_bytes (msg_conversationToken m)
  ++ field 2 2 writer_bytes (msg_creatorInboxId m)
  ++ field 3 2 writer_string (msg_tag m)
  ++ field 4 2 writer_string (msg_name m)
  ++ field 5 2 writer_string (msg_description m)
  ++ field 6 2 writer_string (msg_imageURL m)
  ++ field 7 1 writer_sfixed64 (msg_conversationExpiresAtUnix m)
  ++ field 8 1 writer_sfixed64 (msg_expiresAtUnix m)
  ++ field 9 0 writer_bool (msg_expiresAfterUse m).

(** The assignments [m.field = value] of the generated decoder. *)
Definition set_conversationToken (m : InvitePayloadMessage) (v : bytes) : InvitePayloadMessage :=
  {| msg_conversationToken := Some v;
     msg_creatorInboxId := msg_creatorInboxId m;
     msg_tag := msg_tag m;
     msg_name := msg_name m;
     msg_description := msg_description m;
     msg_imageURL := msg_imageURL m;
     msg_conversationExpiresAtUnix := msg_conversationExpiresAtUnix m;
     msg_expiresAtUnix := msg_expiresAtUnix m;
     msg_expiresAfterUse := msg_expiresAfterUse m |}.

Definition set_creatorInboxId (m : InvitePayloadMessage) (v : bytes) : InvitePayloadMessage :=
  {| msg_conversationToken := msg_conversationToken m;
     msg_creatorInboxId := Some v;
     msg_tag := msg_tag m;
     msg_name := msg_name m;
     msg_description := msg_description m;
     msg_imageURL := msg_imageURL m;
     msg_conversationExpiresAtUnix := msg_conversationExpiresAtUnix m;
     msg_expiresAtUnix := msg_expiresAtUnix m;
     msg_expiresAfterUse := msg_expiresAfterUse m |}.

Definition set_tag (m : InvitePayloadMessage) (v : string) : InvitePayloadMessage :=
  {| msg_conversationToken := msg_conversationToken m;
     msg_creatorInboxId := msg_creatorInboxId m;
     msg_tag := Some v;
     msg_name := msg_name m;
     msg_description := msg_description m;
     msg_imageURL := msg_imageURL m;
     msg_conversationExpiresAtUnix := msg_conversationExpiresAtUnix m;
     msg_expiresAtUnix := msg_expiresAtUnix m;
     msg_expiresAfterUse := msg_expiresAfterUse m |}.

Definition set_name (m : InvitePayloadMessage) (v : string) : InvitePayloadMessage :=
  {| msg_conversationToken := msg_conversationToken m;
     msg_creatorInboxId := msg_creatorInboxId m;
     msg_tag := msg_tag m;
     msg_name := Some v;
     msg_description := msg_description m;
     msg_imageURL := msg_imageURL m;
     msg_conversationExpiresAtUnix := msg_conversationExpiresAtUnix m;
     msg_expiresAtUnix := msg_expiresAtUnix m;
     msg_expiresAfterUse := msg_expiresAfterUse m |}.

Definition set_description (m : InvitePayloadMessage) (v : string) : InvitePayloadMessage :=
  {| msg_conversationToken := msg_conversationToken m;
     msg_creatorInboxId := msg_creatorInboxId m;
     msg_tag := msg_tag m;
     msg_name := msg_name m;
     msg_description := Some v;
     msg_imageURL := msg_imageURL m;
     msg_conversationExpiresAtUnix := msg_conversationExpiresAtUnix m;
     msg_expiresAtUnix := msg_expiresAtUnix m;
     msg_expiresAfterUse := msg_expiresAfterUse m |}.

Definition set_imageURL (m : InvitePayloadMessage) (v : string) : InvitePayloadMessage :=
  {| msg_conversationToken := msg_conversationToken m;
     msg_creatorInboxId := msg_creatorInboxId m;
     msg_tag := msg_tag m;
     msg_name := msg_name m;
     msg_description := msg_description m;
     msg_imageURL := Some v;
     msg_conversationExpiresAtUnix := msg_conversationExpiresAtUnix m;
     msg_expiresAtUnix := msg_expiresAtUnix m;
     msg_expiresAfterUse := msg_expiresAfterUse m |}.

Definition set_conversationExpiresAtUnix (m : InvitePayloadMessage) (v : Long) : InvitePayloadMessage :=
  {| msg_conversationToken := msg_conversationToken m;
     msg_creatorInboxId := msg_creatorInboxId m;
     msg_tag := msg_tag m;
     msg_name := msg_name m;
     msg_description := msg_description m;
     msg_imageURL := msg_imageURL m;
     msg_conversationExpiresAtUnix := Some v;
     msg_expiresAtUnix := msg_expiresAtUnix m;
     msg_expiresAfterUse := msg_expiresAfterUse m |}.

Definition set_expiresAtUnix (m : InvitePayloadMessage) (v : Long) : InvitePayloadMessage :=
  {| msg_conversationToken := msg_conversationToken m;
     msg_creatorInboxId := msg_creatorInboxId m;
     msg_tag := msg_tag m;
     msg_name := msg_name m;
     msg_description := msg_description m;
     msg_imageURL := msg_imageURL m;
     msg_conversationExpiresAtUnix := msg_conversationExpiresAtUnix m;
     msg_expiresAtUnix := Some v;
     msg_expiresAfterUse := msg_expiresAfterUse m |}.

Definition set_expiresAfterUse (m : InvitePayloadMessage) (v : bool) : InvitePayloadMessage :=
  {| msg_conversationToken := msg_conversationToken m;
     msg_creatorInboxId := msg_creatorInboxId m;
     msg_tag := msg_tag m;
     msg_name := msg_name m;
     msg_description := msg_description m;
     msg_imageURL := msg_imageURL m;
     msg_conversationExpiresAtUnix := msg_conversationExpiresAtUnix m;
     msg_expiresAtUnix := msg_expiresAtUnix m;
     msg_expiresAfterUse := Some v |}.

(** The [switch (t >>> 3)] of the generated decoder: a known field is
    read with the reader of its type, any other is skipped by its wire
    type. *)
Definition InvitePayloadType_step (fuel : nat) (t : N) (r : bytes)
    (m : InvitePayloadMessage) : option (InvitePayloadMessage * bytes) :=
  match (t / 8)%N with
  | 1%N => '(v, r') ← reader_bytes r; Some (set_conversationToken m v, r')
  | 2%N => '(v, r') ← reader_bytes r; Some (set_creatorInboxId m v, r')
  | 3%N => '(v, r') ← reader_string r; Some (set_tag m v, r')
  | 4%N => '(v, r') ← reader_string r; Some (set_name m v, r')
  | 5%N => '(v, r') ← reader_string r; Some (set_description m v, r')
  | 6%N => '(v, r') ← reader_string r; Some (set_imageURL m v, r')
  | 7%N => '(v, r') ← reader_sfixed64 r; Some (set_conversationExpiresAtUnix m v, r')
  | 8%N => '(v, r') ← reader_sfixed64 r; Some (set_expiresAtUnix m v, r')
  | 9%N => '(v, r') ← reader_bool r; Some (set_expiresAfterUse m v, r')
  | _ => r' ← reader_skipType fuel (t mod 8) r; Some (m, r')
  end.

Definition InvitePayloadType_decode (bs : bytes) : option InvitePayloadMessage :=
  decode_message InvitePayloadType_step InvitePayloadMessage_empty bs.

Definition SignedInviteType_encode (m : SignedInviteMessage) : bytes :=
  field 1 2 writer_bytes (msg_payload m)
  ++ field 2 2 writer_bytes (msg_signature m).

Definition set_payload (m : SignedInviteMessage) (v : bytes) : SignedInviteMessage :=
  {| msg_payload := Some v;
     msg_signature := msg_signature m |}.

Definition set_signature (m : SignedInviteMessage) (v : bytes) : SignedInviteMessage :=
  {| msg_payload := msg_payload m;
     msg_signature := Some v |}.

Definition SignedInviteType_step (fuel : nat) (t : N) (r : bytes)
    (m : SignedInviteMessage) : option (SignedInviteMessage * bytes) :=
  match (t / 8)%N with
  | 1%N => '(v, r') ← reader_bytes r; Some (set_payload m v, r')
  | 2%N => '(v, r') ← reader_bytes r; Some (set_signature m v, r')
  | _ => r' ← reader_skipType fuel (t mod 8) r; Some (m, r')
  end.

Definition SignedInviteType_decode (bs : bytes) : option SignedInviteMessage :=
  decode_message SignedInviteType_step SignedInviteMessage_empty bs.

(** [v ? Long.fromBigInt(v) : undefined] on an optional [bigint]: [0n] is
    falsy. *)
Definition Long_of_truthy (v : option Z) : option Long :=
  match v with
  | Some z => if (z =? 0)%Z then None else Some (Long_fromBigInt z)
  | None => None
  end.

Definition encodeInvitePayload (payload : InvitePayload) : bytes :=
  InvitePayloadType_encode
    {| msg_conversationToken := Some (ip_conversationToken payload);
       msg_creatorInboxId := Some (ip_creatorInboxId payload);
       msg_tag := Some (ip_tag payload);
       msg_name := ip_name payload;
       msg_description := ip_description payload;
       msg_imageURL := ip_imageURL payload;
       msg_conversationExpiresAtUnix := Long_of_truthy (ip_conversationExpiresAtUnix payload);
       msg_expiresAtUnix := Long_of_truthy (ip_expiresAtUnix payload);
       msg_expiresAfterUse := Some (ip_expiresAfterUse payload) |}.

(** [l && l.toString() !== "0" ? BigInt(l.toString()) : undefined] *)
Definition bigint_unless_zero (l : Long) : option Z :=
  if object_truthy l && negb (Long_toBigInt l =? 0)%Z
  then Some (Long_toBigInt l) else None.

Definition decodeInvitePayload (bs : bytes) : option InvitePayload :=
  message ← InvitePayloadType_decode bs;
  Some {| ip_conversationToken := default [] (msg_conversationToken message);
          ip_creatorInboxId := default [] (msg_creatorInboxId message);
          ip_tag := default "" (msg_tag message);
          ip_name := or_undefined (default "" (msg_name message));
          ip_description := or_undefined (default "" (msg_description message));
          ip_imageURL := or_undefined (default "" (msg_imageURL message));
          ip_conversationExpiresAtUnix :=
            bigint_unless_zero (default Long_zero (msg_conversationExpiresAtUnix message));
          ip_expiresAtUnix :=
            bigint_unless_zero (default Long_zero (msg_expiresAtUnix message));
          ip_expiresAfterUse := default false (msg_expiresAfterUse message) |}.

Definition encodeSignedInvite (invite : SignedInvite) : bytes :=
  SignedInviteType_encode
    {| msg_payload := Some (si_payload invite);
       msg_signature := Some (si_signature invite) |}.

Definition decodeSignedInvite (bs : bytes) : option SignedInvite :=
  message ← SignedInviteType_decode bs;
  Some {| si_payload := default [] (msg_payload message);
          si_signature := default [] (msg_signature message) |}.

(* --------------------------------------------------------------------- *)
(** ** proto/conversation-metadata.ts *)

Record ConversationProfileMessage := {
  msg_inboxId : option bytes;
  msg_profile_name : option string;
  msg_profile_image : option string
}.

Definition ConversationProfileMessage_empty : ConversationProfileMessage :=
  {| msg_inboxId := None; msg_profile_name := None; msg_profile_image := None |}.

Record ConversationCustomMetadataMessage := {
  msg_md_tag : option string;
  msg_profiles : list ConversationProfileMessage;
  msg_md_expiresAtUnix : option Long;
  msg_imageEncryptionKey : option bytes
}.

Definition ConversationCustomMetadataMessage_empty : ConversationCustomMetadataMessage :=
  {| msg_md_tag := None; msg_profiles := []; msg_md_expiresAtUnix := None;
     msg_imageEncryptionKey := None |}.

Record ConversationProfile := {
  cp_inboxId : bytes;
  cp_name : option string;
  cp_image : option string
}.

Record ConversationCustomMetadata := {
  md_tag : string;
  md_profiles : list ConversationProfile;
  md_expiresAtUnix : option Z;
  md_imageEncryptionKey : option bytes
}.

Definition ConversationProfileType_encode (m : ConversationProfileMessage) : bytes :=
  field 1 2 writer_bytes (msg_inboxId m)
  ++ field 2 2 writer_string (msg_profile_name m)
  ++ field 3 2 writer_string (msg_profile_image m).

Definition set_inboxId (m : ConversationProfileMessage) (v : bytes) : ConversationProfileMessage :=
  {| msg_inboxId := Some v;
     msg_profile_name := msg_profile_name m;
     msg_profile_image := msg_profile_image m |}.

Definition set_profile_name (m : ConversationProfileMessage) (v : string) : ConversationProfileMessage :=
  {| msg_inboxId := msg_inboxId m;
     msg_profile_name := Some v;
     msg_profile_image := msg_profile_image m |}.

Definition set_profile_image (m : ConversationProfileMessage) (v : string) : ConversationProfileMessage :=
  {| msg_inboxId := msg_inboxId m;
     msg_profile_name := msg_profile_name m;
     msg_profile_image := Some v |}.

Definition ConversationProfileType_step (fuel : nat) (t : N) (r : bytes)
    (m : ConversationProfileMessage) : option (ConversationProfileMessage * bytes) :=
  match (t / 8)%N with
  | 1%N => '(v, r') ← reader_bytes r; Some (set_inboxId m v, r')
  | 2%N => '(v, r') ← reader_string r; Some (set_profile_name m v, r')
  | 3%N => '(v, r') ← reader_string r; Some (set_profile_image m v, r')
  | _ => r' ← reader_skipType fuel (t mod 8) r; Some (m, r')
  end.

(** A repeated message field: each element is written in a fork of the
    writer and delimited by its length. *)
Definition ConversationCustomMetadataType_encode (m : ConversationCustomMetadataMessage) : bytes :=
  field 1 2 writer_string (msg_md_tag m)
  ++ concat (map (fun p => writer_uint32 18 ++ writer_bytes (ConversationProfileType_encode p))
                 (msg_profiles m))
  ++ field 3 1 writer_sfixed64 (msg_md_expiresAtUnix m)
  ++ field 4 2 writer_bytes (msg_imageEncryptionKey m).

Definition set_md_tag (m : ConversationCustomMetadataMessage) (v : string) : ConversationCustomMetadataMessage :=
  {| msg_md_tag := Some v;
     msg_profiles := msg_profiles m;
     msg_md_expiresAtUnix := msg_md_expiresAtUnix m;
     msg_imageEncryptionKey := msg_imageEncryptionKey m |}.

(** [m.profiles.push(value)] *)
Definition push_profile (m : ConversationCustomMetadataMessage) (v : ConversationProfileMessage) : ConversationCustomMetadataMessage :=
  {| msg_md_tag := msg_md_tag m;
     msg_profiles := msg_profiles m ++ [v];
     msg_md_expiresAtUnix := msg_md_expiresAtUnix m;
     msg_imageEncryptionKey := msg_imageEncryptionKey m |}.

Definition set_md_expiresAtUnix (m : ConversationCustomMetadataMessage) (v : Long) : ConversationCustomMetadataMessage :=
  {| msg_md_tag := msg_md_tag m;
     msg_profiles := msg_profiles m;
     msg_md_expiresAtUnix := Some v;
     msg_imageEncryptionKey := msg_imageEncryptionKey m |}.

Definition set_imageEncryptionKey (m : ConversationCustomMetadataMessage) (v : bytes) : ConversationCustomMetadataMessage :=
  {| msg_md_tag := msg_md_tag m;
     msg_profiles := msg_profiles m;
     msg_md_expiresAtUnix := msg_md_expiresAtUnix m;
     msg_imageEncryptionKey := Some v |}.

Definition ConversationCustomMetadataType_step (fuel : nat) (t : N) (r : bytes)
    (m : ConversationCustomMetadataMessage)
    : option (ConversationCustomMetadataMessage * bytes) :=
  match (t / 8)%N with
  | 1%N => '(v, r') ← reader_string r; Some (set_md_tag m v, r')
  | 2%N => '(v, r') ← decode_nested ConversationProfileType_step
                         ConversationProfileMessage_empty fuel r; Some (push_profile m v, r')
  | 3%N => '(v, r') ← reader_sfixed64 r; Some (set_md_expiresAtUnix m v, r')
  | 4%N => '(v, r') ← reader_bytes r; Some (set_imageEncryptionKey m v, r')
  | _ => r' ← reader_skipType fuel (t mod 8) r; Some (m, r')
  end.

Definition ConversationCustomMetadataType_decode (bs : bytes)
    : option ConversationCustomMetadataMessage :=
  decode_message ConversationCustomMetadataType_step
                 ConversationCustomMetadataMessage_empty bs.

Definition encodeConversationMetadata (metadata : ConversationCustomMetadata) : bytes :=
  let profiles :=
    map (fun p => {| msg_inboxId := Some (cp_inboxId p);
                     msg_profile_name := cp_name p;
                     msg_profile_image := cp_image p |}) (md_profiles metadata) in
  ConversationCustomMetadataType_encode
    {| msg_md_tag := Some (md_tag metadata);
       msg_profiles := profiles;
       msg_md_expiresAtUnix := Long_of_truthy (md_expiresAtUnix metadata);
       msg_imageEncryptionKey := md_imageEncryptionKey metadata |}.

(** [message.expiresAtUnix] and [message.imageEncryptionKey] are objects
    (a [Long], a byte array) whether the field was on the wire or is the
    default of the prototype, so both conditionals take their first
    branch; [p.name] and [p.image] are copied as read. *)
Definition decodeConversationMetadata (bs : bytes) : option ConversationCustomMetadata :=
  message ← ConversationCustomMetadataType_decode bs;
  Some {| md_tag := default "" (msg_md_tag message);
          md_profiles :=
            map (fun p => {| cp_inboxId := default [] (msg_inboxId p);
                             cp_name := Some (default "" (msg_profile_name p));
                             cp_image := Some (default "" (msg_profile_image p)) |})
                (msg_profiles message);
          md_expiresAtUnix :=
            (let l := default Long_zero (msg_md_expiresAtUnix message) in
             if object_truthy l then Some (Long_toBigInt l) else None);
          md_imageEncryptionKey :=
            (let k := default [] (msg_imageEncryptionKey message) in
             if object_truthy k then Some k else None) |}.

(* --------------------------------------------------------------------- *)
(** ** crypto/hkdf.js, crypto/chacha20poly1305.js, crypto/secp256k1.js *)

Definition INVITE_SALT : bytes := utf8_encode "ConvosInviteV1".

Definition deriveInviteKey `{Platform} (privateKey : bytes) (inboxId : string) : bytes :=
  let info := utf8_encode ("inbox:" +:+ inboxId) in
  hkdf_sha256 privateKey INVITE_SALT info 32.

Definition NONCE_LENGTH : nat := 12.
Definition TAG_LENGTH : nat := 16.

(** [encrypt]; [nonce] is the value [randomBytes(NONCE_LENGTH)] returned. *)
Definition encrypt `{Platform} (nonce : bytes) (plaintext key aad : bytes) : option bytes :=
  ciphertext ← chacha_encrypt key nonce aad plaintext;
  Some (nonce ++ ciphertext).

Definition decrypt `{Platform} (combined key aad : bytes) : option bytes :=
  if length combined <? NONCE_LENGTH + TAG_LENGTH then None
  else
    let nonce := firstn NONCE_LENGTH combined in
    let ciphertext := skipn NONCE_LENGTH combined in
    chacha_decrypt key nonce aad ciphertext.

(** [signWithRecovery]: the compact signature is copied into a buffer of
    65 zero bytes and the recovery bit is stored at index 64. *)
Definition signWithRecovery `{Platform} (messageHash privateKey : bytes) : option bytes :=
  '(compactSig, recovery) ← secp_sign messageHash privateKey;
  recoveryId ← recovery;
  if 65 <? length compactSig then None
  else Some (<[64 := recoveryId]> (firstn 65 (compactSig ++ repeat x00 65))).

Definition recoverPublicKey `{Platform} (messageHash signature : bytes) : option bytes :=
  if negb (length signature =? 65) then None
  else
    let compactSig := firstn 64 signature in
    recoveryId ← signature !! 64;
    if (3 <? Byte.to_N recoveryId)%N then None
    else secp_recoverPublicKey messageHash compactSig recoveryId.

Definition getPublicKey `{Platform} (privateKey : bytes) : option bytes :=
  secp_getPublicKey privateKey.

Definition hashSha256 `{Platform} (data : bytes) : bytes := sha256 data.

(** The loop [result |= a[i] ^ b[i]]. *)
Fixpoint xor_accumulate (result : N) (a b : bytes) : N :=
  match a, b with
  | x :: a', y :: b' =>
      xor_accumulate (N.lor result (N.lxor (Byte.to_N x) (Byte.to_N y))) a' b'
  | _, _ => result
  end.

Definition constantTimeEqual (a b : bytes) : bool :=
  if negb (length a =? length b) then false
  else (xor_accumulate 0 a b =? 0)%N.

Definition normalizePublicKey `{Platform} (publicKey : bytes) : option bytes :=
  if length publicKey =? 65 then Some publicKey
  else if length publicKey =? 33 then secp_pointFromHex publicKey
  else None.

(* --------------------------------------------------------------------- *)
(** ** invite/conversation-token.ts *)

Definition FORMAT_VERSION : byte := x01.
Definition TYPE_UUID : byte := x01.
Definition TYPE_STRING : byte := x02.

Definition is_hex_char (c : ascii) : bool :=
  is_digit c || in_range "a" "f" c || in_range "A" "F" c.

(** [[0-9a-f]{n}] under the flag [i], at the head of [s]. *)
Fixpoint hex_run (n : nat) (s : string) : option string :=
  match n with
  | O => Some s
  | S k =>
      match s with
      | String c r => if is_hex_char c then hex_run k r else None
      | EmptyString => None
      end
  end.

Definition dash_then (k : string -> bool) (s : option string) : bool :=
  match s with
  | Some (String c r) => ascii_eqb c "-" && k r
  | _ => false
  end.

(** [UUID_PATTERN.test(s)] *)
Definition UUID_PATTERN_test (s : string) : bool :=
  dash_then (fun r1 =>
    dash_then (fun r2 =>
      dash_then (fun r3 =>
        dash_then (fun r4 =>
          match hex_run 12 r4 with
          | Some EmptyString => true
          | _ => false
          end) (hex_run 4 r3)) (hex_run 4 r2)) (hex_run 4 r1)) (hex_run 8 s).

(** [uuidToBytes], which is called on strings that match [UUID_PATTERN]. *)
Definition uuidToBytes (uuid : string) : bytes :=
  let hex := string_filter (fun c => negb (ascii_eqb c "-")) uuid in
  firstn 16 (hex_pairs hex ++ repeat x00 16).

Definition bytesToUuid (bs : bytes) : string :=
  let hex := bytesToHex bs in
  string_take 8 hex +:+ "-" +:+ string_take 4 (string_drop 8 hex) +:+ "-"
  +:+ string_take 4 (string_drop 12 hex) +:+ "-"
  +:+ string_take 4 (string_drop 16 hex) +:+ "-" +:+ string_drop 20 hex.

Definition packConversationId (conversationId : string) : bytes :=
  if UUID_PATTERN_test conversationId then
    TYPE_UUID :: uuidToBytes conversationId
  else
    let stringBytes := utf8_encode conversationId in
    let len := N.of_nat (length stringBytes) in
    if length stringBytes <=? 255 then
      TYPE_STRING :: byte_of_N len :: stringBytes
    else
      TYPE_STRING :: x00 :: byte_of_N (N.land (N.shiftr len 8) 255)
        :: byte_of_N (N.land len 255) :: stringBytes.

Definition unpackConversationId (data : bytes) : option string :=
  match data with
  | [] => None
  | type :: rest =>
      if byte_eqb type TYPE_UUID then
        if negb (length data =? 17) then None else Some (bytesToUuid rest)
      else if byte_eqb type TYPE_STRING then
        match rest with
        | [] => None
        | d1 :: _ =>
            '(len, offset) ←
              (if byte_eqb d1 x00 then
                 match data with
                 | _ :: _ :: d2 :: d3 :: _ =>
                     Some (N.to_nat (N.lor (N.shiftl (Byte.to_N d2) 8) (Byte.to_N d3)), 4)
                 | _ => None
                 end
               else Some (N.to_nat (Byte.to_N d1), 2));
            if negb (length data =? offset + len) then None
            else Some (TextDecoder_decode (firstn len (skipn offset data)))
        end
      else None
  end.

Definition encryptConversationToken `{Platform} (nonce : bytes)
    (conversationId creatorInboxId : string) (privateKey : bytes) : option bytes :=
  let key := deriveInviteKey privateKey creatorInboxId in
  let aad := utf8_encode creatorInboxId in
  let plaintext := packConversationId conversationId in
  encrypted ← encrypt nonce plaintext key aad;
  Some (FORMAT_VERSION :: encrypted).

Definition decryptConversationToken `{Platform} (tokenBytes : bytes)
    (creatorInboxId : string) (privateKey : bytes) : option string :=
  match tokenBytes with
  | [] => None
  | version :: encrypted =>
      if negb (byte_eqb version FORMAT_VERSION) then None
      else
        let key := deriveInviteKey privateKey creatorInboxId in
        let aad := utf8_encode creatorInboxId in
        plaintext ← decrypt encrypted key aad;
        unpackConversationId plaintext
  end.

(* --------------------------------------------------------------------- *)
(** ** invite/signed-invite.ts *)

(** A [Date] is its time value, in milliseconds since the epoch. *)
Record CreateInviteOptions := {
  o_conversationId : string;
  o_inviteTag : string;
  o_creatorInboxId : string;
  o_privateKey : bytes;
  o_name : option string;
  o_description : option string;
  o_imageURL : option string;
  o_expiresAt : option Z;
  o_conversationExpiresAt : option Z;
  o_expiresAfterUse : option bool
}.

Record ParsedInvite := {
  pi_signedInvite : SignedInvite;
  pi_payload : InvitePayload;
  pi_creatorInboxId : string;
  pi_isExpired : bool;
  pi_isConversationExpired : bool
}.

(** [d ? BigInt(Math.floor(d.getTime() / 1000)) : undefined]: a [Date] is
    an object, hence truthy. *)
Definition unix_seconds (d : option Z) : option Z :=
  match d with
  | Some ms => if object_truthy ms then Some (ms / 1000)%Z else None
  | None => None
  end.

Definition invitePayload_of `{Platform} (nonce : bytes) (options : CreateInviteOptions)
    : option InvitePayload :=
  conversationToken ← encryptConversationToken nonce (o_conversationId options)
                        (o_creatorInboxId options) (o_privateKey options);
  creatorInboxId ← hexToBytes (o_creatorInboxId options);
  Some {| ip_conversationToken := conversationToken;
          ip_creatorInboxId := creatorInboxId;
          ip_tag := o_inviteTag options;
          ip_name := o_name options;
          ip_description := o_description options;
          ip_imageURL := o_imageURL options;
          ip_expiresAfterUse := default false (o_expiresAfterUse options);
          ip_expiresAtUnix := unix_seconds (o_expiresAt options);
          ip_conversationExpiresAtUnix := unix_seconds (o_conversationExpiresAt options) |}.

(** The bytes [createInviteSlug] hands to [encodeToSlug]. *)
Definition signedInviteBytes `{Platform} (nonce : bytes) (options : CreateInviteOptions)
    : option bytes :=
  payload ← invitePayload_of nonce options;
  let payloadBytes := encodeInvitePayload payload in
  let messageHash := hashSha256 payloadBytes in
  signature ← signWithRecovery messageHash (o_privateKey options);
  Some (encodeSignedInvite {| si_payload := payloadBytes; si_signature := signature |}).

(** [createInviteSlug]; [nonce] is the random nonce drawn by [encrypt]. *)
Definition createInviteSlug `{Platform} (nonce : bytes) (options : CreateInviteOptions)
    : option string :=
  signedInviteBytes ← signedInviteBytes nonce options;
  Some (encodeToSlug signedInviteBytes).

(** [parseInviteSlug]; [now_ms] is [Date.now()]. *)
Definition parseInviteSlug `{Platform} (now_ms : Z) (slugOrUrl : string) : option ParsedInvite :=
  let slug := parseInviteCode slugOrUrl in
  bs ← decodeFromSlug slug;
  signedInvite ← decodeSignedInvite bs;
  payload ← decodeInvitePayload (si_payload signedInvite);
  let now := (now_ms / 1000)%Z in
  let isExpired :=
    match ip_expiresAtUnix payload with
    | Some t => (t <? now)%Z
    | None => false
    end in
  let isConversationExpired :=
    match ip_conversationExpiresAtUnix payload with
    | Some t => (t <? now)%Z
    | None => false
    end in
  Some {| pi_signedInvite := signedInvite;
          pi_payload := payload;
          pi_creatorInboxId := bytesToHex (ip_creatorInboxId payload);
          pi_isExpired := isExpired;
          pi_isConversationExpired := isConversationExpired |}.

(** The body of the [try] block of [verifyInvite]. *)
Definition verifyInvite_try `{Platform} (signedInvite : SignedInvite)
    (expectedPublicKey : bytes) : option bool :=
  let messageHash := hashSha256 (si_payload signedInvite) in
  recoveredPublicKey ← recoverPublicKey messageHash (si_signature signedInvite);
  normalizedRecovered ← normalizePublicKey recoveredPublicKey;
  normalizedExpected ← normalizePublicKey expectedPublicKey;
  Some (constantTimeEqual normalizedRecovered normalizedExpected).

(** [try { ... } catch { return false }] *)
Definition verifyInvite `{Platform} (signedInvite : SignedInvite)
    (expectedPublicKey : bytes) : bool :=
  match verifyInvite_try signedInvite expectedPublicKey with
  | Some result => result
  | None => false
  end.

(** The public key is derived outside any [try]. *)
Definition verifyInviteWithPrivateKey `{Platform} (signedInvite : SignedInvite)
    (privateKey : bytes) : option bool :=
  publicKey ← getPublicKey privateKey;
  Some (verifyInvite signedInvite publicKey).

Definition decryptInviteConversationId `{Platform} (parsedInvite : ParsedInvite)
    (privateKey : bytes) : option string :=
  decryptConversationToken (ip_conversationToken (pi_payload parsedInvite))
    (pi_creatorInboxId parsedInvite) privateKey.

(* --------------------------------------------------------------------- *)
(** ** content-types/invite-join-error.js *)

Inductive InviteJoinErrorType := ConversationExpired | GenericFailure | Unknown.

Definition InviteJoinErrorType_value (t : InviteJoinErrorType) : string :=
  match t with
  | ConversationExpired => "conversationExpired"
  | GenericFailure => "genericFailure"
  | Unknown => "unknown"
  end.

Record InviteJoinError := {
  errorType : InviteJoinErrorType;
  inviteTag : string;
  timestamp : Z
}.

(** [JSON.stringify] of the three properties, then [TextEncoder.encode]. *)
Definition encodeInviteJoinError `{Platform} (error : InviteJoinError) : bytes :=
  let json :=
    "{" +:+ JSON_quote "errorType" +:+ ":"
        +:+ JSON_quote (InviteJoinErrorType_value (errorType error))
    +:+ "," +:+ JSON_quote "inviteTag" +:+ ":" +:+ JSON_quote (inviteTag error)
    +:+ "," +:+ JSON_quote "timestamp" +:+ ":"
        +:+ JSON_quote (Date_toISOString (timestamp error)) +:+ "}" in
  utf8_encode json.

(** [new Date()] is the argument [now_ms]. *)
Definition createConversationExpiredError (now_ms : Z) (tag : string) : InviteJoinError :=
  {| errorType := ConversationExpired; inviteTag := tag; timestamp := now_ms |}.

Definition createGenericFailureError (now_ms : Z) (tag : string) : InviteJoinError :=
  {| errorType := GenericFailure; inviteTag := tag; timestamp := now_ms |}.

Definition getErrorMessage (error : InviteJoinError) : string :=
  match errorType error with
  | ConversationExpired => "This conversation is no longer available"
  | _ => "Failed to join conversation"
  end.

(* --------------------------------------------------------------------- *)
(** ** middleware/convos-middleware.ts *)

(** The messaging substrate as the middleware meets it.  An asynchronous
    call either resolves or rejects: [agent_refreshConsentList],
    [agent_block] and [agent_addMembers] say whether the call resolves;
    [agent_getConversationById id] is [None] when the call rejects,
    [Some None] when it resolves to [null], and [Some (Some c)] when it
    resolves to the conversation with id [c]. *)
Record XMTPAgent := {
  agent_inboxId : string;
  agent_getConversationById : string -> option (option string);
  agent_refreshConsentList : bool;
  agent_block : list string -> bool;
  agent_addMembers : string -> list string -> bool
}.

Inductive MessageContent :=
| ContentString (s : string)
| ContentWithText (text : string)
| ContentOther.

(** [ctx_send content] says whether [ctx.conversation.send(content)]
    resolves. *)
Record XMTPMessageContext := {
  ctx_content : MessageContent;
  ctx_senderInboxId : string;
  ctx_send : bytes -> bool
}.

(** What a run of the middleware does to the outside, in order. *)
Inductive Event :=
| RefreshConsentList
| Block (inboxIds : list string)
| Send (content : bytes)
| AddMembers (conversationId : string) (inboxIds : list string)
| ConsoleError
| Next.

Record InviteContext := {
  joinerInboxId : string;
  ic_conversationId : string;
  ic_inviteTag : string;
  invite : ParsedInvite
}.

(** What a handler does with its context: it may call [accept] and
    [reject], and it may throw.  A rejected [accept] is not caught by the
    handler.  A handler is taken not to register or unregister handlers
    while an event is dispatched, so that the loop of [handleMessage]
    runs over the handlers registered when it starts. *)
Inductive HandlerAction :=
| Accept
| Reject (error : option InviteJoinError)
| Throw.

Definition InviteHandler := InviteContext -> list HandlerAction.

(** An invite event: the handler with index [handler_index] runs on
    [handler_context]. *)
Inductive Trace :=
| Outside (e : Event)
| InviteEvent (handler_index : nat) (handler_context : InviteContext).

(** The options object of the constructors.  [env] is a property the
    compiled constructor reads; the interface of the TypeScript source
    does not declare it and its constructor does not read it. *)
Record ConvosMiddlewareOptions := {
  opt_privateKey : option (bytes + string);
  opt_inviteBaseURL : option string;
  opt_env : option string
}.

Record ConvosMiddleware := {
  mw_agent : XMTPAgent;
  mw_inboxId : string;
  mw_privateKey : bytes;
  mw_inviteBaseURL : string;
  mw_inviteHandlers : list InviteHandler
}.

(** [key.replace(/^0x/, "")] *)
Definition strip_0x (key : string) : string :=
  match key with
  | String "0" (String "x" r) => r
  | _ => key
  end.

Definition normalizePrivateKey (key : bytes + string) : option bytes :=
  match key with
  | inl b => Some b
  | inr s => hexToBytes (strip_0x s)
  end.

Definition privateKey_truthy (k : option (bytes + string)) : option (bytes + string) :=
  match k with
  | Some (inr EmptyString) => None
  | _ => k
  end.

(** The private key of the constructors: from the options, else from
    [process.env.XMTP_WALLET_KEY || process.env.WALLET_KEY], given as
    [envKey]. *)
Definition constructor_privateKey (options : ConvosMiddlewareOptions)
    (envKey : option string) : option bytes :=
  match privateKey_truthy (opt_privateKey options) with
  | Some k => normalizePrivateKey k
  | None =>
      match truthy_param envKey with
      | Some e => normalizePrivateKey (inr e)
      | None => None
      end
  end.

(** The constructor of src/middleware/convos-middleware.ts. *)
Definition ConvosMiddleware_create (agent : XMTPAgent) (options : ConvosMiddlewareOptions)
    (envKey : option string) : option ConvosMiddleware :=
  privateKey ← constructor_privateKey options envKey;
  Some {| mw_agent := agent;
          mw_inboxId := agent_inboxId agent;
          mw_privateKey := privateKey;
          mw_inviteBaseURL := default "https://popup.convos.org/v2" (opt_inviteBaseURL options);
          mw_inviteHandlers := [] |}.

(** The constructor of dist/middleware/convos-middleware.js. *)
Definition ConvosMiddleware_create_dist (agent : XMTPAgent) (options : ConvosMiddlewareOptions)
    (envKey : option string) : option ConvosMiddleware :=
  privateKey ← constructor_privateKey options envKey;
  Some {| mw_agent := agent;
          mw_inboxId := agent_inboxId agent;
          mw_privateKey := privateKey;
          mw_inviteBaseURL :=
            default (getInviteBaseURL (opt_env options)) (opt_inviteBaseURL options);
          mw_inviteHandlers := [] |}.

(** [on("invite", handler)] *)
Definition on_invite (mw : ConvosMiddleware) (handler : InviteHandler) : ConvosMiddleware :=
  {| mw_agent := mw_agent mw; mw_inboxId := mw_inboxId mw;
     mw_privateKey := mw_privateKey mw; mw_inviteBaseURL := mw_inviteBaseURL mw;
     mw_inviteHandlers := mw_inviteHandlers mw ++ [handler] |}.

Record ConvosGroupInviteOptions := {
  go_name : option string;
  go_description : option string;
  go_imageURL : option string;
  go_conversationExpiresAt : option Z;
  go_expiresAt : option Z;
  go_expiresAfterUse : option bool
}.

Record InviteResult := {
  slug : string;
  url : string;
  qrData : string
}.

Definition createInviteInternal `{Platform} (mw : ConvosMiddleware) (nonce : bytes)
    (conversationId tag : string) (options : option ConvosGroupInviteOptions)
    : option InviteResult :=
  slug ← createInviteSlug nonce
    {| o_conversationId := conversationId;
       o_inviteTag := tag;
       o_creatorInboxId := mw_inboxId mw;
       o_privateKey := mw_privateKey mw;
       o_name := options ≫= go_name;
       o_description := options ≫= go_description;
       o_imageURL := options ≫= go_imageURL;
       o_conversationExpiresAt := options ≫= go_conversationExpiresAt;
       o_expiresAt := options ≫= go_expiresAt;
       o_expiresAfterUse := options ≫= go_expiresAfterUse |};
  let url := generateInviteURL slug (Some (mw_inviteBaseURL mw)) in
  Some {| slug := slug; url := url; qrData := url |}.

Definition encodeMetadata `{Platform} (metadata : ConversationCustomMetadata) : string :=
  let bs := encodeConversationMetadata metadata in
  let compressed := compressIfSmaller bs in
  base64UrlEncode compressed.

Definition decodeMetadata `{Platform} (encoded : string) : option ConversationCustomMetadata :=
  let compressed := base64UrlDecode encoded in
  bs ← decompress compressed;
  decodeConversationMetadata bs.

Definition getInviteTag `{Platform} (encodedMetadata : string) : option string :=
  metadata ← decodeMetadata encodedMetadata;
  Some (md_tag metadata).

(** [createInitialMetadata]; [freshTag] is what [generateInviteTag()]
    returned. *)
Definition createInitialMetadata `{Platform} (freshTag : string) (expiresAt : option Z)
    : ConversationCustomMetadata * string :=
  let metadata :=
    {| md_tag := freshTag; md_profiles := [];
       md_expiresAtUnix := unix_seconds expiresAt;
       md_imageEncryptionKey := None |} in
  (metadata, encodeMetadata metadata).

Definition extractText (content : MessageContent) : option string :=
  match content with
  | ContentString s => Some s
  | ContentWithText text => Some text
  | ContentOther => None
  end.

(** The matcher [/^[A-Za-z0-9_\-*]+$/]. *)
Definition slug_char (c : ascii) : bool :=
  is_alnum c || ascii_eqb c "_" || ascii_eqb c "-" || ascii_eqb c "*".

Definition base64UrlPattern_test (s : string) : bool :=
  nonempty s && string_forallb slug_char s.

Definition looksLikeInviteSlug (text : string) : bool :=
  let trimmed := trim text in
  if js_length trimmed <? 50 then false
  else base64UrlPattern_test trimmed.

(** [blockSender]: a rejection of either call is swallowed. *)
Definition blockSender (agent : XMTPAgent) (inboxId : string) : list Trace :=
  if agent_refreshConsentList agent
  then [Outside RefreshConsentList; Outside (Block [inboxId])]
  else [Outside RefreshConsentList].

(** [sendError]: a rejection of [send] is swallowed. *)
Definition sendError `{Platform} (ctx : XMTPMessageContext) (error : InviteJoinError)
    : list Trace :=
  [Outside (Send (encodeInviteJoinError error))].

(** One handler run: the trace it leaves and whether it threw. *)
Fixpoint run_actions `{Platform} (agent : XMTPAgent) (ctx : XMTPMessageContext)
    (err_ms : Z) (ic : InviteContext) (conversation : string)
    (actions : list HandlerAction) : list Trace * bool :=
  match actions with
  | [] => ([], false)
  | Accept :: rest =>
      let ev := Outside (AddMembers conversation [joinerInboxId ic]) in
      if agent_addMembers agent conversation [joinerInboxId ic]
      then let '(t, threw) := run_actions agent ctx err_ms ic conversation rest in
           (ev :: t, threw)
      else ([ev], true)
  | Reject error :: rest =>
      let errorToSend := default (createGenericFailureError err_ms (ic_inviteTag ic)) error in
      let '(t, threw) := run_actions agent ctx err_ms ic conversation rest in
      (sendError ctx errorToSend ++ t, threw)
  | Throw :: _ => ([], true)
  end.

(** [for (const handler of this.inviteHandlers)] *)
Fixpoint emit `{Platform} (agent : XMTPAgent) (ctx : XMTPMessageContext) (err_ms : Z)
    (ic : InviteContext) (conversation : string) (index : nat)
    (handlers : list InviteHandler) : list Trace :=
  match handlers with
  | [] => []
  | handler :: rest =>
      let '(t, threw) := run_actions agent ctx err_ms ic conversation (handler ic) in
      InviteEvent index ic :: t
      ++ (if threw
          then Outside ConsoleError
               :: sendError ctx (createGenericFailureError err_ms (ic_inviteTag ic))
          else [])
      ++ emit agent ctx err_ms ic conversation (S index) rest
  end.

(** [handleMessage]: the trace, and [Some handled] unless an exception
    leaves the method.  [now_ms] is [Date.now()] as [parseInviteSlug]
    reads it and [err_ms] the time of the [new Date()] of an error. *)
Definition handleMessage `{Platform} (mw : ConvosMiddleware) (now_ms err_ms : Z)
    (ctx : XMTPMessageContext) : list Trace * option bool :=
  match truthy_param (extractText (ctx_content ctx)) with
  | None => ([], Some false)
  | Some messageText =>
      let senderInboxId := ctx_senderInboxId ctx in
      if decide (senderInboxId = mw_inboxId mw) then ([], Some false)
      else
        match parseInviteSlug now_ms messageText with
        | None =>
            if looksLikeInviteSlug messageText
            then (blockSender (mw_agent mw) senderInboxId, Some true)
            else ([], Some false)
        | Some parsedInvite =>
            if negb (bool_decide (pi_creatorInboxId parsedInvite = mw_inboxId mw))
            then (blockSender (mw_agent mw) senderInboxId, Some true)
            else
              match verifyInviteWithPrivateKey (pi_signedInvite parsedInvite)
                      (mw_privateKey mw) with
              | None => ([], None)
              | Some false => (blockSender (mw_agent mw) senderInboxId, Some true)
              | Some true =>
                  let tag := ip_tag (pi_payload parsedInvite) in
                  if pi_isExpired parsedInvite || pi_isConversationExpired parsedInvite
                  then (sendError ctx (createConversationExpiredError err_ms tag), Some true)
                  else
                    match decryptInviteConversationId parsedInvite (mw_privateKey mw) with
                    | None => (blockSender (mw_agent mw) senderInboxId, Some true)
                    | Some conversationId =>
                        match agent_getConversationById (mw_agent mw) conversationId with
                        | None => ([], None)
                        | Some None =>
                            (sendError ctx (createConversationExpiredError err_ms tag),
                             Some true)
                        | Some (Some conversation) =>
                            let inviteContext :=
                              {| joinerInboxId := senderInboxId;
                                 ic_conversationId := conversationId;
                                 ic_inviteTag := tag;
                                 invite := parsedInvite |} in
                            (emit (mw_agent mw) ctx err_ms inviteContext conversation 0
                                  (mw_inviteHandlers mw), Some true)
                        end
                    end
              end
        end
  end.

(** [middleware()]: the next handler of the chain runs when the message
    was not handled. *)
Definition middleware `{Platform} (mw : ConvosMiddleware) (now_ms err_ms : Z)
    (ctx : XMTPMessageContext) : list Trace :=
  match handleMessage mw now_ms err_ms ctx with
  | (t, Some false) => t ++ [Outside Next]
  | (t, _) => t
  end.

(* --------------------------------------------------------------------- *)
(** ** middleware/join-request-handler.ts *)

Inductive JoinRequestResult := Success | BlockSender | SendError | NotJoinRequest.

Record JoinRequestOutcome := {
  result : JoinRequestResult;
  out_conversationId : option string;
  out_inviteTag : option string;
  out_error : option InviteJoinError;
  out_errorMessage : option string
}.

(** The callbacks: [jr_onJoinRequest] resolves to a boolean ([inl]) or
    rejects with a message ([inr]); [jr_onJoinError] says whether the
    callback is given, and a callback that is given is taken to return;
    [jr_conversationExists] resolves to a boolean or rejects. *)
Record JoinRequestHandler := {
  jr_inboxId : string;
  jr_privateKey : bytes;
  jr_onJoinRequest : option (string -> string -> string -> bool + string);
  jr_onJoinError : bool;
  jr_conversationExists : option (string -> option bool)
}.

(** [this.onJoinError?.(senderInboxId, error)] *)
Definition call_onJoinError (h : JoinRequestHandler) (senderInboxId : string)
    (error : InviteJoinError) : list (string * InviteJoinError) :=
  if jr_onJoinError h then [(senderInboxId, error)] else [].

Definition outcome (r : JoinRequestResult) (conversationId tag : option string)
    (error : option InviteJoinError) (errorMessage : option string) : JoinRequestOutcome :=
  {| result := r; out_conversationId := conversationId; out_inviteTag := tag;
     out_error := error; out_errorMessage := errorMessage |}.

(** [processMessage]: the calls of [onJoinError] it makes, and its
    outcome unless an exception leaves the method. *)
Definition processMessage `{Platform} (h : JoinRequestHandler) (now_ms err_ms : Z)
    (messageText senderInboxId : string)
    : list (string * InviteJoinError) * option JoinRequestOutcome :=
  if decide (senderInboxId = jr_inboxId h)
  then ([], Some (outcome NotJoinRequest None None None None))
  else
    match parseInviteSlug now_ms messageText with
    | None =>
        if looksLikeInviteSlug messageText
        then ([], Some (outcome BlockSender None None None (Some "Invalid invite format")))
        else ([], Some (outcome NotJoinRequest None None None None))
    | Some parsedInvite =>
        let tag := ip_tag (pi_payload parsedInvite) in
        if negb (bool_decide (pi_creatorInboxId parsedInvite = jr_inboxId h))
        then ([], Some (outcome BlockSender None (Some tag) None
                          (Some "Invite not created by this inbox")))
        else
          match verifyInviteWithPrivateKey (pi_signedInvite parsedInvite) (jr_privateKey h) with
          | None => ([], None)
          | Some false =>
              ([], Some (outcome BlockSender None (Some tag) None (Some "Invalid signature")))
          | Some true =>
              if pi_isExpired parsedInvite then
                let error := createConversationExpiredError err_ms tag in
                (call_onJoinError h senderInboxId error,
                 Some (outcome SendError None (Some tag) (Some error) (Some "Invite expired")))
              else if pi_isConversationExpired parsedInvite then
                let error := createConversationExpiredError err_ms tag in
                (call_onJoinError h senderInboxId error,
                 Some (outcome SendError None (Some tag) (Some error)
                         (Some "Conversation expired")))
              else
                match decryptInviteConversationId parsedInvite (jr_privateKey h) with
                | None =>
                    ([], Some (outcome BlockSender None (Some tag) None
                                 (Some "Failed to decrypt conversation ID")))
                | Some conversationId =>
                    let missing :=
                      match jr_conversationExists h with
                      | Some exists_ => option_map negb (exists_ conversationId)
                      | None => Some false
                      end in
                    match missing with
                    | None => ([], None)
                    | Some true =>
                        let error := createConversationExpiredError err_ms tag in
                        (call_onJoinError h senderInboxId error,
                         Some (outcome SendError (Some conversationId) (Some tag)
                                 (Some error) (Some "Conversation not found")))
                    | Some false =>
                        match jr_onJoinRequest h with
                        | None =>
                            ([], Some (outcome Success (Some conversationId) (Some tag)
                                         None None))
                        | Some onJoinRequest =>
                            match onJoinRequest senderInboxId conversationId tag with
                            | inl true =>
                                ([], Some (outcome Success (Some conversationId) (Some tag)
                                             None None))
                            | inl false =>
                                let error := createGenericFailureError err_ms tag in
                                (call_onJoinError h senderInboxId error,
                                 Some (outcome SendError (Some conversationId) (Some tag)
                                         (Some error)
                                         (Some "Failed to add member to conversation")))
                            | inr message =>
                                let error := createGenericFailureError err_ms tag in
                                (call_onJoinError h senderInboxId error,
                                 Some (outcome SendError (Some conversationId) (Some tag)
                                         (Some error) (Some message)))
                            end
                        end
                    end
                end
          end
    end.

(* --------------------------------------------------------------------- *)
(** ** middleware/convos-group.ts *)

Record SetConversationProfileOptions := {
  sp_name : option string;
  sp_image : option string
}.

(** The wrapped group: its [appData], and whether [updateAppData]
    resolves. *)
Record XMTPGroupWithAppData := {
  group_id : string;
  appData : string;
  updateAppData_ok : string -> bool
}.

Definition updateAppData (g : XMTPGroupWithAppData) (encoded : string)
    : option XMTPGroupWithAppData :=
  if updateAppData_ok g encoded
  then Some {| group_id := group_id g; appData := encoded;
               updateAppData_ok := updateAppData_ok g |}
  else None.

(** [array.findIndex(p)]; [None] is -1. *)
Fixpoint findIndex {A : Type} (p : A -> bool) (l : list A) : option nat :=
  match l with
  | [] => None
  | x :: r => if p x then Some 0 else option_map S (findIndex p r)
  end.

(** The metadata [setConversationProfile] starts from: the decoded
    [appData], or fresh metadata when there is none or it does not
    decode. *)
Definition currentMetadata `{Platform} (g : XMTPGroupWithAppData) (freshTag : string)
    : ConversationCustomMetadata :=
  if nonempty (appData g) then
    match decodeMetadata (appData g) with
    | Some metadata => metadata
    | None => fst (createInitialMetadata freshTag None)
    end
  else fst (createInitialMetadata freshTag None).

(** The update of [metadata.profiles] in [setConversationProfile]. *)
Definition upsertProfile (profiles : list ConversationProfile) (inboxIdHex : string)
    (inboxIdBytes : bytes) (options : SetConversationProfileOptions)
    : list ConversationProfile :=
  let existingIndex :=
    findIndex (fun p => bool_decide (bytesToHex (cp_inboxId p) = inboxIdHex)) profiles in
  let profile :=
    {| cp_inboxId := inboxIdBytes; cp_name := sp_name options;
       cp_image := sp_image options |} in
  match existingIndex with
  | Some i => <[i := profile]> profiles
  | None => profiles ++ [profile]
  end.

(** The metadata [setConversationProfile] encodes and saves. *)
Definition profileMetadata `{Platform} (mw : ConvosMiddleware) (g : XMTPGroupWithAppData)
    (freshTag : string) (options : SetConversationProfileOptions)
    : option ConversationCustomMetadata :=
  let inboxIdHex := mw_inboxId mw in
  inboxIdBytes ← hexToBytes inboxIdHex;
  let metadata := currentMetadata g freshTag in
  Some {| md_tag := md_tag metadata;
          md_profiles := upsertProfile (md_profiles metadata) inboxIdHex inboxIdBytes options;
          md_expiresAtUnix := md_expiresAtUnix metadata;
          md_imageEncryptionKey := md_imageEncryptionKey metadata |}.

Definition setConversationProfile `{Platform} (mw : ConvosMiddleware)
    (g : XMTPGroupWithAppData) (freshTag : string)
    (options : SetConversationProfileOptions) : option XMTPGroupWithAppData :=
  metadata ← profileMetadata mw g freshTag options;
  updateAppData g (encodeMetadata metadata).

Definition initializeMetadata `{Platform} (g : XMTPGroupWithAppData) (freshTag : string)
    : option (XMTPGroupWithAppData * string) :=
  let '(metadata, encodedMetadata) := createInitialMetadata freshTag None in
  g' ← updateAppData g encodedMetadata;
  Some (g', md_tag metadata).

(** [createInvite] of the group.  [freshTag] is what [generateInviteTag()]
    returns when [initializeMetadata] runs, and [retryTag] what it returns
    when [initializeMetadata] runs a second time: for metadata with an
    empty tag the first run is inside the [try], so when it rejects the
    [catch] block runs it again. *)
Definition group_createInvite `{Platform} (mw : ConvosMiddleware)
    (g : XMTPGroupWithAppData) (freshTag retryTag : string) (nonce : bytes)
    (options : option ConvosGroupInviteOptions)
    : option (XMTPGroupWithAppData * InviteResult) :=
  '(g', tag) ←
    (if nonempty (appData g) then
       match decodeMetadata (appData g) with
       | Some metadata =>
           if nonempty (md_tag metadata) then Some (g, md_tag metadata)
           else match initializeMetadata g freshTag with
                | Some initialized => Some initialized
                | None => initializeMetadata g retryTag
                end
       | None => initializeMetadata g freshTag
       end
     else initializeMetadata g freshTag);
  r ← createInviteInternal mw nonce (group_id g') tag options;
  Some (g', r).

(* --------------------------------------------------------------------- *)
(** ** A reference platform

    An executable stand-in for the libraries: it satisfies
    [PlatformLaws] and lets the definitions above run on concrete inputs.
    It is a test double, not an implementation of the algorithms: the
    compressor is a run-length coder, and the cryptography keeps the
    formats and the round trips of the real functions without their
    security. *)

Module Reference.

Fixpoint rle (l : bytes) : bytes :=
  match l with
  | [] => []
  | b :: r =>
      match rle r with
      | n :: b' :: t =>
          if byte_eqb b b' && (Byte.to_N n <? 255)%N
          then byte_of_N (Byte.to_N n + 1) :: b' :: t
          else x01 :: b :: n :: b' :: t
      | _ => [x01; b]
      end
  end.

Fixpoint unrle (l : bytes) : option bytes :=
  match l with
  | [] => Some []
  | n :: b :: t =>
      match unrle t with
      | Some r => Some (repeat b (N.to_nat (Byte.to_N n)) ++ r)
      | None => None
      end
  | _ => None
  end.

Definition deflate (x : bytes) : option bytes :=
  match x with
  | [] => Some zlib_empty_stream
  | _ => Some (x78 :: xda :: rle x)
  end.

Definition inflate (c : bytes) : option bytes :=
  if decide (c = zlib_empty_stream) then Some []
  else match c with
       | x78 :: xda :: r => unrle r
       | _ => None
       end.

Fixpoint le_bytes (n : nat) (v : N) : bytes :=
  match n with
  | O => []
  | S k => byte_of_N v :: le_bytes k (v / 256)
  end.

Definition digest (x : bytes) : bytes :=
  le_bytes 32
    (fold_left (fun a b => (a * 257 + Byte.to_N b + 1) mod (2 ^ 255 - 19))%N x 7%N).

Definition valid_key (k : bytes) : bool :=
  (length k =? 32) && existsb (fun b => negb (byte_eqb b x00)) k.

Definition public_key (k : bytes) : option bytes :=
  if valid_key k then Some (x04 :: k ++ k) else None.

Definition sign (h k : bytes) : option (bytes * option byte) :=
  if valid_key k then Some (k ++ digest h, Some x00) else None.

Definition recover (h c : bytes) (v : byte) : option bytes :=
  if bool_decide (skipn 32 c = digest h) && valid_key (firstn 32 c)
  then Some (x04 :: firstn 32 c ++ firstn 32 c)
  else None.

Definition hkdf (ikm salt info : bytes) (L : nat) : bytes :=
  firstn L (digest (ikm ++ x00 :: salt ++ x00 :: info) ++ repeat x00 L).

Definition seal_tag (k n aad pt : bytes) : bytes :=
  firstn 16 (digest (k ++ n ++ byte_of_N (N.of_nat (length aad)) :: aad ++ pt)).

Definition seal (k n aad pt : bytes) : option bytes :=
  if (length k =? 32) && (length n =? 12) then Some (pt ++ seal_tag k n aad pt) else None.

Definition open (k n aad ct : bytes) : option bytes :=
  if (length k =? 32) && (length n =? 12) && (16 <=? length ct) then
    let pt := firstn (length ct - 16) ct in
    if bool_decide (skipn (length ct - 16) ct = seal_tag k n aad pt) then Some pt else None
  else None.

(** A scheme: a letter, then letters, digits, [+], [-] and [.], up to a
    colon.  The result is what follows the colon. *)
Fixpoint after_scheme (first : bool) (s : string) : option string :=
  match s with
  | EmptyString => None
  | String c r =>
      if first then
        if is_upper c || is_lower c then after_scheme false r else None
      else if ascii_eqb c ":" then Some r
      else if is_alnum c || ascii_eqb c "+" || ascii_eqb c "-" || ascii_eqb c "."
      then after_scheme false r
      else None
  end.

Fixpoint until_char (stop : ascii -> bool) (s : string) : string * string :=
  match s with
  | EmptyString => (EmptyString, EmptyString)
  | String c r =>
      if stop c then (EmptyString, s)
      else let '(a, b) := until_char stop r in (String c a, b)
  end.

Definition key_value (s : string) : string * string :=
  let '(k, v) := until_char (fun c => ascii_eqb c "=") s in
  (k, string_drop 1 v).

Definition parse_url (s : string) : option URL :=
  match after_scheme true s with
  | None => None
  | Some rest =>
      let '(body, _) := until_char (fun c => ascii_eqb c "#") rest in
      let '(hier, query) := until_char (fun c => ascii_eqb c "?") body in
      let path :=
        match hier with
        | String "/" (String "/" r) =>
            snd (until_char (fun c => ascii_eqb c "/") r)
        | _ => hier
        end in
      Some {| url_searchParams :=
                map key_value
                    (filter (fun p => nonempty p = true)
                            (split_on "&" (string_drop 1 query) EmptyString));
              url_pathname := path |}
  end.

Definition quote : ascii := "034".
Definition backslash : ascii := "092".

Fixpoint escape (s : string) : string :=
  match s with
  | EmptyString => EmptyString
  | String c r =>
      if ascii_eqb c quote || ascii_eqb c backslash
      then String backslash (String c (escape r))
      else String c (escape r)
  end.

Definition json_quote (s : string) : string :=
  String quote (escape s) +:+ String quote EmptyString.

Fixpoint digits (n : nat) (v : Z) : string :=
  match n with
  | O => EmptyString
  | S k => digits k (v / 10) +:+ String (ascii_of_N (48 + Z.to_N (v mod 10))) EmptyString
  end.

(** The civil date of a day number, then [YYYY-MM-DDTHH:mm:ss.sssZ]. *)
Definition iso_string (ms : Z) : string :=
  let days := (ms / 86400000)%Z in
  let rest := (ms mod 86400000)%Z in
  let z := (days + 719468)%Z in
  let era := (z / 146097)%Z in
  let doe := (z - era * 146097)%Z in
  let yoe := ((doe - doe / 1460 + doe / 36524 - doe / 146096) / 365)%Z in
  let doy := (doe - (365 * yoe + yoe / 4 - yoe / 100))%Z in
  let mp := ((5 * doy + 2) / 153)%Z in
  let d := (doy - (153 * mp + 2) / 5 + 1)%Z in
  let m := (if (mp <? 10)%Z then mp + 3 else mp - 9)%Z in
  let y := (yoe + era * 400 + (if (m <=? 2)%Z then 1 else 0))%Z in
  digits 4 y +:+ "-" +:+ digits 2 m +:+ "-" +:+ digits 2 d +:+ "T"
  +:+ digits 2 (rest / 3600000) +:+ ":" +:+ digits 2 (rest / 60000 mod 60) +:+ ":"
  +:+ digits 2 (rest / 1000 mod 60) +:+ "." +:+ digits 3 (rest mod 1000) +:+ "Z".

End Reference.

Definition reference_platform : Platform :=
  {| pako_deflate := Reference.deflate;
     pako_inflate := Reference.inflate;
     sha256 := Reference.digest;
     secp_getPublicKey := Reference.public_key;
     secp_sign := Reference.sign;
     secp_recoverPublicKey := Reference.recover;
     secp_pointFromHex := fun _ => None;
     hkdf_sha256 := Reference.hkdf;
     chacha_encrypt := Reference.seal;
     chacha_decrypt := Reference.open;
     new_URL := Reference.parse_url;
     JSON_quote := Reference.json_quote;
     Date_toISOString := Reference.iso_string |}.

(* --------------------------------------------------------------------- *)
(** ** Predicates and functions of the statements *)

(** Every character is one of the 256 listed by [all_chars]; a boolean
    property checked on the list holds of every character. *)
Definition all_chars : list ascii := map ascii_of_nat (seq 0 256).

Definition all_bytes : list byte := map byte_of_N (map N.of_nat (seq 0 256)).

(** The character of the URL-safe alphabet for a sextet. *)
Definition urlchar (v : N) : ascii :=
  let c := b64char v in
  let c := if ascii_eqb c "+" then "-"%char else c in
  if ascii_eqb c "/" then "_"%char else c.

Definition is_urlchar (c : ascii) : bool :=
  is_alnum c || ascii_eqb c "-" || ascii_eqb c "_".

(** A [Long] whose halves are 32-bit words. *)
Definition Long_wf (l : Long) : Prop :=
  (0 <= Long_low l < 2 ^ 32)%Z /\ (0 <= Long_high l < 2 ^ 32)%Z.

Definition opt_set {M A : Type} (set : M -> A -> M) (m : M) (v : option A) : M :=
  match v with Some x => set m x | None => m end.

Definition small_bytes (b : bytes) : Prop := (N.of_nat (length b) < 2 ^ 32)%N.
Definition small_string (s : string) : Prop := (N.of_nat (String.length s) < 2 ^ 32)%N.
Definition opt_ok {A : Type} (P : A -> Prop) (o : option A) : Prop :=
  forall x, o = Some x -> P x.

Record InvitePayloadMessage_ok (m : InvitePayloadMessage) : Prop := {
  ok_conversationToken : opt_ok small_bytes (msg_conversationToken m);
  ok_creatorInboxId : opt_ok small_bytes (msg_creatorInboxId m);
  ok_tag : opt_ok small_string (msg_tag m);
  ok_name : opt_ok small_string (msg_name m);
  ok_description : opt_ok small_string (msg_description m);
  ok_imageURL : opt_ok small_string (msg_imageURL m);
  ok_conversationExpiresAtUnix : opt_ok Long_wf (msg_conversationExpiresAtUnix m);
  ok_expiresAtUnix : opt_ok Long_wf (msg_expiresAtUnix m)
}.

Definition int64 (z : Z) : Prop := (- 2 ^ 63 <= z < 2 ^ 63)%Z.

(** What an optional timestamp reads back as: [0n] is not written. *)
Definition nonzero (v : option Z) : option Z :=
  match v with
  | Some z => if (z =? 0)%Z then None else Some z
  | None => None
  end.

Record InvitePayload_ok (p : InvitePayload) : Prop := {
  pok_conversationToken : small_bytes (ip_conversationToken p);
  pok_creatorInboxId : small_bytes (ip_creatorInboxId p);
  pok_tag : small_string (ip_tag p);
  pok_name : opt_ok small_string (ip_name p);
  pok_description : opt_ok small_string (ip_description p);
  pok_imageURL : opt_ok small_string (ip_imageURL p);
  pok_conversationExpiresAtUnix : opt_ok int64 (ip_conversationExpiresAtUnix p);
  pok_expiresAtUnix : opt_ok int64 (ip_expiresAtUnix p)
}.

(** The payload read back from its encoding: an empty display string and
    a zero timestamp come back as not set. *)
Definition payload_read_back (p : InvitePayload) : InvitePayload :=
  {| ip_conversationToken := ip_conversationToken p;
     ip_creatorInboxId := ip_creatorInboxId p;
     ip_tag := ip_tag p;
     ip_name := ip_name p ≫= or_undefined;
     ip_description := ip_description p ≫= or_undefined;
     ip_imageURL := ip_imageURL p ≫= or_undefined;
     ip_conversationExpiresAtUnix := nonzero (ip_conversationExpiresAtUnix p);
     ip_expiresAtUnix := nonzero (ip_expiresAtUnix p);
     ip_expiresAfterUse := ip_expiresAfterUse p |}.

(** The conversation id as it is read back: a UUID in lowercase, any
    other id without the byte order mark at its head. *)
Definition canonical_id (conversationId : string) : string :=
  if UUID_PATTERN_test conversationId then toLowerCase conversationId
  else TextDecoder_decode (utf8_encode conversationId).

(** What [packConversationId] can represent: a UUID, or a string of
    1 to 65535 bytes. *)
Definition packable (conversationId : string) : Prop :=
  UUID_PATTERN_test conversationId = true \/
  (1 <= N.of_nat (String.length conversationId) <= 65535)%N.

(** A [Date] holds a time value of at most 8.64e15 milliseconds either
    side of the epoch. *)
Definition valid_date (ms : Z) : Prop :=
  (- 8640000000000000 <= ms <= 8640000000000000)%Z.

(** [isExpired] and [isConversationExpired] as [parseInviteSlug]
    computes them. *)
Definition expired_at (now_ms : Z) (t : option Z) : bool :=
  match t with
  | Some t => (t <? now_ms / 1000)%Z
  | None => false
  end.

Record ConversationProfileMessage_ok (p : ConversationProfileMessage) : Prop := {
  ok_inboxId : opt_ok small_bytes (msg_inboxId p);
  ok_profile_name : opt_ok small_string (msg_profile_name p);
  ok_profile_image : opt_ok small_string (msg_profile_image p);
  ok_profile_size : small_bytes (ConversationProfileType_encode p)
}.

Definition profile_field (p : ConversationProfileMessage) : bytes :=
  writer_uint32 18 ++ writer_bytes (ConversationProfileType_encode p).

Record ConversationCustomMetadataMessage_ok (m : ConversationCustomMetadataMessage) : Prop := {
  ok_md_tag : opt_ok small_string (msg_md_tag m);
  ok_profiles : Forall ConversationProfileMessage_ok (msg_profiles m);
  ok_md_expiresAtUnix : opt_ok Long_wf (msg_md_expiresAtUnix m);
  ok_imageEncryptionKey : opt_ok small_bytes (msg_imageEncryptionKey m)
}.

(** What a profile and a metadata value read back as: a name or image
    that is not set comes back as the empty string, a timestamp that is
    not set as 0 and a key that is not set as the empty byte string. *)
Definition profile_read_back (p : ConversationProfile) : ConversationProfile :=
  {| cp_inboxId := cp_inboxId p;
     cp_name := Some (default "" (cp_name p));
     cp_image := Some (default "" (cp_image p)) |}.

Definition metadata_read_back (m : ConversationCustomMetadata) : ConversationCustomMetadata :=
  {| md_tag := md_tag m;
     md_profiles := map profile_read_back (md_profiles m);
     md_expiresAtUnix := Some (default 0%Z (md_expiresAtUnix m));
     md_imageEncryptionKey := Some (default [] (md_imageEncryptionKey m)) |}.

(** The test of [findIndex] in [setConversationProfile], for a hex
    string of the data model: it holds of the entries whose [inboxId] is
    byte-equal to the caller's. *)
Definition own_profile (inboxIdHex : string) (p : ConversationProfile) : bool :=
  bool_decide (bytesToHex (cp_inboxId p) = inboxIdHex).

(* --------------------------------------------------------------------- *)
(** ** Inputs of the instances *)

(** Inputs for the instances below. *)
Definition sample_key : bytes :=
  [x01; x02; x03; x04; x05; x06; x07; x08; x09; x0a; x0b; x0c; x0d; x0e; x0f; x10;
   x11; x12; x13; x14; x15; x16; x17; x18; x19; x1a; x1b; x1c; x1d; x1e; x1f; x20].

Definition sample_nonce : bytes :=
  [xa0; xa1; xa2; xa3; xa4; xa5; xa6; xa7; xa8; xa9; xaa; xab].

Definition sample_inbox : string :=
  "abc123def456789012345678901234567890abcdef12345678901234567890ab".

Definition sample_options (conversationId : string) : CreateInviteOptions :=
  {| o_conversationId := conversationId;
     o_inviteTag := "a1B2c3D4e5";
     o_creatorInboxId := sample_inbox;
     o_privateKey := sample_key;
     o_name := Some "Test Group Chat";
     o_description := None;
     o_imageURL := None;
     o_expiresAt := Some 1700000000123%Z;
     o_conversationExpiresAt := None;
     o_expiresAfterUse := None |}.

(** The wire bytes of a metadata message with an empty tag and
    [expiresAtUnix] written as 0, and the same message with the field
    left out. *)
Definition metadata_zero_expiry : bytes :=
  [x0a; x00; x19; x00; x00; x00; x00; x00; x00; x00; x00].

Definition metadata_no_expiry : bytes := [x0a; x00].

(** The wire bytes of an invite payload whose name, description and
    image URL are present as empty strings. *)
Definition payload_empty_display : bytes :=
  [x1a; x01; x74; x22; x00; x2a; x00; x32; x00].

Definition message_empty_display : InvitePayloadMessage :=
  {| msg_conversationToken := None; msg_creatorInboxId := None; msg_tag := Some "t";
     msg_name := Some ""; msg_description := Some ""; msg_imageURL := Some "";
     msg_conversationExpiresAtUnix := None; msg_expiresAtUnix := None;
     msg_expiresAfterUse := None |}.

Definition options_empty_display : CreateInviteOptions :=
  {| o_conversationId := "conversation-1";
     o_inviteTag := "a1B2c3D4e5";
     o_creatorInboxId := sample_inbox;
     o_privateKey := sample_key;
     o_name := Some "";
     o_description := Some "";
     o_imageURL := Some "";
     o_expiresAt := None;
     o_conversationExpiresAt := None;
     o_expiresAfterUse := None |}.

Definition short_signature : SignedInvite :=
  {| si_payload := [x0a; x00]; si_signature := [x01; x02; x03] |}.

Definition bad_recovery_byte : SignedInvite :=
  {| si_payload := [x0a; x00]; si_signature := repeat x00 64 ++ [x04] |}.

(** A signature of [sample_key] over other payload bytes. *)
Definition tampered_payload : SignedInvite :=
  {| si_payload := [x0a; x01; x00];
     si_signature := sample_key ++ Reference.digest (Reference.digest [x0a; x00]) ++ [x00] |}.

(** The middleware and the handler of the instances below: inbox
    [sample_inbox] with key [sample_key], and an agent whose calls
    resolve. *)
Definition sample_agent : XMTPAgent :=
  {| agent_inboxId := sample_inbox;
     agent_getConversationById := fun id => Some (Some id);
     agent_refreshConsentList := true;
     agent_block := fun _ => true;
     agent_addMembers := fun _ _ => true |}.

Definition sample_middleware : ConvosMiddleware :=
  {| mw_agent := sample_agent;
     mw_inboxId := sample_inbox;
     mw_privateKey := sample_key;
     mw_inviteBaseURL := "https://popup.convos.org/v2";
     mw_inviteHandlers := [fun _ => [Accept]] |}.

Definition sample_handler : JoinRequestHandler :=
  {| jr_inboxId := sample_inbox;
     jr_privateKey := sample_key;
     jr_onJoinRequest := None;
     jr_onJoinError := true;
     jr_conversationExists := None |}.

Definition message_from (sender text : string) : XMTPMessageContext :=
  {| ctx_content := ContentString text;
     ctx_senderInboxId := sender;
     ctx_send := fun _ => true |}.

Definition malformed_slug : string :=
  "  not-a-valid-invite-but-it-looks-like-one-0123456789_ABCDEFGHIJ ".

(** An invite of [sample_inbox] whose two timestamps are in 2023. *)
Definition expired_options : CreateInviteOptions :=
  {| o_conversationId := "550e8400-e29b-41d4-a716-446655440000";
     o_inviteTag := "a1B2c3D4e5";
     o_creatorInboxId := sample_inbox;
     o_privateKey := sample_key;
     o_name := None;
     o_description := None;
     o_imageURL := None;
     o_expiresAt := Some 1700000000000%Z;
     o_conversationExpiresAt := Some 1700000001000%Z;
     o_expiresAfterUse := None |}.

Definition expired_slug : string :=
  Eval vm_compute in
    default "" (@createInviteSlug reference_platform sample_nonce expired_options).

Definition sample_metadata : ConversationCustomMetadata :=
  {| md_tag := "a1B2c3D4e5";
     md_profiles :=
       [ {| cp_inboxId := [xab; xcd]; cp_name := Some "Agent"; cp_image := None |};
         {| cp_inboxId := [x01; x02]; cp_name := None;
            cp_image := Some "https://example.com/a.png" |} ];
     md_expiresAtUnix := Some 1700000000%Z;
     md_imageEncryptionKey := None |}.

(** A group whose metadata holds a profile of another inbox and one of
    [sample_inbox]. *)
Definition other_profile : ConversationProfile :=
  {| cp_inboxId := [x01; x02; x03]; cp_name := Some "Other"; cp_image := Some "" |}.

Definition profile_metadata : ConversationCustomMetadata :=
  {| md_tag := "a1B2c3D4e5";
     md_profiles :=
       [ other_profile;
         {| cp_inboxId := hex_pairs sample_inbox; cp_name := Some "Old";
            cp_image := Some "" |} ];
     md_expiresAtUnix := None;
     md_imageEncryptionKey := None |}.

Definition profile_appData : string :=
  Eval vm_compute in @encodeMetadata reference_platform profile_metadata.

Definition profile_group : XMTPGroupWithAppData :=
  {| group_id := "group-1"; appData := profile_appData; updateAppData_ok := fun _ => true |}.

Definition first_call : SetConversationProfileOptions :=
  {| sp_name := Some "Agent"; sp_image := None |}.

Definition second_call : SetConversationProfileOptions :=
  {| sp_name := Some "Agent 2"; sp_image := Some "https://example.com/a.png" |}.

(* --------------------------------------------------------------------- *)
(** ** Further functions of the source *)

(** ** utils/random.js *)

Definition ALPHANUMERIC : string :=
  "ABCDEFGHIJKLMNOPQRSTUVWXYZabcdefghijklmnopqrstuvwxyz0123456789".

(** [ALPHANUMERIC[bytes[i] % ALPHANUMERIC.length]] appended to a string:
    past the end of [bytes] the index is [NaN] and the character
    [undefined]. *)
Definition random_char (b : option byte) : string :=
  match b with
  | Some b =>
      match String.get (N.to_nat (Byte.to_N b mod N.of_nat (String.length ALPHANUMERIC)))
                       ALPHANUMERIC with
      | Some c => String c EmptyString
      | None => "undefined"
      end
  | None => "undefined"
  end.

(** The loop [for (let i = 0; i < length; i++)], from index [i] with
    [count] turns to go. *)
Fixpoint generateSecureRandomString_from (bytes : bytes) (i count : nat) : string :=
  match count with
  | O => EmptyString
  | S k => random_char (bytes !! i) +:+ generateSecureRandomString_from bytes (S i) k
  end.

(** [generateSecureRandomString(length)]; [bytes] is what
    [randomBytes(length)] returned. *)
Definition generateSecureRandomString (bytes : bytes) (length : nat) : string :=
  generateSecureRandomString_from bytes 0 length.

Definition generateInviteTag (bytes : bytes) : string :=
  generateSecureRandomString bytes 10.

(** ** middleware/convos-middleware.ts: [rotateInviteTag] and [join] *)

Record RotatedMetadata := {
  rotated_metadata : ConversationCustomMetadata;
  rotated_encodedMetadata : string;
  rotated_newTag : string
}.

(** [rotateInviteTag]; [newTag] is what [generateInviteTag()] returned. *)
Definition rotateInviteTag `{Platform} (newTag : string)
    (currentMetadata : ConversationCustomMetadata) : RotatedMetadata :=
  let metadata :=
    {| md_tag := newTag;
       md_profiles := md_profiles currentMetadata;
       md_expiresAtUnix := md_expiresAtUnix currentMetadata;
       md_imageEncryptionKey := md_imageEncryptionKey currentMetadata |} in
  {| rotated_metadata := metadata;
     rotated_encodedMetadata := encodeMetadata metadata;
     rotated_newTag := newTag |}.

(** [n.toString()] for a byte. *)
Definition digit_char (n : N) : ascii := ascii_of_N (48 + n).

Definition byte_decimal (b : byte) : string :=
  let n := Byte.to_N b in
  if (n <? 10)%N then String (digit_char n) EmptyString
  else if (n <? 100)%N
       then String (digit_char (n / 10)) (String (digit_char (n mod 10)) EmptyString)
       else String (digit_char (n / 100))
              (String (digit_char (n / 10 mod 10))
                 (String (digit_char (n mod 10)) EmptyString)).

(** [Uint8Array.prototype.toString]: the elements in decimal, joined by
    commas. *)
Definition Uint8Array_toString (bs : bytes) : string :=
  join "," (map byte_decimal bs).

(** The DM conversation [createDm] resolves to: [sendText], when the
    conversation has it, and [send] resolve ([true]) or reject. *)
Record DmConversation := {
  dm_sendText : option (string -> bool);
  dm_send : string -> bool
}.

(** [agent.client.conversations.createDm], when the client has it:
    it resolves to a conversation or rejects. *)
Definition CreateDm := option (string -> option DmConversation).

Record JoinResult := {
  join_conversationId : string;
  join_creatorInboxId : string;
  join_inviteTag : string;
  join_name : option string;
  join_description : option string
}.

(** What [join] does to the outside, in order. *)
Inductive JoinEvent :=
| DmCreated (inboxId : string)
| TextSent (text : string)
| ContentSent (content : string).

(** [join]: its calls, and its result unless it throws. *)
Definition ConvosMiddleware_join `{Platform} (mw : ConvosMiddleware) (createDm : CreateDm) (now_ms : Z)
    (inviteUrl : string) : list JoinEvent * option JoinResult :=
  match parseInviteSlug now_ms inviteUrl with
  | None => ([], None)
  | Some parsedInvite =>
      if pi_isExpired parsedInvite then ([], None)
      else if pi_isConversationExpired parsedInvite then ([], None)
      else
        let creatorInboxId := pi_creatorInboxId parsedInvite in
        if decide (creatorInboxId = mw_inboxId mw) then ([], None)
        else
          match createDm with
          | None => ([], None)
          | Some createDm =>
              match createDm creatorInboxId with
              | None => ([DmCreated creatorInboxId], None)
              | Some dm =>
                  let slug := parseInviteCode inviteUrl in
                  let '(sent, resolved) :=
                    match dm_sendText dm with
                    | Some sendText => (TextSent slug, sendText slug)
                    | None => (ContentSent slug, dm_send dm slug)
                    end in
                  if resolved then
                    ([DmCreated creatorInboxId; sent],
                     Some {| join_conversationId :=
                               Uint8Array_toString
                                 (ip_conversationToken (pi_payload parsedInvite));
                             join_creatorInboxId := creatorInboxId;
                             join_inviteTag := ip_tag (pi_payload parsedInvite);
                             join_name := ip_name (pi_payload parsedInvite);
                             join_description :=
                               ip_description (pi_payload parsedInvite) |})
                  else ([DmCreated creatorInboxId; sent], None)
              end
          end
  end.

(* --------------------------------------------------------------------- *)
(** ** Further predicates and functions of the statements *)

(** An even-length string of hex digits in either case. *)
Definition is_hex_string (s : string) : bool :=
  Nat.even (String.length s) && string_forallb is_hex_char s.

(** [parts.join("")] *)
Fixpoint concat_strings (parts : list string) : string :=
  match parts with
  | [] => EmptyString
  | p :: r => p +:+ concat_strings r
  end.

(** The byte values for which the loop of [generateSecureRandomString]
    appends the character [c]. *)
Definition bytes_selecting (c : ascii) : list byte :=
  List.filter (fun b => String.eqb (random_char (Some b)) (String c EmptyString)) all_bytes.

(** The indexes of the handlers run in a trace, in order. *)
Fixpoint handler_runs (t : list Trace) : list nat :=
  match t with
  | [] => []
  | InviteEvent index _ :: r => index :: handler_runs r
  | Outside _ :: r => handler_runs r
  end.

(** What a run of handlers does to the outside: it adds nobody but the
    joiner, and only to the conversation of the invite; it blocks nobody
    and does not call the next handler. *)
Definition handler_event (ic : InviteContext) (conversation : string) (e : Trace) : Prop :=
  match e with
  | Outside (AddMembers c inboxIds) => c = conversation /\ inboxIds = [joinerInboxId ic]
  | Outside (Block _) | Outside RefreshConsentList | Outside Next => False
  | Outside (Send _) | Outside ConsoleError => True
  | InviteEvent _ context => context = ic
  end.

(** The options [createInviteInternal] hands to [createInviteSlug]. *)
Definition internal_options (mw : ConvosMiddleware) (conversationId tag : string)
    (options : option ConvosGroupInviteOptions) : CreateInviteOptions :=
  {| o_conversationId := conversationId;
     o_inviteTag := tag;
     o_creatorInboxId := mw_inboxId mw;
     o_privateKey := mw_privateKey mw;
     o_name := options ≫= go_name;
     o_description := options ≫= go_description;
     o_imageURL := options ≫= go_imageURL;
     o_conversationExpiresAt := options ≫= go_conversationExpiresAt;
     o_expiresAt := options ≫= go_expiresAt;
     o_expiresAfterUse := options ≫= go_expiresAfterUse |}.

(* --------------------------------------------------------------------- *)
(** ** Further inputs of the instances *)

Definition sample_payload : InvitePayload :=
  {| ip_conversationToken := [x01; xa0; xa1];
     ip_creatorInboxId := [xab; xcd];
     ip_tag := "a1B2c3D4e5";
     ip_name := Some "Test Group Chat";
     ip_description := None;
     ip_imageURL := Some "https://example.com/a.png";
     ip_conversationExpiresAtUnix := Some (-5)%Z;
     ip_expiresAtUnix := Some 1700000000%Z;
     ip_expiresAfterUse := true |}.

(** An invite of [sample_inbox] that does not expire, an inbox that
    joins, and a DM conversation whose calls resolve. *)
Definition open_payload : InvitePayload :=
  {| ip_conversationToken := [x01; xa0; xa1];
     ip_creatorInboxId := [xab; xcd];
     ip_tag := "a1B2c3D4e5";
     ip_name := Some "Test Group Chat";
     ip_description := Some "";
     ip_imageURL := None;
     ip_conversationExpiresAtUnix := None;
     ip_expiresAtUnix := Some 1700000000%Z;
     ip_expiresAfterUse := false |}.

Definition joiner_middleware : ConvosMiddleware :=
  {| mw_agent := sample_agent;
     mw_inboxId := "00ff";
     mw_privateKey := sample_key;
     mw_inviteBaseURL := "https://popup.convos.org/v2";
     mw_inviteHandlers := [] |}.

Definition resolving_dm : DmConversation :=
  {| dm_sendText := Some (fun _ => true); dm_send := fun _ => true |}.

Definition open_options : CreateInviteOptions :=
  {| o_conversationId := "550e8400-e29b-41d4-a716-446655440000";
     o_inviteTag := "a1B2c3D4e5";
     o_creatorInboxId := sample_inbox;
     o_privateKey := sample_key;
     o_name := Some "Test Group Chat";
     o_description := None;
     o_imageURL := None;
     o_expiresAt := Some 1700000000123%Z;
     o_conversationExpiresAt := None;
     o_expiresAfterUse := None |}.

Definition open_slug : string :=
  Eval vm_compute in
    default "" (@createInviteSlug reference_platform sample_nonce open_options).

(** The slug of [open_payload] with an empty signature: an invite of the
    inbox [abcd] that nobody signed. *)
Definition unsigned_slug : string :=
  Eval vm_compute in
    @encodeToSlug reference_platform
      (encodeSignedInvite {| si_payload := encodeInvitePayload open_payload;
                             si_signature := [] |}).

(** A group without metadata whose [updateAppData] resolves. *)
Definition fresh_group : XMTPGroupWithAppData :=
  {| group_id := "550e8400-e29b-41d4-a716-446655440000";
     appData := "";
     updateAppData_ok := fun _ => true |}.

(** Metadata with a timestamp, a key and two profiles, and a middleware
    whose inbox id is written in capitals. *)
Definition keyed_metadata : ConversationCustomMetadata :=
  {| md_tag := "a1B2c3D4e5";
     md_profiles :=
       [ {| cp_inboxId := [xab; xcd]; cp_name := Some "Agent";
            cp_image := Some "https://example.com/b.png" |};
         {| cp_inboxId := [x01; x02]; cp_name := None;
            cp_image := Some "https://example.com/a.png" |} ];
     md_expiresAtUnix := Some 1700000000%Z;
     md_imageEncryptionKey := Some [x01; x02] |}.

Definition uppercase_middleware : ConvosMiddleware :=
  {| mw_agent := sample_agent;
     mw_inboxId := "ABCD";
     mw_privateKey := sample_key;
     mw_inviteBaseURL := "https://popup.convos.org/v2";
     mw_inviteHandlers := [] |}.

(* ===================================================================== *)
(** * Part II: lemmas                                                    *)
(* ===================================================================== *)

(** ** Bytes and characters *)

Lemma to_N_byte_of_N (n : N) : Byte.to_N (byte_of_N n) = (n mod 256)%N.
Proof.
  unfold byte_of_N. destruct (Byte.of_N (n mod 256)) as [b|] eqn:E.
  - now apply Byte.to_of_N.
  - apply Byte.of_N_None_iff in E. pose proof (N.mod_lt n 256). lia.
Qed.

Lemma to_N_byte_of_N_small (n : N) : (n < 256)%N -> Byte.to_N (byte_of_N n) = n.
Proof. intros. rewrite to_N_byte_of_N. now apply N.mod_small. Qed.

Lemma to_N_lt (b : byte) : (Byte.to_N b < 256)%N.
Proof. pose proof (Byte.to_N_bounded b). lia. Qed.

Lemma to_N_inj (a b : byte) : Byte.to_N a = Byte.to_N b -> a = b.
Proof.
  intros E. apply (f_equal Byte.of_N) in E. rewrite !Byte.of_to_N in E. congruence.
Qed.

Lemma byte_of_N_to_N (b : byte) : byte_of_N (Byte.to_N b) = b.
Proof. apply to_N_inj. rewrite to_N_byte_of_N_small; auto using to_N_lt. Qed.

Lemma byte_eqb_eq (a b : byte) : byte_eqb a b = true <-> a = b.
Proof.
  unfold byte_eqb. rewrite N.eqb_eq. split; [apply to_N_inj | congruence].
Qed.

Lemma byte_eqb_refl (a : byte) : byte_eqb a a = true.
Proof. now apply byte_eqb_eq. Qed.

Lemma byte_eqb_neq (a b : byte) : byte_eqb a b = false <-> a <> b.
Proof.
  rewrite <- byte_eqb_eq. destruct (byte_eqb a b); split; congruence.
Qed.

Lemma ascii_eqb_eq (a b : ascii) : ascii_eqb a b = true <-> a = b.
Proof.
  unfold ascii_eqb, code. rewrite N.eqb_eq. split; [|congruence].
  intros E. apply (f_equal ascii_of_N) in E. now rewrite !ascii_N_embedding in E.
Qed.

Lemma utf8_decode_encode (s : string) : utf8_decode (utf8_encode s) = s.
Proof. apply string_of_list_byte_of_string. Qed.

Lemma utf8_encode_decode (b : bytes) : utf8_encode (utf8_decode b) = b.
Proof. apply list_byte_of_string_of_list_byte. Qed.

Lemma utf8_encode_length (s : string) : length (utf8_encode s) = String.length s.
Proof.
  unfold utf8_encode, list_byte_of_string.
  rewrite length_map. induction s; simpl; auto.
Qed.

Lemma all_chars_complete (c : ascii) : In c all_chars.
Proof.
  unfold all_chars. apply in_map_iff. exists (nat_of_ascii c). split.
  - apply ascii_nat_embedding.
  - apply in_seq. pose proof (nat_ascii_bounded c). lia.
Qed.

Lemma forall_char (p : ascii -> bool) :
  forallb p all_chars = true -> forall c, p c = true.
Proof. intros H c. rewrite forallb_forall in H. apply H, all_chars_complete. Qed.

Lemma forall_char2 (p : ascii -> ascii -> bool) :
  forallb (fun a => forallb (p a) all_chars) all_chars = true ->
  forall a b, p a b = true.
Proof. intros H a b. apply (forall_char (p a)). apply (forall_char _ H). Qed.

Lemma all_bytes_complete (b : byte) : In b all_bytes.
Proof.
  unfold all_bytes. apply in_map_iff. exists (Byte.to_N b). split.
  - apply byte_of_N_to_N.
  - apply in_map_iff. exists (N.to_nat (Byte.to_N b)). split; [lia|].
    apply in_seq. pose proof (to_N_lt b). lia.
Qed.

Lemma forall_byte (p : byte -> bool) :
  forallb p all_bytes = true -> forall b, p b = true.
Proof. intros H b. rewrite forallb_forall in H. apply H, all_bytes_complete. Qed.

(** ** The reference platform satisfies the laws *)

Lemma unrle_rle (l : bytes) : Reference.unrle (Reference.rle l) = Some l.
Proof.
  induction l as [|b r IH]; [reflexivity|].
  cbn [Reference.rle]. destruct (Reference.rle r) as [|n [|b' t]] eqn:E.
  - cbn in IH. injection IH as <-. reflexivity.
  - cbn in IH. discriminate.
  - cbn [Reference.unrle] in IH.
    destruct (Reference.unrle t) as [r'|] eqn:Et; [|discriminate].
    injection IH as IH. subst r.
    destruct (byte_eqb b b' && (Byte.to_N n <? 255)%N) eqn:C.
    + apply andb_prop in C as [C1 C2]. apply byte_eqb_eq in C1. subst b'.
      apply N.ltb_lt in C2. cbn [Reference.unrle]. rewrite Et.
      rewrite to_N_byte_of_N_small by lia.
      replace (N.to_nat (Byte.to_N n + 1)) with (S (N.to_nat (Byte.to_N n))) by lia.
      reflexivity.
    + cbn [Reference.unrle]. rewrite Et. reflexivity.
Qed.

Lemma le_bytes_length (n : nat) (v : N) : length (Reference.le_bytes n v) = n.
Proof. revert v. induction n; intros; cbn; auto. Qed.

Lemma digest_length (x : bytes) : length (Reference.digest x) = 32.
Proof. apply le_bytes_length. Qed.

Lemma after_scheme_colon (first : bool) (s r : string) :
  Reference.after_scheme first s = Some r -> string_mem ":" s = true.
Proof.
  unfold string_mem. revert first. induction s as [|c s IH]; intros first H; [discriminate|].
  cbn in *. destruct (ascii_eqb c ":") eqn:Ec; [reflexivity|]. cbn.
  destruct first.
  - destruct (is_upper c || is_lower c); [eauto | discriminate].
  - destruct (is_alnum c || ascii_eqb c "+" || ascii_eqb c "-" || ascii_eqb c ".");
      [eauto | discriminate].
Qed.

Lemma reference_laws : PlatformLaws reference_platform.
Proof.
  constructor; cbn.
  - intros x c. unfold Reference.deflate, Reference.inflate.
    destruct x as [|b x]; intros [= <-].
    + rewrite decide_True by reflexivity. reflexivity.
    + rewrite decide_False by (unfold zlib_empty_stream; congruence).
      exact (unrle_rle (b :: x)).
  - reflexivity.
  - apply digest_length.
  - intros k pk. unfold Reference.public_key, Reference.valid_key.
    destruct (length k =? 32) eqn:E; cbn; [|discriminate].
    destruct (existsb _ k); [|discriminate]. intros [= <-].
    apply Nat.eqb_eq in E. cbn. rewrite length_app. lia.
  - intros k Hk. unfold Reference.public_key, Reference.valid_key.
    apply Nat.eqb_neq in Hk. now rewrite Hk.
  - intros h k pk _. unfold Reference.public_key, Reference.sign, Reference.recover.
    destruct (Reference.valid_key k) eqn:V; [|discriminate]. intros [= <-].
    assert (L : length k = 32).
    { unfold Reference.valid_key in V. apply andb_prop in V as [V _].
      now apply Nat.eqb_eq in V. }
    exists (k ++ Reference.digest h), x00. repeat split.
    + rewrite length_app, digest_length. lia.
    + cbn. lia.
    + rewrite skipn_app, firstn_app, L. cbn [Nat.sub skipn firstn].
      rewrite skipn_all2 by lia. rewrite firstn_all2 by lia.
      rewrite app_nil_r. cbn [app]. rewrite bool_decide_true by reflexivity.
      rewrite V. reflexivity.
  - intros. unfold Reference.hkdf. rewrite length_firstn, length_app, repeat_length. lia.
  - intros k n aad pt Hk Hn. unfold Reference.seal, Reference.open.
    apply Nat.eqb_eq in Hk, Hn. rewrite Hk, Hn. cbn [andb].
    assert (T : length (Reference.seal_tag k n aad pt) = 16).
    { unfold Reference.seal_tag. rewrite length_firstn, digest_length. lia. }
    eexists. split; [reflexivity|]. split; [rewrite length_app; lia|].
    rewrite length_app, T.
    replace (16 <=? length pt + 16) with true by (symmetry; apply Nat.leb_le; lia).
    replace (length pt + 16 - 16) with (length pt) by lia.
    rewrite firstn_app, Nat.sub_diag, firstn_all, firstn_O, app_nil_r.
    rewrite skipn_app, Nat.sub_diag, skipn_all. cbn [skipn app].
    rewrite bool_decide_true by reflexivity. reflexivity.
  - intros s u. unfold Reference.parse_url.
    destruct (Reference.after_scheme true s) eqn:E; [|discriminate].
    intros _. eapply after_scheme_colon, E.
Qed.

(** ** Compression framing *)

Section Framing.
Context `{L : PlatformLaws}.

Lemma compressIfSmaller_cases (x : bytes) :
  compressIfSmaller x = x \/
  exists c, pako_deflate x = Some c /\ length c + 1 < length x /\
            compressIfSmaller x = COMPRESSION_MARKER :: c.
Proof.
  unfold compressIfSmaller.
  destruct (length x <? MIN_SIZE_FOR_COMPRESSION); [now left|].
  destruct (pako_deflate x) as [c|] eqn:E; [|now left].
  destruct (length c + 1 <? length x) eqn:Lt; [|now left].
  right. exists c. apply Nat.ltb_lt in Lt. auto.
Qed.

Lemma decompress_unmarked (x : bytes) : isCompressed x = false -> decompress x = Some x.
Proof.
  destruct x as [|b r]; [reflexivity|]. cbn. now intros ->.
Qed.

(** Framing round trip, for an input that is compressed or does not
    begin with the marker. *)
Lemma decompress_compressIfSmaller (x : bytes) :
  (N.of_nat (length x) <= MAX_DECOMPRESSED_SIZE)%N ->
  isCompressed x = false \/ compressIfSmaller x <> x ->
  decompress (compressIfSmaller x) = Some x.
Proof.
  intros Hlen Hc.
  destruct (compressIfSmaller_cases x) as [E | (c & Hd & Hlt & E)].
  - rewrite E. destruct Hc as [Hc|Hc]; [now apply decompress_unmarked | contradiction].
  - rewrite E. unfold decompress. rewrite byte_eqb_refl.
    rewrite (inflate_deflate _ _ Hd). cbn [mbind option_bind].
    destruct (MAX_DECOMPRESSED_SIZE <? N.of_nat (length x))%N eqn:B; [|reflexivity].
    apply N.ltb_lt in B. lia.
Qed.

(** An uncompressed input that begins with the marker is inflated:
    the marker followed by the deflate stream of the empty input comes
    back as the empty input. *)
Lemma marker_collision :
  compressIfSmaller (COMPRESSION_MARKER :: zlib_empty_stream) = COMPRESSION_MARKER :: zlib_empty_stream
  /\ decompress (compressIfSmaller (COMPRESSION_MARKER :: zlib_empty_stream)) = Some [].
Proof.
  assert (E : compressIfSmaller (COMPRESSION_MARKER :: zlib_empty_stream)
              = COMPRESSION_MARKER :: zlib_empty_stream) by reflexivity.
  split; [exact E|]. rewrite E. unfold decompress. rewrite byte_eqb_refl.
  rewrite (inflate_deflate _ _ deflate_empty). reflexivity.
Qed.

End Framing.

(** ** URL-safe base64 *)

Ltac divmod := zify; Z.to_euclidean_division_equations; lia.

Lemma list_ind3 {A : Type} (P : list A -> Prop) :
  P [] -> (forall a, P [a]) -> (forall a b, P [a; b]) ->
  (forall a b c r, P r -> P (a :: b :: c :: r)) -> forall l, P l.
Proof.
  intros H0 H1 H2 H3.
  fix IH 1. intros [|a [|b [|c r]]]; [exact H0 | exact (H1 a) | exact (H2 a b) |].
  exact (H3 a b c r (IH r)).
Qed.

Lemma sextets_lt (bs : bytes) : Forall (fun v => (v < 64)%N) (sextets bs).
Proof.
  induction bs as [|a|a b|a b c r IH] using list_ind3; cbn [sextets].
  - constructor.
  - pose proof (to_N_lt a). repeat constructor; divmod.
  - pose proof (to_N_lt a). pose proof (to_N_lt b). repeat constructor; divmod.
  - pose proof (to_N_lt a). pose proof (to_N_lt b). pose proof (to_N_lt c).
    repeat (constructor; [divmod|]). exact IH.
Qed.

Lemma unsextets_sextets (bs : bytes) : unsextets (sextets bs) = bs.
Proof.
  induction bs as [|a|a b|a b c r IH] using list_ind3; cbn [sextets unsextets].
  - reflexivity.
  - pose proof (to_N_lt a). f_equal. apply to_N_inj. rewrite to_N_byte_of_N. divmod.
  - pose proof (to_N_lt a). pose proof (to_N_lt b).
    f_equal; [|f_equal]; apply to_N_inj; rewrite to_N_byte_of_N; divmod.
  - pose proof (to_N_lt a). pose proof (to_N_lt b). pose proof (to_N_lt c).
    rewrite IH.
    f_equal; [|f_equal; [|f_equal]]; apply to_N_inj; rewrite to_N_byte_of_N; divmod.
Qed.

(** Strings: reversal, append, replacement. *)

Lemma app_empty_r (s : string) : s +:+ "" = s.
Proof. induction s; cbn; congruence. Qed.

Lemma app_assoc_s (a b c : string) : (a +:+ b) +:+ c = a +:+ (b +:+ c).
Proof. induction a; cbn; congruence. Qed.

Lemma string_rev_onto_app (s acc : string) :
  string_rev_onto s acc = string_rev s +:+ acc.
Proof.
  unfold string_rev. revert acc. induction s as [|c s IH]; intros acc; cbn; [reflexivity|].
  rewrite IH, (IH (String c "")), app_assoc_s. reflexivity.
Qed.

Lemma string_rev_cons (c : ascii) (s : string) :
  string_rev (String c s) = string_rev s +:+ String c "".
Proof. unfold string_rev at 1. cbn. apply string_rev_onto_app. Qed.

Lemma string_rev_app (a b : string) :
  string_rev (a +:+ b) = string_rev b +:+ string_rev a.
Proof.
  induction a as [|c a IH].
  - cbn. now rewrite app_empty_r.
  - change (String c a +:+ b) with (String c (a +:+ b)).
    rewrite !string_rev_cons, IH, app_assoc_s. reflexivity.
Qed.

Lemma string_rev_involutive (s : string) : string_rev (string_rev s) = s.
Proof.
  induction s as [|c s IH]; [reflexivity|].
  rewrite string_rev_cons, string_rev_app, IH. reflexivity.
Qed.

Lemma string_forallb_app (p : ascii -> bool) (a b : string) :
  string_forallb p (a +:+ b) = string_forallb p a && string_forallb p b.
Proof. induction a as [|c a IH]; cbn; [reflexivity|]. now rewrite IH, andb_assoc. Qed.

Lemma string_forallb_rev (p : ascii -> bool) (s : string) :
  string_forallb p (string_rev s) = string_forallb p s.
Proof.
  induction s as [|c s IH]; [reflexivity|].
  rewrite string_rev_cons, string_forallb_app, IH. cbn. rewrite andb_true_r. apply andb_comm.
Qed.

Lemma string_forallb_impl (p q : ascii -> bool) (s : string) :
  (forall c, p c = true -> q c = true) ->
  string_forallb p s = true -> string_forallb q s = true.
Proof.
  intros H. induction s as [|c s IH]; cbn; [auto|].
  intros E. apply andb_prop in E as [E1 E2]. rewrite (H _ E1), IH; auto.
Qed.

Lemma string_repeat_snoc (c : ascii) (k : nat) :
  string_repeat c k +:+ String c "" = String c (string_repeat c k).
Proof. induction k; cbn; congruence. Qed.

Lemma string_rev_repeat (c : ascii) (k : nat) :
  string_rev (string_repeat c k) = string_repeat c k.
Proof.
  induction k as [|k IH]; [reflexivity|].
  cbn [string_repeat]. rewrite string_rev_cons, IH. apply string_repeat_snoc.
Qed.

Lemma drop_leading_repeat (x : ascii) (k : nat) (t : string) :
  drop_leading x (string_repeat x k +:+ t) = drop_leading x t.
Proof.
  induction k as [|k IH]; [reflexivity|]. cbn.
  replace (ascii_eqb x x) with true by (symmetry; now apply ascii_eqb_eq). exact IH.
Qed.

Lemma drop_leading_none (x : ascii) (t : string) :
  string_forallb (fun c => negb (ascii_eqb c x)) t = true -> drop_leading x t = t.
Proof.
  destruct t as [|c t]; [reflexivity|]. cbn. intros E.
  apply andb_prop in E as [E _]. apply negb_true_iff in E. now rewrite E.
Qed.

Lemma strip_padding_app (s : string) (k : nat) :
  string_forallb (fun c => negb (ascii_eqb c "=")) s = true ->
  strip_padding (s +:+ string_repeat "=" k) = s.
Proof.
  intros H. unfold strip_padding.
  rewrite string_rev_app, string_rev_repeat, drop_leading_repeat.
  rewrite drop_leading_none by now rewrite string_forallb_rev.
  apply string_rev_involutive.
Qed.

Lemma replace_char_app (x y : ascii) (a b : string) :
  replace_char x y (a +:+ b) = replace_char x y a +:+ replace_char x y b.
Proof. induction a; cbn; congruence. Qed.

Lemma replace_char_repeat (x y c : ascii) (k : nat) :
  ascii_eqb c x = false -> replace_char x y (string_repeat c k) = string_repeat c k.
Proof. intros E. induction k; cbn; [reflexivity|]. now rewrite E, IHk. Qed.

Lemma replace_char_chars (x y : ascii) (l : list ascii) :
  replace_char x y (string_of_chars l)
  = string_of_chars (map (fun c => if ascii_eqb c x then y else c) l).
Proof. induction l; cbn; congruence. Qed.

Lemma string_forallb_chars (p : ascii -> bool) (l : list ascii) :
  string_forallb p (string_of_chars l) = forallb p l.
Proof. induction l; cbn; congruence. Qed.

Lemma lt_64_cases (v : N) (p : N -> bool) :
  forallb p (map N.of_nat (seq 0 64)) = true -> (v < 64)%N -> p v = true.
Proof.
  intros H Hv. rewrite forallb_forall in H. apply H.
  apply in_map_iff. exists (N.to_nat v). split; [lia|]. apply in_seq. lia.
Qed.

Lemma urlchar_is_urlchar (v : N) : (v < 64)%N -> is_urlchar (urlchar v) = true.
Proof. apply (lt_64_cases v (fun v => is_urlchar (urlchar v))). now vm_compute. Qed.

(** Undoing the two replacements gives a character that Node reads back
    as the sextet. *)
Lemma unbase64_back (v : N) :
  (v < 64)%N ->
  let c := urlchar v in
  let c := if ascii_eqb c "-" then "+"%char else c in
  let c := if ascii_eqb c "_" then "/"%char else c in
  ascii_eqb c "=" = false /\ unbase64 c = Some v.
Proof.
  intros Hv. cbv zeta.
  pose (chk := fun v =>
    let c := urlchar v in
    let c := if ascii_eqb c "-" then "+"%char else c in
    let c := if ascii_eqb c "_" then "/"%char else c in
    negb (ascii_eqb c "=")
    && match unbase64 c with Some w => (w =? v)%N | None => false end).
  assert (H : chk v = true) by (apply lt_64_cases; [now vm_compute | exact Hv]).
  unfold chk in H. cbv zeta in H. apply andb_prop in H as [H1 H2].
  apply negb_true_iff in H1. split; [exact H1|].
  destruct (unbase64 _) as [w|]; [|discriminate]. apply N.eqb_eq in H2. now subst.
Qed.

Lemma base64UrlEncode_chars (data : bytes) :
  base64UrlEncode data = string_of_chars (map urlchar (sextets data)).
Proof.
  unfold base64UrlEncode, toString_base64.
  rewrite !replace_char_app, !replace_char_repeat by reflexivity.
  rewrite !replace_char_chars, !map_map.
  apply strip_padding_app.
  rewrite string_forallb_chars, forallb_forall. intros c Hc.
  apply in_map_iff in Hc as (v & <- & Hv).
  pose proof (sextets_lt data) as F. rewrite Forall_forall in F.
  apply list_elem_of_In, F in Hv.
  apply (lt_64_cases v (fun v => negb (ascii_eqb
     (if ascii_eqb (if ascii_eqb (b64char v) "+" then "-"%char else b64char v) "/"
      then "_"%char else if ascii_eqb (b64char v) "+" then "-"%char else b64char v) "=")));
    [now vm_compute | exact Hv].
Qed.

Lemma legal_sextets_padding (k : nat) : legal_sextets (string_repeat "=" k) = [].
Proof. destruct k; reflexivity. Qed.

Lemma legal_sextets_back (l : list N) (k : nat) :
  Forall (fun v => (v < 64)%N) l ->
  legal_sextets
    (replace_char "_" "/" (replace_char "-" "+" (string_of_chars (map urlchar l)))
     +:+ string_repeat "=" k) = l.
Proof.
  induction 1 as [|v l Hv _ IH]; cbn [map string_of_chars replace_char String.app legal_sextets].
  - apply legal_sextets_padding.
  - destruct (unbase64_back v Hv) as [E1 E2]. cbv zeta in E1, E2.
    rewrite E1, E2, IH. reflexivity.
Qed.

(** Decoding inverts encoding, for every byte string. *)
Lemma base64UrlDecode_encode (data : bytes) :
  base64UrlDecode (base64UrlEncode data) = data.
Proof.
  rewrite base64UrlEncode_chars. unfold base64UrlDecode, from_base64.
  rewrite legal_sextets_back by apply sextets_lt. apply unsextets_sextets.
Qed.

Lemma base64UrlEncode_urlchars (data : bytes) :
  string_forallb is_urlchar (base64UrlEncode data) = true.
Proof.
  rewrite base64UrlEncode_chars, string_forallb_chars, forallb_forall.
  intros c Hc. apply in_map_iff in Hc as (v & <- & Hv).
  pose proof (sextets_lt data) as F. rewrite Forall_forall in F.
  apply list_elem_of_In, F in Hv. now apply urlchar_is_urlchar.
Qed.

(** ** Separators, trimming and [parseInviteCode] on a slug *)

Lemma char_impl (p q : ascii -> bool) :
  forallb (fun c => negb (p c) || q c) all_chars = true ->
  forall c, p c = true -> q c = true.
Proof.
  intros H c Hp. pose proof (forall_char _ H c) as E. cbv beta in E.
  now rewrite Hp in E.
Qed.

Lemma string_filter_app (p : ascii -> bool) (a b : string) :
  string_filter p (a +:+ b) = string_filter p a +:+ string_filter p b.
Proof.
  induction a as [|c a IH]; [reflexivity|]. cbn. rewrite IH. now destruct (p c).
Qed.

Lemma string_filter_all (p : ascii -> bool) (s : string) :
  string_forallb p s = true -> string_filter p s = s.
Proof.
  induction s as [|c s IH]; [reflexivity|]. cbn. intros E.
  apply andb_prop in E as [-> E]. now rewrite IH.
Qed.

Lemma take_drop (n : nat) (s : string) : string_take n s +:+ string_drop n s = s.
Proof.
  revert s. induction n as [|n IH]; intros [|c s]; cbn; try reflexivity. now rewrite IH.
Qed.

Lemma string_drop_length (n : nat) (s : string) :
  String.length (string_drop n s) = String.length s - n.
Proof. revert s. induction n as [|n IH]; intros [|c s]; cbn; auto. Qed.

Lemma string_forallb_take_drop (p : ascii -> bool) (n : nat) (s : string) :
  string_forallb p s = true ->
  string_forallb p (string_take n s) = true /\ string_forallb p (string_drop n s) = true.
Proof.
  intros H. rewrite <- (take_drop n s), string_forallb_app in H. now apply andb_prop in H.
Qed.

Lemma join_cons (sep : ascii) (p : string) (r : list string) :
  join sep (p :: r) = match r with [] => p | _ => p +:+ String sep (join sep r) end.
Proof. destruct r; reflexivity. Qed.

Lemma slices_join (p : ascii -> bool) (sep : ascii) (every : nat) :
  0 < every -> p sep = false ->
  forall fuel s, String.length s <= fuel -> string_forallb p s = true ->
  string_filter p (join sep (slices fuel every s)) = s.
Proof.
  intros Hev Hsep. induction fuel as [|fuel IH]; intros s Hlen Hp.
  - destruct s; [reflexivity | cbn in Hlen; lia].
  - destruct s as [|c s]; [reflexivity|].
    cbn [slices]. rewrite join_cons.
    destruct (string_forallb_take_drop p every (String c s) Hp) as [Ht Hd].
    assert (Hl : String.length (string_drop every (String c s)) <= fuel).
    { rewrite string_drop_length. cbn in *. lia. }
    specialize (IH _ Hl Hd).
    destruct (slices fuel every (string_drop every (String c s))) eqn:E.
    + cbn in IH. rewrite <- (take_drop every (String c s)) at 2.
      rewrite <- IH, app_empty_r. now apply string_filter_all.
    + rewrite string_filter_app. cbn [string_filter]. rewrite Hsep, IH.
      rewrite string_filter_all by exact Ht. apply take_drop.
Qed.

Lemma slices_forallb (q : ascii -> bool) (sep : ascii) (every : nat) :
  q sep = true ->
  forall fuel s, string_forallb q s = true ->
  string_forallb q (join sep (slices fuel every s)) = true.
Proof.
  intros Hsep. induction fuel as [|fuel IH]; intros s Hq; [reflexivity|].
  destruct s as [|c s]; [reflexivity|].
  cbn [slices]. rewrite join_cons.
  destruct (string_forallb_take_drop q every (String c s) Hq) as [Ht Hd].
  specialize (IH _ Hd).
  destruct (slices fuel every (string_drop every (String c s))); [exact Ht|].
  rewrite string_forallb_app, Ht. cbn [string_forallb andb]. now rewrite Hsep, IH.
Qed.

Lemma insertSeparators_strip (s : string) :
  string_forallb is_urlchar s = true ->
  string_filter (fun c => negb (ascii_eqb c "*"))
                (insertSeparators s IMESSAGE_SEPARATOR IMESSAGE_CHUNK_SIZE) = s.
Proof.
  intros H.
  assert (Hp : string_forallb (fun c => negb (ascii_eqb c "*")) s = true).
  { revert H. apply string_forallb_impl. apply char_impl. now vm_compute. }
  unfold insertSeparators. destruct (String.length s <=? IMESSAGE_CHUNK_SIZE).
  - now apply string_filter_all.
  - apply slices_join; auto. unfold IMESSAGE_CHUNK_SIZE. lia.
Qed.

Lemma urlchar_slug_char (c : ascii) : is_urlchar c = true -> slug_char c = true.
Proof. revert c. apply char_impl. now vm_compute. Qed.

Lemma insertSeparators_slug_chars (s : string) :
  string_forallb is_urlchar s = true ->
  string_forallb slug_char (insertSeparators s IMESSAGE_SEPARATOR IMESSAGE_CHUNK_SIZE) = true.
Proof.
  intros H.
  assert (Hq : string_forallb slug_char s = true).
  { revert H. apply string_forallb_impl, urlchar_slug_char. }
  unfold insertSeparators. destruct (String.length s <=? IMESSAGE_CHUNK_SIZE); [exact Hq|].
  now apply slices_forallb.
Qed.

Lemma slug_char_ascii (c : ascii) : slug_char c = true -> (32 < code c < 128)%N.
Proof.
  intros H.
  assert (E : ((32 <? code c) && (code c <? 128))%N = true).
  { revert c H. apply char_impl. now vm_compute. }
  apply andb_prop in E as [E1 E2]. apply N.ltb_lt in E1, E2. lia.
Qed.

Lemma not_space_of_code (c : ascii) : (32 < code c < 128)%N -> is_ascii_space c = false.
Proof.
  intros H. unfold is_ascii_space, in_range, ascii_eqb. cbn.
  apply orb_false_iff. split.
  - apply andb_false_iff. right. apply N.leb_gt. lia.
  - apply N.eqb_neq. lia.
Qed.

Lemma ws2_first_ascii (a b : ascii) : (code a < 128)%N -> ws2 a b = false.
Proof. intros H. unfold ws2. replace (code a =? 194)%N with false; [reflexivity|]. symmetry. apply N.eqb_neq. lia. Qed.

Lemma ws2_last_ascii (a b : ascii) : (code b < 128)%N -> ws2 a b = false.
Proof.
  intros H. unfold ws2. replace (code b =? 160)%N with false; [apply andb_false_r|].
  symmetry. apply N.eqb_neq. lia.
Qed.

Lemma ws3_first_ascii (a b c : ascii) : (code a < 128)%N -> ws3 a b c = false.
Proof.
  intros H. unfold ws3.
  replace (code a =? 225)%N with false by (symmetry; apply N.eqb_neq; lia).
  replace (code a =? 226)%N with false by (symmetry; apply N.eqb_neq; lia).
  replace (code a =? 227)%N with false by (symmetry; apply N.eqb_neq; lia).
  replace (code a =? 239)%N with false by (symmetry; apply N.eqb_neq; lia).
  reflexivity.
Qed.

Lemma ws3_last_ascii (a b c : ascii) : (code c < 128)%N -> ws3 a b c = false.
Proof.
  intros H. unfold ws3.
  replace (code c =? 128)%N with false by (symmetry; apply N.eqb_neq; lia).
  replace (128 <=? code c)%N with false by (symmetry; apply N.leb_gt; lia).
  replace (code c =? 168)%N with false by (symmetry; apply N.eqb_neq; lia).
  replace (code c =? 169)%N with false by (symmetry; apply N.eqb_neq; lia).
  replace (code c =? 175)%N with false by (symmetry; apply N.eqb_neq; lia).
  replace (code c =? 159)%N with false by (symmetry; apply N.eqb_neq; lia).
  replace (code c =? 191)%N with false by (symmetry; apply N.eqb_neq; lia).
  cbn. rewrite !andb_false_r. reflexivity.
Qed.

(** A string that begins with a printable ASCII character has nothing
    to trim at its start; likewise at its end. *)
Lemma trimStart_head (a : ascii) (r : string) :
  (32 < code a < 128)%N -> trimStart (String a r) = String a r.
Proof.
  intros H. cbn [trimStart]. rewrite not_space_of_code by exact H.
  destruct r as [|b r]; [reflexivity|]. rewrite ws2_first_ascii by lia.
  destruct r as [|c r]; [reflexivity|]. now rewrite ws3_first_ascii by lia.
Qed.

Lemma trimStart_rev_head (a : ascii) (r : string) :
  (32 < code a < 128)%N -> trimStart_rev (String a r) = String a r.
Proof.
  intros H. cbn [trimStart_rev]. rewrite not_space_of_code by exact H.
  destruct r as [|b r]; [reflexivity|]. rewrite ws2_last_ascii by lia.
  destruct r as [|c r]; [reflexivity|]. now rewrite ws3_last_ascii by lia.
Qed.

Lemma trim_slug_chars (s : string) : string_forallb slug_char s = true -> trim s = s.
Proof.
  intros H. unfold trim.
  assert (E1 : trimStart s = s).
  { destruct s as [|a r]; [reflexivity|]. cbn in H. apply andb_prop in H as [H _].
    apply trimStart_head, slug_char_ascii, H. }
  rewrite E1.
  assert (E2 : trimStart_rev (string_rev s) = string_rev s).
  { rewrite <- string_forallb_rev in H. destruct (string_rev s) as [|a r]; [reflexivity|].
    cbn in H. apply andb_prop in H as [H _].
    apply trimStart_rev_head, slug_char_ascii, H. }
  rewrite E2. apply string_rev_involutive.
Qed.

Lemma slug_chars_no_colon (s : string) :
  string_forallb slug_char s = true -> string_mem ":" s = false.
Proof.
  intros H. unfold string_mem. apply negb_false_iff. revert H.
  apply string_forallb_impl. apply char_impl. now vm_compute.
Qed.

Section Slug.
Context `{L : PlatformLaws}.

Lemma parseInviteCode_slug (s : string) :
  string_forallb slug_char s = true -> parseInviteCode s = s.
Proof.
  intros H. unfold parseInviteCode. rewrite trim_slug_chars by exact H.
  destruct (new_URL s) as [u|] eqn:E; [|reflexivity].
  apply URL_needs_scheme in E. rewrite slug_chars_no_colon in E by exact H. discriminate.
Qed.

Lemma encodeToSlug_slug_chars (data : bytes) :
  string_forallb slug_char (encodeToSlug data) = true.
Proof. apply insertSeparators_slug_chars, base64UrlEncode_urlchars. Qed.

Lemma decodeFromSlug_encodeToSlug (data : bytes) :
  decodeFromSlug (encodeToSlug data) = decompress (compressIfSmaller data).
Proof.
  unfold decodeFromSlug, encodeToSlug.
  rewrite insertSeparators_strip by apply base64UrlEncode_urlchars.
  now rewrite base64UrlDecode_encode.
Qed.

End Slug.

(** ** The protobufjs writer and reader *)

Lemma readVarint32_write (n : nat) (val acc shift : N) (rest : bytes) :
  (val < 2 ^ (7 * N.of_nat n + 4))%N ->
  readVarint32 n shift acc (writeVarint32 n val ++ rest)
  = Some ((acc + val * 2 ^ shift)%N, rest).
Proof.
  revert val acc shift. induction n as [|n IH]; intros val acc shift Hv.
  - cbn [writeVarint32 readVarint32 app]. cbn in Hv.
    rewrite to_N_byte_of_N_small by lia.
    rewrite N.mod_small by lia.
    replace (val <? 128)%N with true by (symmetry; apply N.ltb_lt; lia). reflexivity.
  - cbn [writeVarint32]. destruct (127 <? val)%N eqn:E.
    + apply N.ltb_lt in E. cbn [readVarint32 app].
      assert (Hm : (val mod 128 < 128)%N) by (apply N.mod_lt; lia).
      rewrite to_N_byte_of_N_small by divmod.
      replace (val mod 128 + 128 <? 128)%N with false by (symmetry; apply N.ltb_ge; divmod).
      rewrite IH.
      * f_equal. f_equal.
        replace ((val mod 128 + 128) mod 128)%N with (val mod 128)%N
          by (rewrite <- N.Div0.add_mod_idemp_r; cbn; rewrite N.add_0_r, N.Div0.mod_mod; reflexivity).
        rewrite N.pow_add_r.
        rewrite (N.div_mod val 128) at 3 by lia. lia.
      * replace (7 * N.of_nat (S n) + 4)%N with (7 + (7 * N.of_nat n + 4))%N in Hv by lia.
        rewrite N.pow_add_r in Hv. apply N.Div0.div_lt_upper_bound. exact Hv.
    + apply N.ltb_ge in E. cbn [readVarint32 app].
      rewrite to_N_byte_of_N_small by lia. rewrite N.mod_small by lia.
      replace (val <? 128)%N with true by (symmetry; apply N.ltb_lt; lia). reflexivity.
Qed.

Lemma reader_uint32_writer (v : N) (rest : bytes) :
  (v < 2 ^ 32)%N -> reader_uint32 (writer_uint32 v ++ rest) = Some (v, rest).
Proof.
  intros Hv. unfold reader_uint32, writer_uint32. rewrite N.mod_small by exact Hv.
  rewrite readVarint32_write by (cbn; exact Hv). f_equal. f_equal. cbn. lia.
Qed.

Lemma writer_uint32_nonempty (v : N) : 0 < length (writer_uint32 v).
Proof.
  unfold writer_uint32. generalize (v mod 2 ^ 32)%N. generalize 4.
  intros n w. destruct n; cbn; [lia|]. destruct (127 <? w)%N; cbn; lia.
Qed.

Lemma reader_bytes_writer (b rest : bytes) :
  (N.of_nat (length b) < 2 ^ 32)%N ->
  reader_bytes (writer_bytes b ++ rest) = Some (b, rest).
Proof.
  intros Hb. unfold reader_bytes, writer_bytes. rewrite <- app_assoc.
  rewrite reader_uint32_writer by exact Hb. cbn [mbind option_bind].
  rewrite length_app.
  replace (N.of_nat (length b + length rest) <? N.of_nat (length b))%N with false
    by (symmetry; apply N.ltb_ge; lia).
  rewrite Nat2N.id, firstn_app, Nat.sub_diag, firstn_all, firstn_O, app_nil_r.
  rewrite skipn_app, Nat.sub_diag, skipn_all. reflexivity.
Qed.

Lemma reader_string_writer (s : string) (rest : bytes) :
  (N.of_nat (String.length s) < 2 ^ 32)%N ->
  reader_string (writer_string s ++ rest) = Some (s, rest).
Proof.
  intros Hs. unfold reader_string, writer_string.
  rewrite reader_bytes_writer by now rewrite utf8_encode_length.
  cbn. now rewrite utf8_decode_encode.
Qed.

Lemma reader_bool_writer (b : bool) (rest : bytes) :
  reader_bool (writer_bool b ++ rest) = Some (b, rest).
Proof. destruct b; reflexivity. Qed.

Lemma Long_fromBigInt_wf (z : Z) : Long_wf (Long_fromBigInt z).
Proof.
  unfold Long_wf, Long_fromBigInt. cbn [Long_low Long_high].
  change 4294967295%Z with (Z.ones 32). rewrite !Z.land_ones by lia.
  split; apply Z.mod_pos_bound; lia.
Qed.

Lemma Long_toBigInt_fromBigInt (z : Z) :
  (- 2 ^ 63 <= z < 2 ^ 63)%Z -> Long_toBigInt (Long_fromBigInt z) = z.
Proof.
  intros Hz. unfold Long_toBigInt, Long_fromBigInt. cbn [Long_low Long_high].
  change 4294967295%Z with (Z.ones 32). rewrite !Z.land_ones by lia.
  rewrite Z.shiftr_div_pow2 by lia. rewrite !Z.mod_mod by lia.
  assert (E : ((z / 2 ^ 32) mod 2 ^ 32 * 2 ^ 32 + z mod 2 ^ 32 = z mod 2 ^ 64)%Z).
  { change (2 ^ 64)%Z with (2 ^ 32 * 2 ^ 32)%Z. rewrite Z.rem_mul_r by lia. lia. }
  rewrite E. destruct (z mod 2 ^ 64 <? 2 ^ 63)%Z eqn:C.
  - apply Z.ltb_lt in C. divmod.
  - apply Z.ltb_ge in C. divmod.
Qed.

Lemma Long_fromBigInt_zero (z : Z) :
  (- 2 ^ 63 <= z < 2 ^ 63)%Z -> z <> 0%Z -> Long_toBigInt (Long_fromBigInt z) <> 0%Z.
Proof. intros. now rewrite Long_toBigInt_fromBigInt. Qed.

Lemma readFixed32_write (v : Z) :
  (0 <= v < 2 ^ 32)%Z ->
  match writeFixed32 v with
  | [b0; b1; b2; b3] => readFixed32 b0 b1 b2 b3 = v
  | _ => False
  end.
Proof.
  intros Hv. unfold writeFixed32, readFixed32, byte_of_Z.
  rewrite !to_N_byte_of_N_small
    by (apply N2Z.inj_lt; rewrite Z2N.id by (apply Z.mod_pos_bound; lia);
        apply Z.mod_pos_bound; lia).
  rewrite !Z2N.id by (apply Z.mod_pos_bound; lia). divmod.
Qed.

Lemma reader_sfixed64_writer (l : Long) (rest : bytes) :
  Long_wf l -> reader_sfixed64 (writer_sfixed64 l ++ rest) = Some (l, rest).
Proof.
  intros [Hl Hh]. unfold writer_sfixed64.
  pose proof (readFixed32_write _ Hl) as E1. pose proof (readFixed32_write _ Hh) as E2.
  unfold writeFixed32 in *. cbn [app reader_sfixed64]. rewrite E1, E2. now destruct l.
Qed.

(** ** The decoding loop on encoded fields *)

Lemma decode_loop_done {M : Type} step fuel stop bs (m : M) :
  length bs <= stop -> decode_loop step fuel stop bs m = Some (m, bs).
Proof.
  intros H. destruct fuel; cbn [decode_loop];
    (replace (length bs <=? stop) with true by (symmetry; now apply Nat.leb_le));
    reflexivity.
Qed.

Lemma decode_loop_step {M : Type} step fuel stop bs t r (m m' : M) r' :
  stop < length bs ->
  reader_uint32 bs = Some (t, r) ->
  step fuel t r m = Some (m', r') ->
  decode_loop step (S fuel) stop bs m = decode_loop step fuel stop r' m'.
Proof.
  intros H E1 E2. cbn [decode_loop].
  replace (length bs <=? stop) with false by (symmetry; apply Nat.leb_gt; lia).
  rewrite E1. cbn [mbind option_bind]. rewrite E2. reflexivity.
Qed.

Lemma field_length {A : Type} id wt (write : A -> bytes) (v : option A) :
  match v with Some _ => 0 < length (field id wt write v) | None => field id wt write v = [] end.
Proof.
  destruct v; [|reflexivity]. cbn [field]. rewrite length_app.
  pose proof (writer_uint32_nonempty (id * 8 + wt)). lia.
Qed.

Lemma opt_set_other {M A B : Type} (proj : M -> B) (set : M -> A -> M) m v :
  (forall x, proj (set m x) = proj m) -> proj (opt_set set m v) = proj m.
Proof. intros H. destruct v; cbn; auto. Qed.

Lemma opt_set_same {M A : Type} (proj : M -> option A) (set : M -> A -> M) m v :
  (forall x, proj (set m x) = Some x) ->
  proj (opt_set set m v) = match v with Some x => Some x | None => proj m end.
Proof. intros H. destruct v; cbn; auto. Qed.

Ltac project_field :=
  rewrite ?opt_set_other by reflexivity;
  rewrite opt_set_same by reflexivity;
  rewrite ?opt_set_other by reflexivity;
  match goal with |- match ?v with _ => _ end = _ => destruct v; reflexivity end.

(** One field of an encoded message: when the property is set the loop
    takes one turn and assigns it; when it is not, nothing was written. *)
Lemma decode_loop_field {M A : Type} step (id wt : N) (write : A -> bytes)
    (set : M -> A -> M) (v : option A) fuel stop rest (m : M) :
  (id * 8 + wt < 2 ^ 32)%N ->
  (forall x, v = Some x -> forall f r m,
     step f (id * 8 + wt)%N (write x ++ r) m = Some (set m x, r)) ->
  stop <= length rest ->
  length (field id wt write v ++ rest) <= fuel ->
  exists fuel', length rest <= fuel' /\
    decode_loop step fuel stop (field id wt write v ++ rest) m
    = decode_loop step fuel' stop rest (opt_set set m v).
Proof.
  intros Ht Hstep Hstop Hfuel. destruct v as [x|].
  - pose proof (field_length id wt write (Some x)) as Hl. cbn beta iota in Hl.
    rewrite length_app in Hfuel.
    destruct fuel as [|fuel]; [lia|]. exists fuel. split; [lia|].
    cbn [field]. rewrite <- app_assoc.
    eapply decode_loop_step.
    + rewrite !length_app. pose proof (writer_uint32_nonempty (id * 8 + wt)). lia.
    + apply reader_uint32_writer, Ht.
    + now apply Hstep.
  - exists fuel. cbn [field app] in *. split; [lia | reflexivity].
Qed.

(** ** [SignedInvite] round trip *)

Lemma SignedInviteType_roundtrip (m : SignedInviteMessage) :
  (forall v, msg_payload m = Some v -> N.of_nat (length v) < 2 ^ 32)%N ->
  (forall v, msg_signature m = Some v -> N.of_nat (length v) < 2 ^ 32)%N ->
  SignedInviteType_decode (SignedInviteType_encode m) = Some m.
Proof.
  intros H1 H2. unfold SignedInviteType_decode, decode_message, SignedInviteType_encode.
  set (fuel := S _).
  assert (Hfuel : length (field 1 2 writer_bytes (msg_payload m)
                          ++ field 2 2 writer_bytes (msg_signature m) ++ []) <= fuel).
  { subst fuel. rewrite app_nil_r. lia. }
  replace (field 1 2 writer_bytes (msg_payload m) ++ field 2 2 writer_bytes (msg_signature m))
    with (field 1 2 writer_bytes (msg_payload m)
          ++ field 2 2 writer_bytes (msg_signature m) ++ []) by now rewrite app_nil_r.
  destruct (decode_loop_field SignedInviteType_step 1 2 writer_bytes set_payload
              (msg_payload m) fuel 0 (field 2 2 writer_bytes (msg_signature m) ++ [])
              SignedInviteMessage_empty) as (f1 & Hf1 & ->);
    [ now vm_compute | | lia | exact Hfuel | ].
  { intros x Hx f r m0. unfold SignedInviteType_step.
    change ((1 * 8 + 2) / 8)%N with 1%N. cbv iota.
    rewrite reader_bytes_writer by eauto. reflexivity. }
  destruct (decode_loop_field SignedInviteType_step 2 2 writer_bytes set_signature
              (msg_signature m) f1 0 []
              (opt_set set_payload SignedInviteMessage_empty (msg_payload m)))
    as (f2 & Hf2 & ->);
    [ now vm_compute | | cbn; lia | exact Hf1 | ].
  { intros x Hx f r m0. unfold SignedInviteType_step.
    change ((2 * 8 + 2) / 8)%N with 2%N. cbv iota.
    rewrite reader_bytes_writer by eauto. reflexivity. }
  rewrite decode_loop_done by (cbn; lia). cbn.
  destruct m as [[p|] [s|]]; reflexivity.
Qed.

Lemma decodeSignedInvite_encode (invite : SignedInvite) :
  (N.of_nat (length (si_payload invite)) < 2 ^ 32)%N ->
  (N.of_nat (length (si_signature invite)) < 2 ^ 32)%N ->
  decodeSignedInvite (encodeSignedInvite invite) = Some invite.
Proof.
  intros H1 H2. unfold decodeSignedInvite, encodeSignedInvite.
  rewrite SignedInviteType_roundtrip; cbn.
  - now destruct invite.
  - intros v [= <-]. exact H1.
  - intros v [= <-]. exact H2.
Qed.

(** ** [InvitePayload] round trip *)

Lemma opt_ok_Some {A : Type} (P : A -> Prop) (x : A) : P x -> opt_ok P (Some x).
Proof. intros H y [= <-]. exact H. Qed.

Lemma opt_ok_None {A : Type} (P : A -> Prop) : opt_ok P None.
Proof. intros y [=]. Qed.

Lemma InvitePayloadMessage_ext (a b : InvitePayloadMessage) :
  msg_conversationToken a = msg_conversationToken b ->
  msg_creatorInboxId a = msg_creatorInboxId b ->
  msg_tag a = msg_tag b -> msg_name a = msg_name b ->
  msg_description a = msg_description b -> msg_imageURL a = msg_imageURL b ->
  msg_conversationExpiresAtUnix a = msg_conversationExpiresAtUnix b ->
  msg_expiresAtUnix a = msg_expiresAtUnix b ->
  msg_expiresAfterUse a = msg_expiresAfterUse b -> a = b.
Proof. destruct a, b; cbn; intros; subst; reflexivity. Qed.

(** The turn of the loop for the field at the head of the input. *)
Ltac next_field set Hfuel tac :=
  lazymatch goal with
  | |- context [decode_loop ?step ?fuel ?stop (field ?id ?wt ?write ?v ++ ?rest) ?m] =>
      let f := fresh "fuel" in
      let Hf := fresh "Hfuel" in
      destruct (decode_loop_field step id wt write set v fuel stop rest m)
        as (f & Hf & ->);
      [ now vm_compute
      | let x := fresh "x" in let Hx := fresh "Hx" in
        intros x Hx ? ? ?; unfold step;
        let n := eval vm_compute in ((id * 8 + wt) / 8)%N in
        change ((id * 8 + wt) / 8)%N with n; cbv iota; tac; reflexivity
      | try (cbn; rewrite ?length_app; lia)
      | exact Hfuel
      | clear Hfuel; rename Hf into Hfuel ]
  end.

Lemma InvitePayloadType_roundtrip (m : InvitePayloadMessage) :
  InvitePayloadMessage_ok m ->
  InvitePayloadType_decode (InvitePayloadType_encode m) = Some m.
Proof.
  intros [H1 H2 H3 H4 H5 H6 H7 H8].
  unfold InvitePayloadType_decode, decode_message, InvitePayloadType_encode.
  set (fuel := S _).
  replace (field 9 0 writer_bool (msg_expiresAfterUse m))
    with (field 9 0 writer_bool (msg_expiresAfterUse m) ++ []) by apply app_nil_r.
  assert (Hfuel : length (field 1 2 writer_bytes (msg_conversationToken m)
    ++ field 2 2 writer_bytes (msg_creatorInboxId m)
    ++ field 3 2 writer_string (msg_tag m)
    ++ field 4 2 writer_string (msg_name m)
    ++ field 5 2 writer_string (msg_description m)
    ++ field 6 2 writer_string (msg_imageURL m)
    ++ field 7 1 writer_sfixed64 (msg_conversationExpiresAtUnix m)
    ++ field 8 1 writer_sfixed64 (msg_expiresAtUnix m)
    ++ field 9 0 writer_bool (msg_expiresAfterUse m) ++ []) <= fuel)
    by (subst fuel; rewrite app_nil_r; lia).
  clearbody fuel.
  next_field set_conversationToken Hfuel ltac:(rewrite reader_bytes_writer by (eapply H1; eauto)).
  next_field set_creatorInboxId Hfuel ltac:(rewrite reader_bytes_writer by (eapply H2; eauto)).
  next_field set_tag Hfuel ltac:(rewrite reader_string_writer by (eapply H3; eauto)).
  next_field set_name Hfuel ltac:(rewrite reader_string_writer by (eapply H4; eauto)).
  next_field set_description Hfuel ltac:(rewrite reader_string_writer by (eapply H5; eauto)).
  next_field set_imageURL Hfuel ltac:(rewrite reader_string_writer by (eapply H6; eauto)).
  next_field set_conversationExpiresAtUnix Hfuel
    ltac:(rewrite reader_sfixed64_writer by (eapply H7; eauto)).
  next_field set_expiresAtUnix Hfuel
    ltac:(rewrite reader_sfixed64_writer by (eapply H8; eauto)).
  next_field set_expiresAfterUse Hfuel ltac:(rewrite reader_bool_writer).
  rewrite decode_loop_done by (cbn; lia). cbn [mbind option_bind]. f_equal.
  apply InvitePayloadMessage_ext; project_field.
Qed.

(** ** [encodeInvitePayload] and [decodeInvitePayload] *)

Lemma bigint_unless_zero_default (v : option Z) :
  opt_ok int64 v ->
  bigint_unless_zero (default Long_zero (Long_of_truthy v)) = nonzero v.
Proof.
  intros H. destruct v as [z|]; [|reflexivity]. unfold Long_of_truthy, nonzero.
  destruct (z =? 0)%Z eqn:E; [reflexivity|]. cbn [default from_option id].
  unfold bigint_unless_zero, object_truthy. cbn [andb]. rewrite Long_toBigInt_fromBigInt by now apply H.
  rewrite E. reflexivity.
Qed.

Lemma Long_of_truthy_wf (v : option Z) : opt_ok Long_wf (Long_of_truthy v).
Proof.
  intros l. destruct v as [z|]; [|discriminate]. unfold Long_of_truthy.
  destruct (z =? 0)%Z; [discriminate|]. intros [= <-]. apply Long_fromBigInt_wf.
Qed.

Lemma or_undefined_default (o : option string) :
  or_undefined (default "" o) = o ≫= or_undefined.
Proof. destruct o; reflexivity. Qed.

Lemma decodeInvitePayload_encode (p : InvitePayload) :
  InvitePayload_ok p ->
  decodeInvitePayload (encodeInvitePayload p) = Some (payload_read_back p).
Proof.
  intros [H1 H2 H3 H4 H5 H6 H7 H8]. unfold decodeInvitePayload, encodeInvitePayload.
  rewrite InvitePayloadType_roundtrip.
  - cbn [mbind option_bind msg_conversationToken msg_creatorInboxId msg_tag msg_name
         msg_description msg_imageURL msg_conversationExpiresAtUnix msg_expiresAtUnix
         msg_expiresAfterUse].
    change (default [] (Some ?x)) with x. change (default "" (Some ?x)) with x.
    change (default false (Some ?x)) with x.
    rewrite !or_undefined_default, !bigint_unless_zero_default by assumption.
    reflexivity.
  - constructor; cbn; auto using opt_ok_Some, Long_of_truthy_wf.
Qed.

(** ** Hex *)

Lemma hex_pair_lower (c1 c2 : ascii) :
  is_hex_char c1 = true -> is_hex_char c2 = true ->
  byte_hex (toUint8 (parseInt16 c1 c2))
  = String (lower_char c1) (String (lower_char c2) EmptyString).
Proof.
  intros H1 H2.
  pose (chk := fun c1 c2 =>
    negb (is_hex_char c1 && is_hex_char c2)
    || String.eqb (byte_hex (toUint8 (parseInt16 c1 c2)))
                  (String (lower_char c1) (String (lower_char c2) EmptyString))).
  assert (E : chk c1 c2 = true) by (apply forall_char2; now vm_compute).
  unfold chk in E. rewrite H1, H2 in E. cbn [andb negb orb] in E.
  now apply String.eqb_eq in E.
Qed.

Lemma lower_hex_is_hex (c : ascii) : is_lower_hex_char c = true -> is_hex_char c = true.
Proof. revert c. apply char_impl. now vm_compute. Qed.

Lemma lower_hex_lower (c : ascii) : is_lower_hex_char c = true -> lower_char c = c.
Proof.
  intros H.
  assert (E : ascii_eqb (lower_char c) c = true) by (revert c H; apply char_impl; now vm_compute).
  now apply ascii_eqb_eq in E.
Qed.

Lemma string_ind2 (P : string -> Prop) :
  P EmptyString -> (forall c, P (String c EmptyString)) ->
  (forall c1 c2 r, P r -> P (String c1 (String c2 r))) -> forall s, P s.
Proof.
  intros H0 H1 H2. fix IH 1. intros [|c1 [|c2 r]]; [exact H0 | exact (H1 c1) |].
  exact (H2 c1 c2 r (IH r)).
Qed.

Lemma bytesToHex_hex_pairs (s : string) :
  is_lower_hex s = true -> bytesToHex (hex_pairs s) = s.
Proof.
  unfold is_lower_hex. induction s as [|c|c1 c2 r IH] using string_ind2; intros H.
  - reflexivity.
  - cbn in H. discriminate.
  - cbn [String.length Nat.even string_forallb] in H.
    apply andb_prop in H as [He H]. apply andb_prop in H as [H1 H].
    apply andb_prop in H as [H2 H].
    cbn [hex_pairs bytesToHex].
    rewrite hex_pair_lower by now apply lower_hex_is_hex.
    rewrite !lower_hex_lower by assumption.
    rewrite IH by now rewrite He, H. reflexivity.
Qed.

(** A lowercase hex string of even length survives the two conversions. *)
Lemma js_length_ascii (s : string) :
  string_forallb is_ascii_char s = true -> js_length s = String.length s.
Proof.
  induction s as [|c r IH]; [reflexivity|]. cbn [string_forallb js_length String.length].
  intros H. apply andb_prop in H as [Hc Hr]. rewrite (IH Hr).
  unfold utf16_units. unfold is_ascii_char in Hc. now rewrite Hc.
Qed.

Lemma unit_pairs_ascii (s : string) :
  string_forallb is_ascii_char s = true -> unit_pairs (code_units s) = hex_pairs s.
Proof.
  induction s as [|c|c1 c2 r IH] using string_ind2; intros H.
  - reflexivity.
  - cbn [string_forallb] in H. apply andb_prop in H as [Hc _].
    unfold is_ascii_char in Hc. cbn [code_units]. rewrite Hc. reflexivity.
  - cbn [string_forallb] in H. apply andb_prop in H as [H1 H].
    apply andb_prop in H as [H2 H]. unfold is_ascii_char in H1, H2.
    cbn [code_units]. rewrite H1, H2. cbn [unit_pairs parseInt16_units hex_pairs].
    now rewrite (IH H).
Qed.

Lemma hexToBytes_ascii (s : string) :
  string_forallb is_ascii_char s = true ->
  hexToBytes s = if Nat.even (String.length s) then Some (hex_pairs s) else None.
Proof.
  intros H. unfold hexToBytes. now rewrite js_length_ascii, unit_pairs_ascii.
Qed.

Lemma hex_chars_ascii (s : string) :
  string_forallb is_hex_char s = true -> string_forallb is_ascii_char s = true.
Proof. apply string_forallb_impl, char_impl. now vm_compute. Qed.

Lemma lower_hex_chars_ascii (s : string) :
  string_forallb is_lower_hex_char s = true -> string_forallb is_ascii_char s = true.
Proof. apply string_forallb_impl, char_impl. now vm_compute. Qed.

Lemma bytesToHex_hexToBytes (s : string) :
  is_lower_hex s = true ->
  exists bs, hexToBytes s = Some bs /\ bytesToHex bs = s.
Proof.
  intros H. exists (hex_pairs s). split; [|now apply bytesToHex_hex_pairs].
  unfold is_lower_hex in H. apply andb_prop in H as [He Hc].
  rewrite hexToBytes_ascii by now apply lower_hex_chars_ascii. now rewrite He.
Qed.

Lemma hex_pairs_length (s : string) : 2 * length (hex_pairs s) <= String.length s.
Proof.
  induction s as [|c|c1 c2 r IH] using string_ind2; cbn [hex_pairs length String.length]; lia.
Qed.

(** ** The packed conversation id *)

Lemma hex_run_inv (n : nat) (s r : string) :
  hex_run (S n) s = Some r ->
  exists c s', s = String c s' /\ is_hex_char c = true /\ hex_run n s' = Some r.
Proof.
  cbn [hex_run]. destruct s as [|c s']; [discriminate|].
  destruct (is_hex_char c) eqn:E; [|discriminate]. eauto.
Qed.

Lemma dash_then_inv (k : string -> bool) (s : option string) :
  dash_then k s = true -> exists r, s = Some (String "-" r) /\ k r = true.
Proof.
  destruct s as [[|c r]|]; try discriminate. cbn. intros H.
  apply andb_prop in H as [H1 H2]. apply ascii_eqb_eq in H1. subst. eauto.
Qed.

Lemma hex_not_dash (c : ascii) : is_hex_char c = true -> negb (ascii_eqb c "-") = true.
Proof. revert c. apply char_impl. now vm_compute. Qed.

Lemma string_filter_keep (p : ascii -> bool) (c : ascii) (r : string) :
  p c = true -> string_filter p (String c r) = String c (string_filter p r).
Proof. cbn. now intros ->. Qed.

Lemma string_filter_skip (p : ascii -> bool) (c : ascii) (r : string) :
  p c = false -> string_filter p (String c r) = string_filter p r.
Proof. cbn. now intros ->. Qed.

Ltac hex_runs H :=
  repeat (apply hex_run_inv in H;
          let c := fresh "c" in let Hc := fresh "Hc" in
          destruct H as (c & ? & -> & Hc & H)).

Lemma UUID_shape (u : string) :
  UUID_PATTERN_test u = true ->
  length (uuidToBytes u) = 16 /\ bytesToUuid (uuidToBytes u) = toLowerCase u.
Proof.
  unfold UUID_PATTERN_test. intros H.
  apply dash_then_inv in H as (r1 & H8 & H).
  apply dash_then_inv in H as (r2 & H4a & H).
  apply dash_then_inv in H as (r3 & H4b & H).
  apply dash_then_inv in H as (r4 & H4c & H).
  destruct (hex_run 12 r4) as [[|]|] eqn:H12; try discriminate. clear H.
  hex_runs H12. cbn [hex_run] in H12. injection H12 as ->.
  hex_runs H4c. cbn [hex_run] in H4c. injection H4c as ->.
  hex_runs H4b. cbn [hex_run] in H4b. injection H4b as ->.
  hex_runs H4a. cbn [hex_run] in H4a. injection H4a as ->.
  hex_runs H8. cbn [hex_run] in H8. injection H8 as ->.
  unfold uuidToBytes, bytesToUuid.
  repeat first [ rewrite string_filter_keep by (apply hex_not_dash; assumption)
               | rewrite string_filter_skip by reflexivity ].
  cbn [string_filter hex_pairs app firstn length bytesToHex].
  rewrite !hex_pair_lower by assumption.
  split; [reflexivity|].
  cbn [String.append string_take string_drop toLowerCase].
  reflexivity.
Qed.

Lemma be16_join (d2 d3 : byte) :
  N.lor (N.shiftl (Byte.to_N d2) 8) (Byte.to_N d3) = (Byte.to_N d2 * 256 + Byte.to_N d3)%N.
Proof.
  pose (chk := fun d2 d3 =>
    (N.lor (N.shiftl (Byte.to_N d2) 8) (Byte.to_N d3) =? Byte.to_N d2 * 256 + Byte.to_N d3)%N).
  assert (E : chk d2 d3 = true).
  { apply (forall_byte (chk d2)).
    apply (forall_byte (fun a => forallb (chk a) all_bytes)). now vm_compute. }
  now apply N.eqb_eq in E.
Qed.

Lemma unpack_pack (conversationId : string) :
  packable conversationId ->
  unpackConversationId (packConversationId conversationId)
  = Some (canonical_id conversationId).
Proof.
  unfold packable, canonical_id, packConversationId.
  destruct (UUID_PATTERN_test conversationId) eqn:U.
  - intros _. destruct (UUID_shape _ U) as [Hl Hu].
    unfold unpackConversationId. rewrite byte_eqb_refl.
    cbn [length]. rewrite Hl. cbn [Nat.eqb negb]. now rewrite Hu.
  - intros [H|H]; [discriminate|].
    pose proof (utf8_encode_length conversationId) as Hn.
    set (bs := utf8_encode conversationId) in *. clearbody bs.
    rewrite <- Hn in H. clear Hn. unfold unpackConversationId.
    destruct (length bs <=? 255) eqn:C.
    + apply Nat.leb_le in C.
      change (byte_eqb TYPE_STRING TYPE_UUID) with false.
      change (byte_eqb TYPE_STRING TYPE_STRING) with true. cbv iota.
      assert (E : Byte.to_N (byte_of_N (N.of_nat (length bs))) = N.of_nat (length bs))
        by (apply to_N_byte_of_N_small; lia).
      replace (byte_eqb (byte_of_N (N.of_nat (length bs))) x00) with false
        by (symmetry; unfold byte_eqb; rewrite E; apply N.eqb_neq; cbn; lia).
      rewrite E, Nat2N.id. cbn [mbind option_bind length skipn].
      rewrite Nat.eqb_refl. cbn [negb]. rewrite skipn_O, firstn_all. reflexivity.
    + apply Nat.leb_gt in C.
      change (byte_eqb TYPE_STRING TYPE_UUID) with false.
      change (byte_eqb TYPE_STRING TYPE_STRING) with true. cbv iota.
      change (byte_eqb x00 x00) with true. cbv iota.
      rewrite be16_join.
      change 255%N with (N.ones 8). rewrite !N.land_ones, N.shiftr_div_pow2.
      rewrite !to_N_byte_of_N.
      replace (((N.of_nat (length bs) / 2 ^ 8) mod 2 ^ 8) mod 256 * 256
               + (N.of_nat (length bs) mod 2 ^ 8) mod 256)%N
        with (N.of_nat (length bs)) by (change (2 ^ 8)%N with 256%N; divmod).
      rewrite Nat2N.id. cbn [mbind option_bind length skipn].
      replace (S (S (S (S (length bs)))) =? 4 + length bs) with true
        by (symmetry; apply Nat.eqb_eq; lia).
      cbn [negb]. rewrite ?skipn_O, firstn_all. reflexivity.
Qed.

(** The empty id is outside the format: its length byte 0 marks the
    long form. *)
Lemma unpack_pack_empty : unpackConversationId (packConversationId "") = None.
Proof. reflexivity. Qed.

(** An id that is not a UUID and does not begin with a byte order mark
    is read back as it is. *)
Lemma canonical_id_plain (conversationId : string) :
  UUID_PATTERN_test conversationId = false ->
  strip_BOM (utf8_encode conversationId) = utf8_encode conversationId ->
  canonical_id conversationId = conversationId.
Proof.
  intros U B. unfold canonical_id, TextDecoder_decode. rewrite U, B.
  apply utf8_decode_encode.
Qed.

(** ** The conversation token *)

Section Token.
Context `{L : PlatformLaws}.

Lemma decrypt_encrypt (nonce plaintext key aad : bytes) :
  length key = 32 -> length nonce = 12 ->
  exists encrypted, encrypt nonce plaintext key aad = Some encrypted /\
    length encrypted = 12 + length plaintext + 16 /\
    decrypt encrypted key aad = Some plaintext.
Proof.
  intros Hk Hn. destruct (chacha_roundtrip key nonce aad plaintext Hk Hn)
    as (ct & He & Hl & Hd).
  exists (nonce ++ ct). unfold encrypt, decrypt. rewrite He. cbn [mbind option_bind].
  split; [reflexivity|]. rewrite length_app, Hn, Hl. split; [lia|].
  unfold NONCE_LENGTH, TAG_LENGTH.
  replace (12 + (length plaintext + 16) <? 12 + 16) with false
    by (symmetry; apply Nat.ltb_ge; lia).
  rewrite firstn_app, skipn_app, Hn. cbn [Nat.sub firstn skipn].
  rewrite firstn_all2 by lia. rewrite skipn_all2 by lia.
  now rewrite app_nil_r.
Qed.

Lemma decryptConversationToken_encrypt (nonce : bytes) (conversationId inbox : string)
    (privateKey : bytes) :
  length nonce = 12 -> packable conversationId ->
  exists token, encryptConversationToken nonce conversationId inbox privateKey = Some token /\
    length token = 29 + length (packConversationId conversationId) /\
    decryptConversationToken token inbox privateKey = Some (canonical_id conversationId).
Proof.
  intros Hn Hp. unfold encryptConversationToken, decryptConversationToken.
  destruct (decrypt_encrypt nonce (packConversationId conversationId)
              (deriveInviteKey privateKey inbox) (utf8_encode inbox))
    as (enc & He & Hl & Hd); [apply hkdf_length | exact Hn |].
  exists (FORMAT_VERSION :: enc). rewrite He. cbn [mbind option_bind].
  split; [reflexivity|]. split; [cbn [length]; lia|].
  rewrite byte_eqb_refl. cbn [negb]. rewrite Hd. cbn [mbind option_bind].
  now apply unpack_pack.
Qed.

End Token.

(** ** Verification *)

Lemma xor_accumulate_refl (r : N) (a : bytes) : xor_accumulate r a a = r.
Proof.
  revert r. induction a as [|x a IH]; intros r; cbn; [reflexivity|].
  now rewrite N.lxor_nilpotent, N.lor_0_r, IH.
Qed.

Lemma xor_accumulate_zero (r : N) (a b : bytes) :
  length a = length b -> xor_accumulate r a b = 0%N -> r = 0%N /\ a = b.
Proof.
  revert r b. induction a as [|x a IH]; intros r [|y b] Hl H; try discriminate.
  - now cbn in H.
  - cbn in H. apply IH in H as [H ->]; [|cbn in Hl; lia].
    apply N.lor_eq_0_iff in H as [-> H]. apply N.lxor_eq in H. apply to_N_inj in H.
    now subst.
Qed.

(** [constantTimeEqual] decides equality of byte strings. *)
Lemma constantTimeEqual_spec (a b : bytes) : constantTimeEqual a b = true <-> a = b.
Proof.
  unfold constantTimeEqual. split.
  - destruct (length a =? length b) eqn:E; cbn [negb]; [|discriminate].
    apply Nat.eqb_eq in E. intros H. apply N.eqb_eq in H.
    now apply xor_accumulate_zero in H.
  - intros ->. rewrite Nat.eqb_refl. cbn [negb]. rewrite xor_accumulate_refl. reflexivity.
Qed.

Section Verification.
Context `{L : PlatformLaws}.

(** [verifyInvite] is [true] exactly when every step of the [try] block
    succeeds and the two normalized keys are equal. *)
Lemma verifyInvite_true (signedInvite : SignedInvite) (expected : bytes) :
  verifyInvite signedInvite expected = true <->
  exists recovered normalized,
    recoverPublicKey (hashSha256 (si_payload signedInvite)) (si_signature signedInvite)
      = Some recovered /\
    normalizePublicKey recovered = Some normalized /\
    normalizePublicKey expected = Some normalized.
Proof.
  unfold verifyInvite, verifyInvite_try.
  destruct (recoverPublicKey _ _) as [rec|]; cbn [mbind option_bind];
    [|split; [intros [=] | intros (? & ? & [=] & _)]].
  destruct (normalizePublicKey rec) as [nr|] eqn:Hr; cbn [mbind option_bind];
    [|split; [intros [=] | intros (? & ? & [= <-] & E & _); congruence]].
  destruct (normalizePublicKey expected) as [ne|]; cbn [mbind option_bind];
    [|split; [intros [=] | intros (? & ? & _ & _ & [=])]].
  rewrite constantTimeEqual_spec. split.
  - intros ->. eauto.
  - intros (? & ? & [= <-] & E1 & [= <-]). congruence.
Qed.

Lemma recoverPublicKey_length (h signature : bytes) :
  length signature <> 65 -> recoverPublicKey h signature = None.
Proof.
  intros H. unfold recoverPublicKey. apply Nat.eqb_neq in H. now rewrite H.
Qed.

Lemma recoverPublicKey_recovery_byte (h signature : bytes) (v : byte) :
  signature !! 64 = Some v -> (3 < Byte.to_N v)%N -> recoverPublicKey h signature = None.
Proof.
  intros Hv H. unfold recoverPublicKey.
  destruct (negb (length signature =? 65)); [reflexivity|].
  rewrite Hv. cbn [mbind option_bind]. apply N.ltb_lt in H. now rewrite H.
Qed.

Lemma signWithRecovery_verify (payload privateKey pk : bytes) :
  secp_getPublicKey privateKey = Some pk ->
  exists signature,
    signWithRecovery (hashSha256 payload) privateKey = Some signature /\
    length signature = 65 /\
    verifyInvite {| si_payload := payload; si_signature := signature |} pk = true.
Proof.
  intros Hk.
  destruct (sign_recover (sha256 payload) privateKey pk (sha256_length payload) Hk)
    as (c & v & Hs & Hc & Hv & Hr).
  assert (E : <[64 := v]> (firstn 65 (c ++ repeat x00 65)) = c ++ [v]).
  { rewrite firstn_app, Hc. rewrite firstn_all2 by lia.
    change (firstn (65 - 64) (repeat x00 65)) with [x00].
    rewrite insert_app_r_alt by lia. rewrite Hc. reflexivity. }
  exists (c ++ [v]). unfold signWithRecovery, hashSha256. rewrite Hs.
  cbn [mbind option_bind]. rewrite Hc. change (65 <? 64) with false. cbv iota.
  split; [now rewrite E|]. split; [rewrite length_app, Hc; reflexivity|].
  apply verifyInvite_true. exists pk, pk. cbn [si_payload si_signature].
  pose proof (getPublicKey_length _ _ Hk) as Hpk.
  assert (Hn : normalizePublicKey pk = Some pk).
  { unfold normalizePublicKey. now rewrite Hpk. }
  split; [|split; exact Hn].
  unfold recoverPublicKey, hashSha256. rewrite length_app, Hc. cbn [length Nat.add Nat.eqb negb].
  rewrite lookup_app_r by lia. rewrite Hc. cbn [Nat.sub lookup list_lookup mbind option_bind].
  replace (3 <? Byte.to_N v)%N with false by (symmetry; apply N.ltb_ge; lia).
  rewrite firstn_app, Hc, firstn_all2 by lia. cbn [Nat.sub firstn]. now rewrite app_nil_r.
Qed.

End Verification.

(** ** Sizes of encodings *)

Lemma writer_bytes_length (v : bytes) : length v <= length (writer_bytes v).
Proof. unfold writer_bytes. rewrite length_app. lia. Qed.

Lemma writer_string_length (s : string) : String.length s <= length (writer_string s).
Proof.
  unfold writer_string. pose proof (writer_bytes_length (utf8_encode s)) as H.
  now rewrite utf8_encode_length in H.
Qed.

Lemma field_bytes_small (id : N) (v : option bytes) (n : nat) :
  length (field id 2 writer_bytes v) <= n -> (N.of_nat n < 2 ^ 32)%N -> opt_ok small_bytes v.
Proof.
  intros H Hn x ->. unfold small_bytes. cbn [field] in H. rewrite length_app in H.
  pose proof (writer_bytes_length x). lia.
Qed.

Lemma field_string_small (id : N) (v : option string) (n : nat) :
  length (field id 2 writer_string v) <= n -> (N.of_nat n < 2 ^ 32)%N -> opt_ok small_string v.
Proof.
  intros H Hn x ->. unfold small_string. cbn [field] in H. rewrite length_app in H.
  pose proof (writer_string_length x). lia.
Qed.

Lemma unix_seconds_int64 (d : option Z) : opt_ok valid_date d -> opt_ok int64 (unix_seconds d).
Proof.
  intros H z. destruct d as [ms|]; [|discriminate]. cbn. intros [= <-].
  specialize (H ms eq_refl). unfold valid_date in H. unfold int64.
  split.
  - apply Z.div_le_lower_bound; lia.
  - apply Z.div_lt_upper_bound; lia.
Qed.

Lemma encodeInvitePayload_ok (p : InvitePayload) :
  (N.of_nat (length (encodeInvitePayload p)) < 2 ^ 32)%N ->
  opt_ok int64 (ip_conversationExpiresAtUnix p) -> opt_ok int64 (ip_expiresAtUnix p) ->
  InvitePayload_ok p.
Proof.
  intros H H7 H8. unfold encodeInvitePayload, InvitePayloadType_encode in H.
  cbn [msg_conversationToken msg_creatorInboxId msg_tag msg_name msg_description
       msg_imageURL msg_conversationExpiresAtUnix msg_expiresAtUnix msg_expiresAfterUse] in H.
  rewrite !length_app in H.
  set (n := (_ + _)%nat) in H.
  assert (B : forall k, k <= n -> (N.of_nat k < 2 ^ 32)%N) by (intros; lia).
  constructor; try assumption.
  - refine (field_bytes_small 1 (Some _) _ (Nat.le_refl _) _ _ eq_refl). apply B. subst n. lia.
  - refine (field_bytes_small 2 (Some _) _ (Nat.le_refl _) _ _ eq_refl). apply B. subst n. lia.
  - refine (field_string_small 3 (Some _) _ (Nat.le_refl _) _ _ eq_refl). apply B. subst n. lia.
  - refine (field_string_small 4 _ _ (Nat.le_refl _) _). apply B. subst n. lia.
  - refine (field_string_small 5 _ _ (Nat.le_refl _) _). apply B. subst n. lia.
  - refine (field_string_small 6 _ _ (Nat.le_refl _) _). apply B. subst n. lia.
Qed.

Lemma encodeSignedInvite_shape (invite : SignedInvite) :
  exists rest, encodeSignedInvite invite = x0a :: rest /\
    length (si_payload invite) + length (si_signature invite) <= length rest.
Proof.
  unfold encodeSignedInvite, SignedInviteType_encode. cbn [msg_payload msg_signature field].
  change (writer_uint32 (1 * 8 + 2)) with [x0a].
  eexists. split; [reflexivity|]. rewrite !length_app.
  pose proof (writer_bytes_length (si_payload invite)).
  pose proof (writer_bytes_length (si_signature invite)). lia.
Qed.

(** ** Minting and parsing an invite *)

Section Invite.
Context `{L : PlatformLaws}.

(** The steps of [createInviteSlug] for a valid key, a hex inbox id and
    a conversation id of the token format. *)
Lemma signedInviteBytes_steps (nonce : bytes) (options : CreateInviteOptions) (pk : bytes) :
  length nonce = 12 ->
  secp_getPublicKey (o_privateKey options) = Some pk ->
  is_lower_hex (o_creatorInboxId options) = true ->
  packable (o_conversationId options) ->
  exists payload signature,
    invitePayload_of nonce options = Some payload /\
    signedInviteBytes nonce options
      = Some (encodeSignedInvite {| si_payload := encodeInvitePayload payload;
                                    si_signature := signature |}) /\
    length signature = 65 /\
    verifyInvite {| si_payload := encodeInvitePayload payload;
                    si_signature := signature |} pk = true /\
    bytesToHex (ip_creatorInboxId payload) = o_creatorInboxId options /\
    decryptConversationToken (ip_conversationToken payload) (o_creatorInboxId options)
      (o_privateKey options) = Some (canonical_id (o_conversationId options)) /\
    ip_tag payload = o_inviteTag options /\
    ip_name payload = o_name options /\
    ip_description payload = o_description options /\
    ip_imageURL payload = o_imageURL options /\
    ip_expiresAfterUse payload = default false (o_expiresAfterUse options) /\
    ip_expiresAtUnix payload = unix_seconds (o_expiresAt options) /\
    ip_conversationExpiresAtUnix payload = unix_seconds (o_conversationExpiresAt options).
Proof.
  intros Hn Hk Hhex Hp.
  destruct (decryptConversationToken_encrypt nonce (o_conversationId options)
              (o_creatorInboxId options) (o_privateKey options) Hn Hp)
    as (token & Ht & _ & Hd).
  destruct (bytesToHex_hexToBytes _ Hhex) as (ib & Hib & Hback).
  set (payload := {| ip_conversationToken := token; ip_creatorInboxId := ib;
                     ip_tag := o_inviteTag options; ip_name := o_name options;
                     ip_description := o_description options;
                     ip_imageURL := o_imageURL options;
                     ip_expiresAfterUse := default false (o_expiresAfterUse options);
                     ip_expiresAtUnix := unix_seconds (o_expiresAt options);
                     ip_conversationExpiresAtUnix :=
                       unix_seconds (o_conversationExpiresAt options) |}).
  assert (Hpay : invitePayload_of nonce options = Some payload).
  { unfold invitePayload_of. rewrite Ht. cbn [mbind option_bind]. rewrite Hib. reflexivity. }
  destruct (signWithRecovery_verify (encodeInvitePayload payload) _ _ Hk)
    as (signature & Hs & Hl & Hv).
  exists payload, signature. split; [exact Hpay|]. split.
  { unfold signedInviteBytes. rewrite Hpay. cbn [mbind option_bind]. rewrite Hs. reflexivity. }
  repeat split; auto.
Qed.

End Invite.

Section Parse.
Context `{L : PlatformLaws}.

(** Parsing the slug of an encoded signed invite of at most 1 MiB. *)
Lemma parseInviteSlug_encodeToSlug (now_ms : Z) (payload : InvitePayload)
    (signature : bytes) :
  let signedInvite := {| si_payload := encodeInvitePayload payload;
                         si_signature := signature |} in
  (N.of_nat (length (encodeSignedInvite signedInvite)) <= MAX_DECOMPRESSED_SIZE)%N ->
  opt_ok int64 (ip_conversationExpiresAtUnix payload) ->
  opt_ok int64 (ip_expiresAtUnix payload) ->
  parseInviteSlug now_ms (encodeToSlug (encodeSignedInvite signedInvite))
  = Some {| pi_signedInvite := signedInvite;
            pi_payload := payload_read_back payload;
            pi_creatorInboxId := bytesToHex (ip_creatorInboxId payload);
            pi_isExpired := expired_at now_ms (nonzero (ip_expiresAtUnix payload));
            pi_isConversationExpired :=
              expired_at now_ms (nonzero (ip_conversationExpiresAtUnix payload)) |}.
Proof.
  intros signedInvite Hsize H7 H8.
  destruct (encodeSignedInvite_shape signedInvite) as (rest & Hshape & Hlen).
  subst signedInvite. cbn [si_payload si_signature] in Hlen.
  assert (Hmax : (MAX_DECOMPRESSED_SIZE < 2 ^ 32)%N) by reflexivity.
  unfold parseInviteSlug.
  rewrite parseInviteCode_slug by apply encodeToSlug_slug_chars.
  rewrite decodeFromSlug_encodeToSlug.
  rewrite decompress_compressIfSmaller; [| exact Hsize | left; now rewrite Hshape].
  cbn [mbind option_bind].
  rewrite Hshape in Hsize. cbn [length] in Hsize.
  rewrite decodeSignedInvite_encode by (cbn [si_payload si_signature]; lia).
  cbn [mbind option_bind si_payload].
  rewrite decodeInvitePayload_encode by (apply encodeInvitePayload_ok; [lia | assumption..]).
  reflexivity.
Qed.

End Parse.

(** [parseInviteSlug] on the slug of [createInviteSlug], for an invite
    of at most 1 MiB. *)
Lemma parse_created_slug `{L : PlatformLaws} (nonce : bytes) (now_ms : Z)
    (options : CreateInviteOptions) (pk : bytes) :
  length nonce = 12 ->
  secp_getPublicKey (o_privateKey options) = Some pk ->
  is_lower_hex (o_creatorInboxId options) = true ->
  packable (o_conversationId options) ->
  opt_ok valid_date (o_expiresAt options) ->
  opt_ok valid_date (o_conversationExpiresAt options) ->
  (forall sb, signedInviteBytes nonce options = Some sb ->
              (N.of_nat (length sb) <= MAX_DECOMPRESSED_SIZE)%N) ->
  exists slug payload signature,
    createInviteSlug nonce options = Some slug /\
    invitePayload_of nonce options = Some payload /\
    parseInviteSlug now_ms slug
      = Some {| pi_signedInvite := {| si_payload := encodeInvitePayload payload;
                                      si_signature := signature |};
                pi_payload := payload_read_back payload;
                pi_creatorInboxId := o_creatorInboxId options;
                pi_isExpired :=
                  expired_at now_ms (nonzero (unix_seconds (o_expiresAt options)));
                pi_isConversationExpired :=
                  expired_at now_ms
                    (nonzero (unix_seconds (o_conversationExpiresAt options))) |} /\
    verifyInvite {| si_payload := encodeInvitePayload payload;
                    si_signature := signature |} pk = true /\
    decryptConversationToken (ip_conversationToken payload) (o_creatorInboxId options)
      (o_privateKey options) = Some (canonical_id (o_conversationId options)) /\
    ip_tag payload = o_inviteTag options /\
    ip_name payload = o_name options /\
    ip_description payload = o_description options /\
    ip_imageURL payload = o_imageURL options /\
    ip_expiresAfterUse payload = default false (o_expiresAfterUse options) /\
    ip_expiresAtUnix payload = unix_seconds (o_expiresAt options) /\
    ip_conversationExpiresAtUnix payload = unix_seconds (o_conversationExpiresAt options).
Proof.
  intros Hn Hk Hhex Hp Hd1 Hd2 Hsize.
  destruct (signedInviteBytes_steps nonce options pk Hn Hk Hhex Hp)
    as (payload & signature & Hpay & Hsb & Hl & Hv & Hinbox & Hdec & Htag & Hname & Hdesc
        & Himg & Heau & He & Hce).
  specialize (Hsize _ Hsb).
  pose proof (parseInviteSlug_encodeToSlug now_ms payload signature Hsize) as Hparse.
  cbv zeta in Hparse. rewrite He, Hce, Hinbox in Hparse.
  specialize (Hparse (unix_seconds_int64 _ Hd2) (unix_seconds_int64 _ Hd1)).
  eexists _, payload, signature. split.
  { unfold createInviteSlug. rewrite Hsb. reflexivity. }
  split; [exact Hpay|]. split; [exact Hparse|].
  repeat split; assumption.
Qed.

(** The environment defaults of [getInviteBaseURL]. *)
Lemma getInviteBaseURL_env :
  getInviteBaseURL None = "https://dev.convos.org/v2" /\
  getInviteBaseURL (Some "dev") = "https://dev.convos.org/v2" /\
  getInviteBaseURL (Some "local") = "https://dev.convos.org/v2" /\
  getInviteBaseURL (Some "production") = "https://popup.convos.org/v2".
Proof. repeat split; reflexivity. Qed.

Lemma generateInviteURL_shape (slug base : string) :
  generateInviteURL slug (Some base) = base +:+ "?i=" +:+ encodeURIComponent slug.
Proof. reflexivity. Qed.

(** The constructor of the compiled middleware follows the environment. *)
Lemma ConvosMiddleware_create_dist_base (agent : XMTPAgent) (key : bytes) (env : option string) :
  mw_inviteBaseURL <$>
    ConvosMiddleware_create_dist agent
      {| opt_privateKey := Some (inl key); opt_inviteBaseURL := None; opt_env := env |} None
  = Some (getInviteBaseURL env).
Proof. reflexivity. Qed.

(** The invite decoder treats a zero timestamp as not set. *)
Lemma decodeInvitePayload_zero_expiry (bs : bytes) (m : InvitePayloadMessage)
    (p : InvitePayload) :
  InvitePayloadType_decode bs = Some m ->
  decodeInvitePayload bs = Some p ->
  (Long_toBigInt <$> msg_expiresAtUnix m = Some 0%Z -> ip_expiresAtUnix p = None) /\
  (Long_toBigInt <$> msg_conversationExpiresAtUnix m = Some 0%Z ->
   ip_conversationExpiresAtUnix p = None) /\
  (msg_expiresAtUnix m = None -> ip_expiresAtUnix p = None) /\
  (msg_conversationExpiresAtUnix m = None -> ip_conversationExpiresAtUnix p = None).
Proof.
  unfold decodeInvitePayload. intros -> [= <-]. cbn.
  unfold bigint_unless_zero.
  repeat split.
  - destruct (msg_expiresAtUnix m); [|discriminate]. cbn. intros [= ->]. reflexivity.
  - destruct (msg_conversationExpiresAtUnix m); [|discriminate]. cbn. intros [= ->].
    reflexivity.
  - intros ->. reflexivity.
  - intros ->. reflexivity.
Qed.

(** The throw does not depend on the platform: every key that is not 32
    bytes long is rejected. *)
Lemma verifyInviteWithPrivateKey_throws `{L : PlatformLaws} (signedInvite : SignedInvite)
    (privateKey : bytes) :
  length privateKey <> 32 -> verifyInviteWithPrivateKey signedInvite privateKey = None.
Proof.
  intros H. unfold verifyInviteWithPrivateKey, getPublicKey.
  now rewrite (getPublicKey_key_length _ H).
Qed.

Lemma js_length_nonempty (s : string) : 50 <= js_length s -> nonempty s = true.
Proof. destruct s; [cbn; lia | reflexivity]. Qed.

(** [looksLikeInviteSlug] in the words of the claim. *)
Lemma looksLikeInviteSlug_spec (text : string) :
  looksLikeInviteSlug text = true <->
  50 <= js_length (trim text) /\ string_forallb slug_char (trim text) = true.
Proof.
  unfold looksLikeInviteSlug, base64UrlPattern_test.
  destruct (js_length (trim text) <? 50) eqn:E.
  - apply Nat.ltb_lt in E. split; [discriminate | lia].
  - apply Nat.ltb_ge in E. rewrite (js_length_nonempty _ E). cbn [andb]. tauto.
Qed.

Lemma blockSender_no_next (agent : XMTPAgent) (inboxId : string) :
  ~ In (Outside Next) (blockSender agent inboxId).
Proof.
  unfold blockSender. destruct (agent_refreshConsentList agent); cbn; intuition discriminate.
Qed.

Lemma ConversationProfileMessage_ext (a b : ConversationProfileMessage) :
  msg_inboxId a = msg_inboxId b -> msg_profile_name a = msg_profile_name b ->
  msg_profile_image a = msg_profile_image b -> a = b.
Proof. destruct a, b; cbn; intros; subst; reflexivity. Qed.

(** A profile nested in a field: the loop of the nested decoder stops
    where the profile ends. *)
Lemma ConversationProfileType_nested (p : ConversationProfileMessage) (fuel : nat)
    (rest : bytes) :
  ConversationProfileMessage_ok p ->
  length (ConversationProfileType_encode p ++ rest) <= fuel ->
  decode_nested ConversationProfileType_step ConversationProfileMessage_empty fuel
    (writer_bytes (ConversationProfileType_encode p) ++ rest) = Some (p, rest).
Proof.
  intros [H1 H2 H3 H4] Hfuel. unfold decode_nested, writer_bytes. rewrite <- app_assoc.
  rewrite reader_uint32_writer by exact H4. cbn [mbind option_bind].
  replace (N.of_nat (length (ConversationProfileType_encode p ++ rest))
           <? N.of_nat (length (ConversationProfileType_encode p)))%N with false
    by (symmetry; apply N.ltb_ge; rewrite length_app; lia).
  replace (length (ConversationProfileType_encode p ++ rest)
           - N.to_nat (N.of_nat (length (ConversationProfileType_encode p))))
    with (length rest) by (rewrite length_app; lia).
  revert Hfuel. unfold ConversationProfileType_encode. rewrite <- !app_assoc. intros Hfuel.
  next_field set_inboxId Hfuel ltac:(rewrite reader_bytes_writer by (eapply H1; eauto)).
  next_field set_profile_name Hfuel ltac:(rewrite reader_string_writer by (eapply H2; eauto)).
  next_field set_profile_image Hfuel ltac:(rewrite reader_string_writer by (eapply H3; eauto)).
  rewrite decode_loop_done by lia. f_equal. f_equal.
  apply ConversationProfileMessage_ext; project_field.
Qed.

(** The turns of the loop for the elements of the repeated field. *)
Lemma decode_loop_profiles (profiles : list ConversationProfileMessage) (fuel stop : nat)
    (rest : bytes) (m : ConversationCustomMetadataMessage) :
  Forall ConversationProfileMessage_ok profiles ->
  stop <= length rest ->
  length (concat (map profile_field profiles) ++ rest) <= fuel ->
  exists fuel', length rest <= fuel' /\
    decode_loop ConversationCustomMetadataType_step fuel stop
      (concat (map profile_field profiles) ++ rest) m
    = decode_loop ConversationCustomMetadataType_step fuel' stop rest
        (fold_left push_profile profiles m).
Proof.
  intros Hok Hstop. revert fuel m.
  induction Hok as [|p profiles Hp _ IH]; intros fuel m Hfuel.
  - exists fuel. split; [exact Hfuel | reflexivity].
  - cbn [map concat fold_left] in *. rewrite <- app_assoc in *.
    unfold profile_field at 1 in Hfuel. unfold profile_field at 1.
    rewrite <- !app_assoc in *.
    pose proof (writer_uint32_nonempty 18) as Htag.
    rewrite length_app in Hfuel.
    destruct fuel as [|fuel]; [lia|].
    assert (Hrest : length (concat (map profile_field profiles) ++ rest) <= fuel).
    { unfold writer_bytes in Hfuel. rewrite <- !app_assoc, !length_app in Hfuel.
      rewrite length_app. lia. }
    destruct (IH fuel (push_profile m p) Hrest) as (fuel' & Hf' & E).
    exists fuel'. split; [exact Hf'|]. rewrite <- E.
    eapply decode_loop_step.
    + rewrite length_app, !length_app. lia.
    + apply reader_uint32_writer. now vm_compute.
    + unfold ConversationCustomMetadataType_step.
      change (18 / 8)%N with 2%N. cbv iota.
      rewrite ConversationProfileType_nested; [reflexivity | exact Hp |].
      unfold writer_bytes in Hfuel. rewrite <- !app_assoc, !length_app in Hfuel.
      rewrite !length_app. lia.
Qed.

Lemma ConversationCustomMetadataMessage_ext (a b : ConversationCustomMetadataMessage) :
  msg_md_tag a = msg_md_tag b -> msg_profiles a = msg_profiles b ->
  msg_md_expiresAtUnix a = msg_md_expiresAtUnix b ->
  msg_imageEncryptionKey a = msg_imageEncryptionKey b -> a = b.
Proof. destruct a, b; cbn; intros; subst; reflexivity. Qed.

Lemma fold_push_profile (profiles : list ConversationProfileMessage)
    (m : ConversationCustomMetadataMessage) :
  fold_left push_profile profiles m
  = {| msg_md_tag := msg_md_tag m;
       msg_profiles := msg_profiles m ++ profiles;
       msg_md_expiresAtUnix := msg_md_expiresAtUnix m;
       msg_imageEncryptionKey := msg_imageEncryptionKey m |}.
Proof.
  revert m. induction profiles as [|p r IH]; intros m; cbn [fold_left].
  - rewrite app_nil_r. now destruct m.
  - rewrite IH. cbn. now rewrite <- app_assoc.
Qed.

Lemma ConversationCustomMetadataType_roundtrip (m : ConversationCustomMetadataMessage) :
  ConversationCustomMetadataMessage_ok m ->
  ConversationCustomMetadataType_decode (ConversationCustomMetadataType_encode m) = Some m.
Proof.
  intros [H1 H2 H3 H4].
  unfold ConversationCustomMetadataType_decode, decode_message,
    ConversationCustomMetadataType_encode.
  change (fun p => writer_uint32 18 ++ writer_bytes (ConversationProfileType_encode p))
    with profile_field.
  set (fuel := S _).
  replace (field 4 2 writer_bytes (msg_imageEncryptionKey m))
    with (field 4 2 writer_bytes (msg_imageEncryptionKey m) ++ []) by apply app_nil_r.
  assert (Hfuel : length (field 1 2 writer_string (msg_md_tag m)
    ++ concat (map profile_field (msg_profiles m))
    ++ field 3 1 writer_sfixed64 (msg_md_expiresAtUnix m)
    ++ field 4 2 writer_bytes (msg_imageEncryptionKey m) ++ []) <= fuel)
    by (subst fuel; rewrite app_nil_r; lia).
  clearbody fuel.
  next_field set_md_tag Hfuel ltac:(rewrite reader_string_writer by (eapply H1; eauto)).
  destruct (decode_loop_profiles (msg_profiles m) fuel0 0
              (field 3 1 writer_sfixed64 (msg_md_expiresAtUnix m)
               ++ field 4 2 writer_bytes (msg_imageEncryptionKey m) ++ [])
              (opt_set set_md_tag ConversationCustomMetadataMessage_empty (msg_md_tag m))
              H2 (Nat.le_0_l _) Hfuel) as (fuel1 & Hfuel1 & ->).
  next_field set_md_expiresAtUnix Hfuel1
    ltac:(rewrite reader_sfixed64_writer by (eapply H3; eauto)).
  next_field set_imageEncryptionKey Hfuel1
    ltac:(rewrite reader_bytes_writer by (eapply H4; eauto)).
  rewrite decode_loop_done by (cbn; lia). cbn [mbind option_bind]. f_equal.
  rewrite fold_push_profile.
  apply ConversationCustomMetadataMessage_ext.
  - rewrite !opt_set_other by reflexivity. cbn [msg_md_tag]. project_field.
  - rewrite !opt_set_other by reflexivity. cbn [msg_profiles].
    rewrite opt_set_other by reflexivity. reflexivity.
  - rewrite opt_set_other by reflexivity. rewrite opt_set_same by reflexivity.
    cbn [msg_md_expiresAtUnix]. rewrite opt_set_other by reflexivity.
    now destruct (msg_md_expiresAtUnix m).
  - rewrite opt_set_same by reflexivity. rewrite opt_set_other by reflexivity.
    cbn [msg_imageEncryptionKey]. rewrite opt_set_other by reflexivity.
    now destruct (msg_imageEncryptionKey m).
Qed.

Lemma ConversationProfileMessage_size_ok (p : ConversationProfileMessage) (n : nat) :
  length (ConversationProfileType_encode p) <= n -> (N.of_nat n < 2 ^ 32)%N ->
  ConversationProfileMessage_ok p.
Proof.
  intros H Hn. pose proof H as H'.
  unfold ConversationProfileType_encode in H. rewrite !length_app in H.
  constructor.
  - refine (field_bytes_small 1 _ _ (Nat.le_refl _) _). lia.
  - refine (field_string_small 2 _ _ (Nat.le_refl _) _). lia.
  - refine (field_string_small 3 _ _ (Nat.le_refl _) _). lia.
  - unfold small_bytes. lia.
Qed.

Lemma profiles_size_ok (profiles : list ConversationProfileMessage) (n : nat) :
  length (concat (map profile_field profiles)) <= n -> (N.of_nat n < 2 ^ 32)%N ->
  Forall ConversationProfileMessage_ok profiles.
Proof.
  intros H Hn. induction profiles as [|p r IH]; constructor.
  - cbn [map concat] in H. unfold profile_field at 1 in H. rewrite !length_app in H.
    pose proof (writer_bytes_length (ConversationProfileType_encode p)).
    apply (ConversationProfileMessage_size_ok p n); [lia | exact Hn].
  - apply IH. cbn [map concat] in H. rewrite length_app in H. lia.
Qed.

Lemma encodeConversationMetadata_head (m : ConversationCustomMetadata) :
  exists rest, encodeConversationMetadata m = x0a :: rest.
Proof.
  unfold encodeConversationMetadata, ConversationCustomMetadataType_encode.
  cbn [msg_md_tag field]. change (writer_uint32 (1 * 8 + 2)) with [x0a].
  cbn [app]. eauto.
Qed.

Lemma decodeConversationMetadata_encode (m : ConversationCustomMetadata) :
  (N.of_nat (length (encodeConversationMetadata m)) < 2 ^ 32)%N ->
  opt_ok int64 (md_expiresAtUnix m) ->
  decodeConversationMetadata (encodeConversationMetadata m) = Some (metadata_read_back m).
Proof.
  intros Hsize He. unfold decodeConversationMetadata, encodeConversationMetadata in *.
  set (msg := {| msg_md_tag := _ |}) in *.
  assert (Hok : ConversationCustomMetadataMessage_ok msg).
  { unfold ConversationCustomMetadataType_encode in Hsize.
    change (fun p => writer_uint32 18 ++ writer_bytes (ConversationProfileType_encode p))
      with profile_field in Hsize.
    rewrite !length_app in Hsize.
    set (n := (_ + _)%nat) in Hsize.
    assert (B : forall k, k <= n -> (N.of_nat k < 2 ^ 32)%N) by (intros; lia).
    constructor.
    - refine (field_string_small 1 _ _ (Nat.le_refl _) _). apply B. subst n. lia.
    - refine (profiles_size_ok _ _ (Nat.le_refl _) _). apply B. subst n. lia.
    - apply Long_of_truthy_wf.
    - refine (field_bytes_small 4 _ _ (Nat.le_refl _) _). apply B. subst n. lia. }
  rewrite (ConversationCustomMetadataType_roundtrip msg Hok). cbn [mbind option_bind].
  subst msg. cbn [msg_md_tag msg_profiles msg_md_expiresAtUnix msg_imageEncryptionKey].
  unfold metadata_read_back, object_truthy. cbn [default from_option id]. f_equal. f_equal.
  - rewrite map_map. apply map_ext. intros p. reflexivity.
  - destruct (md_expiresAtUnix m) as [z|] eqn:E; [|reflexivity].
    unfold Long_of_truthy. destruct (z =? 0)%Z eqn:Z0.
    + apply Z.eqb_eq in Z0. now subst.
    + cbn [default from_option id]. now rewrite Long_toBigInt_fromBigInt by now apply He.
Qed.

Lemma decodeMetadata_encodeMetadata `{L : PlatformLaws} (m : ConversationCustomMetadata) :
  (N.of_nat (length (encodeConversationMetadata m)) <= MAX_DECOMPRESSED_SIZE)%N ->
  opt_ok int64 (md_expiresAtUnix m) ->
  decodeMetadata (encodeMetadata m) = Some (metadata_read_back m).
Proof.
  intros Hsize He.
  unfold decodeMetadata, encodeMetadata. rewrite base64UrlDecode_encode.
  rewrite decompress_compressIfSmaller; [| exact Hsize |].
  - cbn [mbind option_bind]. apply decodeConversationMetadata_encode; [|exact He].
    unfold MAX_DECOMPRESSED_SIZE in Hsize. lia.
  - left. destruct (encodeConversationMetadata_head m) as (rest & ->). reflexivity.
Qed.

Lemma hex_pair_back (b : byte) :
  toUint8 (parseInt16 (hex_char (Byte.to_N b / 16)) (hex_char (Byte.to_N b mod 16))) = b.
Proof.
  pose (chk := fun b =>
    byte_eqb (toUint8 (parseInt16 (hex_char (Byte.to_N b / 16))
                                  (hex_char (Byte.to_N b mod 16)))) b).
  assert (E : chk b = true) by (apply forall_byte; now vm_compute).
  now apply byte_eqb_eq in E.
Qed.

Lemma hex_pairs_bytesToHex (bs : bytes) : hex_pairs (bytesToHex bs) = bs.
Proof.
  induction bs as [|b r IH]; [reflexivity|].
  cbn [bytesToHex byte_hex String.append hex_pairs]. now rewrite hex_pair_back, IH.
Qed.

Lemma bytesToHex_inj (a b : bytes) : bytesToHex a = bytesToHex b -> a = b.
Proof.
  intros H. rewrite <- (hex_pairs_bytesToHex a), <- (hex_pairs_bytesToHex b). now rewrite H.
Qed.

Lemma own_profile_spec (inboxIdHex : string) (inboxIdBytes : bytes) (p : ConversationProfile) :
  is_lower_hex inboxIdHex = true -> hexToBytes inboxIdHex = Some inboxIdBytes ->
  own_profile inboxIdHex p = true <-> cp_inboxId p = inboxIdBytes.
Proof.
  intros Hhex Hb. destruct (bytesToHex_hexToBytes _ Hhex) as (ib & Hib & Hback).
  rewrite Hb in Hib. injection Hib as <-.
  unfold own_profile. rewrite bool_decide_eq_true. split.
  - intros H. apply bytesToHex_inj. congruence.
  - intros ->. exact Hback.
Qed.

Lemma findIndex_Some {A : Type} (f : A -> bool) (l : list A) (i : nat) :
  findIndex f l = Some i -> exists x, l !! i = Some x /\ f x = true.
Proof.
  revert i. induction l as [|y r IH]; intros i; cbn [findIndex]; [discriminate|].
  destruct (f y) eqn:E.
  - intros [= <-]. eauto.
  - destruct (findIndex f r) as [j|]; [|discriminate]. intros [= <-].
    destruct (IH j eq_refl) as (x & Hx & Hf). eauto.
Qed.

Lemma findIndex_None {A : Type} (f : A -> bool) (l : list A) :
  findIndex f l = None -> forall x, In x l -> f x = false.
Proof.
  induction l as [|y r IH]; cbn [findIndex]; [intros _ x []|].
  destruct (f y) eqn:E; [discriminate|].
  destruct (findIndex f r); [discriminate|]. intros _ x [<-|Hx]; auto.
Qed.

(** With one entry per key, the entry found is the only one. *)
Lemma NoDup_lookup_key {A K : Type} (key : A -> K) (l : list A) (i j : nat) (x y : A) :
  NoDup (map key l) -> l !! i = Some x -> l !! j = Some y -> key x = key y -> i = j.
Proof.
  intros Hnd Hi Hj Hk.
  apply (NoDup_lookup (map key l) i j (key x)); [exact Hnd | |].
  - change (map key l) with (key <$> l). now rewrite list_lookup_fmap, Hi.
  - change (map key l) with (key <$> l). now rewrite list_lookup_fmap, Hj, Hk.
Qed.

Lemma map_insert_same_key {A K : Type} (key : A -> K) (l : list A) (i : nat) (x y : A) :
  l !! i = Some x -> key y = key x -> map key (<[i := y]> l) = map key l.
Proof.
  intros Hi Hk. change (map key ?l) with (key <$> l).
  rewrite list_fmap_insert. apply list_insert_id. now rewrite list_lookup_fmap, Hi, Hk.
Qed.

Lemma filter_key_unique {A : Type} (f : A -> bool) (l : list A) (i : nat) (x : A) :
  l !! i = Some x -> f x = true ->
  (forall j y, l !! j = Some y -> f y = true -> j = i) ->
  List.filter f l = [x].
Proof.
  revert i. induction l as [|z r IH]; intros i Hi Hf Hu; [discriminate|].
  cbn [List.filter]. destruct i as [|i].
  - injection Hi as ->. rewrite Hf. f_equal.
    assert (Hr : forall y, In y r -> f y = false).
    { intros y Hy. destruct (f y) eqn:E; [|reflexivity].
      apply list_elem_of_In, list_elem_of_lookup in Hy as (j & Hj).
      specialize (Hu (S j) y Hj E). discriminate. }
    clear - Hr. induction r as [|y r IH]; [reflexivity|].
    cbn [List.filter]. rewrite (Hr y) by now left. apply IH. intros; apply Hr. now right.
  - destruct (f z) eqn:E.
    + specialize (Hu 0 z eq_refl E). discriminate.
    + apply (IH i Hi Hf). intros j y Hj Hy. specialize (Hu (S j) y Hj Hy). lia.
Qed.

Section Upsert.
Variables (inboxIdHex : string) (inboxIdBytes : bytes).
Hypothesis Hhex : is_lower_hex inboxIdHex = true.
Hypothesis Hbytes : hexToBytes inboxIdHex = Some inboxIdBytes.

Let profile_of (options : SetConversationProfileOptions) : ConversationProfile :=
  {| cp_inboxId := inboxIdBytes; cp_name := sp_name options; cp_image := sp_image options |}.

(** The two cases of the upsert. *)
Lemma upsertProfile_cases (profiles : list ConversationProfile)
    (options : SetConversationProfileOptions) :
  (exists i p, profiles !! i = Some p /\ cp_inboxId p = inboxIdBytes /\
     upsertProfile profiles inboxIdHex inboxIdBytes options
       = <[i := profile_of options]> profiles) \/
  ((forall p, In p profiles -> cp_inboxId p <> inboxIdBytes) /\
   upsertProfile profiles inboxIdHex inboxIdBytes options = profiles ++ [profile_of options]).
Proof.
  unfold upsertProfile. fold (own_profile inboxIdHex).
  destruct (findIndex (own_profile inboxIdHex) profiles) as [i|] eqn:E.
  - left. destruct (findIndex_Some _ _ _ E) as (p & Hp & Hf).
    exists i, p. split; [exact Hp|]. split; [|reflexivity].
    now apply (own_profile_spec inboxIdHex inboxIdBytes p Hhex Hbytes).
  - right. split; [|reflexivity]. intros p Hp Hid.
    pose proof (findIndex_None _ _ E p Hp) as Hf.
    apply (own_profile_spec inboxIdHex inboxIdBytes p Hhex Hbytes) in Hid. congruence.
Qed.

Lemma upsertProfile_NoDup (profiles : list ConversationProfile)
    (options : SetConversationProfileOptions) :
  NoDup (map cp_inboxId profiles) ->
  NoDup (map cp_inboxId (upsertProfile profiles inboxIdHex inboxIdBytes options)).
Proof.
  intros Hnd.
  destruct (upsertProfile_cases profiles options) as [(i & p & Hp & Hid & ->) | (Hno & ->)].
  - now rewrite (map_insert_same_key cp_inboxId profiles i p (profile_of options) Hp).
  - rewrite map_app. apply NoDup_app. split; [exact Hnd|]. split; [|apply NoDup_singleton].
    intros id Hin Hin'. apply list_elem_of_In in Hin. apply in_map_iff in Hin as (p & <- & Hp).
    apply list_elem_of_In in Hin'. destruct Hin' as [Hin'|[]]. cbn in Hin'.
    now apply (Hno p Hp).
Qed.

(** After the upsert the caller has an entry, with the new values. *)
Lemma upsertProfile_own (profiles : list ConversationProfile)
    (options : SetConversationProfileOptions) :
  exists i, upsertProfile profiles inboxIdHex inboxIdBytes options !! i
            = Some (profile_of options).
Proof.
  destruct (upsertProfile_cases profiles options) as [(i & p & Hp & Hid & ->) | (Hno & ->)].
  - exists i. apply list_lookup_insert_eq. now apply lookup_lt_Some in Hp.
  - exists (length profiles). now rewrite lookup_app_r, Nat.sub_diag by lia.
Qed.

(** The entries of the other inboxes stay where they are. *)
Lemma upsertProfile_others (profiles : list ConversationProfile)
    (options : SetConversationProfileOptions) (i : nat) (p : ConversationProfile) :
  NoDup (map cp_inboxId profiles) ->
  profiles !! i = Some p -> cp_inboxId p <> inboxIdBytes ->
  upsertProfile profiles inboxIdHex inboxIdBytes options !! i = Some p.
Proof.
  intros Hnd Hp Hid.
  destruct (upsertProfile_cases profiles options) as [(j & q & Hq & Hqid & ->) | (Hno & ->)].
  - rewrite list_lookup_insert_ne; [exact Hp|]. intros <-. congruence.
  - rewrite lookup_app_l; [exact Hp|]. now apply lookup_lt_Some in Hp.
Qed.

Lemma upsertProfile_one (profiles : list ConversationProfile)
    (options : SetConversationProfileOptions) :
  NoDup (map cp_inboxId profiles) ->
  List.filter (own_profile inboxIdHex) (upsertProfile profiles inboxIdHex inboxIdBytes options)
  = [profile_of options].
Proof.
  intros Hnd. pose proof (upsertProfile_NoDup profiles options Hnd) as Hnd'.
  destruct (upsertProfile_own profiles options) as (i & Hi).
  apply (filter_key_unique _ _ i _ Hi).
  - now apply (own_profile_spec inboxIdHex inboxIdBytes _ Hhex Hbytes).
  - intros j y Hj Hy. apply (own_profile_spec inboxIdHex inboxIdBytes _ Hhex Hbytes) in Hy.
    exact (NoDup_lookup_key cp_inboxId _ j i y _ Hnd' Hj Hi Hy).
Qed.

End Upsert.

Lemma base64UrlEncode_nonempty (b : byte) (r : bytes) :
  nonempty (base64UrlEncode (b :: r)) = true.
Proof.
  rewrite base64UrlEncode_chars. destruct r as [|c [|d r]]; reflexivity.
Qed.

Lemma encodeMetadata_nonempty `{Platform} (m : ConversationCustomMetadata) :
  nonempty (encodeMetadata m) = true.
Proof.
  unfold encodeMetadata. destruct (encodeConversationMetadata_head m) as (rest & ->).
  destruct (compressIfSmaller_cases (x0a :: rest)) as [-> | (c & _ & _ & ->)];
    apply base64UrlEncode_nonempty.
Qed.

Lemma map_profile_read_back (profiles : list ConversationProfile) :
  map cp_inboxId (map profile_read_back profiles) = map cp_inboxId profiles.
Proof. rewrite map_map. apply map_ext. reflexivity. Qed.

(** Profiles with a name and an image are read back as they are. *)
Lemma profile_read_back_set (profiles : list ConversationProfile) :
  Forall (fun p => is_Some (cp_name p) /\ is_Some (cp_image p)) profiles ->
  map profile_read_back profiles = profiles.
Proof.
  induction 1 as [|p r [[n Hn] [i Hi]] _ IH]; [reflexivity|].
  cbn [map]. rewrite IH. replace (profile_read_back p) with p; [reflexivity|].
  destruct p as [id pn pi]. cbn in Hn, Hi. subst. reflexivity.
Qed.

(** ** What [setConversationProfile] stores *)

Lemma Long_toBigInt_int64 (l : Long) : int64 (Long_toBigInt l).
Proof.
  unfold int64, Long_toBigInt. cbv zeta.
  pose proof (Z.mod_pos_bound (Long_high l) (2 ^ 32) ltac:(lia)).
  pose proof (Z.mod_pos_bound (Long_low l) (2 ^ 32) ltac:(lia)).
  destruct (_ <? _)%Z eqn:E; [apply Z.ltb_lt in E | apply Z.ltb_ge in E]; lia.
Qed.

(** A decoded timestamp is a 64-bit integer. *)
Lemma decodeConversationMetadata_int64 (bs : bytes) (m : ConversationCustomMetadata) :
  decodeConversationMetadata bs = Some m -> opt_ok int64 (md_expiresAtUnix m).
Proof.
  unfold decodeConversationMetadata. intros H.
  destruct (ConversationCustomMetadataType_decode bs) as [message|]; [|discriminate H].
  cbn [mbind option_bind] in H. injection H as <-. cbn [md_expiresAtUnix].
  intros z Hz. injection Hz as <-. apply Long_toBigInt_int64.
Qed.

Lemma currentMetadata_int64 `{P : Platform} (g : XMTPGroupWithAppData) (freshTag : string) :
  opt_ok int64 (md_expiresAtUnix (currentMetadata g freshTag)).
Proof.
  unfold currentMetadata.
  assert (Hfresh : opt_ok int64 (md_expiresAtUnix (fst (createInitialMetadata freshTag None))))
    by (intros z Hz; discriminate Hz).
  destruct (nonempty (appData g)); [|exact Hfresh].
  destruct (decodeMetadata (appData g)) as [m|] eqn:E; [|exact Hfresh].
  unfold decodeMetadata in E. destruct (decompress _) as [bs|]; [|discriminate E].
  exact (decodeConversationMetadata_int64 bs m E).
Qed.

(** When [setConversationProfile] resolves, the group holds the encoding
    of the metadata it saved. *)
Lemma setConversationProfile_stores `{P : Platform} (mw : ConvosMiddleware)
    (g : XMTPGroupWithAppData) (freshTag : string) (options : SetConversationProfileOptions)
    (saved : ConversationCustomMetadata) (g1 : XMTPGroupWithAppData) :
  profileMetadata mw g freshTag options = Some saved ->
  setConversationProfile mw g freshTag options = Some g1 ->
  appData g1 = encodeMetadata saved /\ updateAppData g (encodeMetadata saved) = Some g1.
Proof.
  intros Hs Hset. unfold setConversationProfile in Hset. rewrite Hs in Hset.
  cbn [mbind option_bind] in Hset. split; [|exact Hset].
  unfold updateAppData in Hset. destruct (updateAppData_ok g _); [|discriminate Hset].
  now injection Hset as <-.
Qed.

(* ===================================================================== *)
(** * Part III: the properties of the specification                       *)
(* ===================================================================== *)

(** Closed goals are settled by evaluation. *)
Ltac evaluate := vm_compute; first [reflexivity | intros E; discriminate E].

(** The size condition at a concrete input. *)
Ltac size_by_evaluation :=
  let sb := fresh "sb" in
  let H := fresh "H" in
  intros sb H;
  lazymatch type of H with
  | ?e = Some sb =>
      let B := fresh "B" in
      assert (B : (N.of_nat (length (default [] e)) <= MAX_DECOMPRESSED_SIZE)%N)
        by evaluate;
      rewrite H in B; exact B
  end.

(** ** Invite slug round trip *)

(** C1, as amended.  For every valid private key, every lowercase
    even-length hex inbox id, every conversation id that is UUID-shaped
    or a string of 1 to 65535 bytes, every tag, display fields and
    timestamps, such that the encoded signed invite is at most 1 MiB:
    [createInviteSlug] returns a slug; [parseInviteSlug] of it returns a
    payload with the tag, the creator inbox id and [expiresAfterUse] of
    the input and the timestamps of the input in seconds (a timestamp of
    second 0 comes back as not set), with [isExpired] and
    [isConversationExpired] computed from them; [verifyInviteWithPrivateKey]
    returns true; and [decryptInviteConversationId] returns the
    conversation id, a UUID in lowercase and any other id without the
    byte order mark at its head. *)
Theorem invite_roundtrip `{L : PlatformLaws} (nonce : bytes) (now_ms : Z)
    (options : CreateInviteOptions) (pk : bytes) :
  length nonce = 12 ->
  secp_getPublicKey (o_privateKey options) = Some pk ->
  is_lower_hex (o_creatorInboxId options) = true ->
  packable (o_conversationId options) ->
  opt_ok valid_date (o_expiresAt options) ->
  opt_ok valid_date (o_conversationExpiresAt options) ->
  (forall sb, signedInviteBytes nonce options = Some sb ->
              (N.of_nat (length sb) <= MAX_DECOMPRESSED_SIZE)%N) ->
  exists slug parsed,
    createInviteSlug nonce options = Some slug /\
    parseInviteSlug now_ms slug = Some parsed /\
    ip_tag (pi_payload parsed) = o_inviteTag options /\
    pi_creatorInboxId parsed = o_creatorInboxId options /\
    ip_expiresAfterUse (pi_payload parsed) = default false (o_expiresAfterUse options) /\
    ip_expiresAtUnix (pi_payload parsed) = nonzero (unix_seconds (o_expiresAt options)) /\
    ip_conversationExpiresAtUnix (pi_payload parsed)
      = nonzero (unix_seconds (o_conversationExpiresAt options)) /\
    pi_isExpired parsed
      = expired_at now_ms (nonzero (unix_seconds (o_expiresAt options))) /\
    pi_isConversationExpired parsed
      = expired_at now_ms (nonzero (unix_seconds (o_conversationExpiresAt options))) /\
    verifyInviteWithPrivateKey (pi_signedInvite parsed) (o_privateKey options) = Some true /\
    decryptInviteConversationId parsed (o_privateKey options)
      = Some (canonical_id (o_conversationId options)).
Proof.
  intros Hn Hk Hhex Hp Hd1 Hd2 Hsize.
  destruct (parse_created_slug nonce now_ms options pk Hn Hk Hhex Hp Hd1 Hd2 Hsize)
    as (slug & payload & signature & Hslug & _ & Hparse & Hv & Hdec & Htag & _ & _ & _
        & Heau & He & Hce).
  eexists slug, _. split; [exact Hslug|]. split; [exact Hparse|].
  cbn [pi_payload pi_creatorInboxId pi_signedInvite pi_isExpired pi_isConversationExpired
       payload_read_back ip_tag ip_expiresAfterUse ip_expiresAtUnix
       ip_conversationExpiresAtUnix].
  repeat split; try assumption; try reflexivity.
  - now rewrite He.
  - now rewrite Hce.
  - unfold verifyInviteWithPrivateKey, getPublicKey. rewrite Hk. cbn [mbind option_bind].
    now rewrite Hv.
Qed.

(** C1 at a concrete input: an invite for a UUID in capitals, minted with
    [sample_key] and parsed in 2027. *)
Lemma invite_roundtrip_witness :
  exists slug parsed,
    @createInviteSlug reference_platform sample_nonce
       (sample_options "550E8400-E29B-41D4-A716-446655440000") = Some slug /\
    @parseInviteSlug reference_platform 1800000000000 slug = Some parsed /\
    ip_tag (pi_payload parsed) = "a1B2c3D4e5" /\
    pi_creatorInboxId parsed = sample_inbox /\
    pi_isExpired parsed = true /\
    @verifyInviteWithPrivateKey reference_platform (pi_signedInvite parsed) sample_key
      = Some true /\
    @decryptInviteConversationId reference_platform parsed sample_key
      = Some "550e8400-e29b-41d4-a716-446655440000".
Proof.
  destruct (@invite_roundtrip reference_platform reference_laws sample_nonce
              1800000000000 (sample_options "550E8400-E29B-41D4-A716-446655440000")
              (x04 :: sample_key ++ sample_key))
    as (slug & parsed & H1 & H2 & H3 & H4 & _ & _ & _ & H5 & _ & H6 & H7).
  - evaluate.
  - evaluate.
  - evaluate.
  - left. evaluate.
  - intros x [= <-]. unfold valid_date. lia.
  - intros x [=].
  - size_by_evaluation.
  - exists slug, parsed. split; [exact H1|]. split; [exact H2|]. split; [exact H3|].
    split; [exact H4|]. split; [rewrite H5; evaluate|]. split; [exact H6|].
    refine (eq_trans H7 _). evaluate.
Defined.

(** C1 fails as stated: the empty conversation id is packed as the two
    bytes 02 00, which [unpackConversationId] reads as the head of the
    long form, so the minted invite parses and verifies but its
    conversation id cannot be decrypted. *)
Lemma invite_roundtrip_empty_conversation_id :
  exists slug parsed,
    @createInviteSlug reference_platform sample_nonce (sample_options "") = Some slug /\
    @parseInviteSlug reference_platform 0 slug = Some parsed /\
    @verifyInviteWithPrivateKey reference_platform (pi_signedInvite parsed) sample_key
      = Some true /\
    @decryptInviteConversationId reference_platform parsed sample_key = None.
Proof.
  eexists _, _. split; [now vm_compute|]. split; [now vm_compute|].
  split; now vm_compute.
Qed.

(** ** Verification and exceptions *)

(** C2, as amended.  [verifyInvite] returns a boolean for every signed
    invite and every expected key: [false] whenever a step of the [try]
    block throws, in particular for a signature whose length is not 65
    and for a recovery byte above 3, and [false] when the recovered key
    is not the expected one.  [verifyInviteWithPrivateKey] returns what
    [verifyInvite] returns when [getPublicKey] accepts the private key. *)
Theorem verification_catches `{P : Platform} (signedInvite : SignedInvite)
    (expected privateKey : bytes) :
  (verifyInvite_try signedInvite expected = None ->
   verifyInvite signedInvite expected = false) /\
  (length (si_signature signedInvite) <> 65 ->
   verifyInvite signedInvite expected = false) /\
  (forall v, si_signature signedInvite !! 64 = Some v -> (3 < Byte.to_N v)%N ->
             verifyInvite signedInvite expected = false) /\
  (forall recovered,
     recoverPublicKey (hashSha256 (si_payload signedInvite)) (si_signature signedInvite)
       = Some recovered ->
     length recovered = 65 -> length expected = 65 -> recovered <> expected ->
     verifyInvite signedInvite expected = false) /\
  (forall publicKey, getPublicKey privateKey = Some publicKey ->
     verifyInviteWithPrivateKey signedInvite privateKey
       = Some (verifyInvite signedInvite publicKey)).
Proof.
  repeat split.
  - unfold verifyInvite. now intros ->.
  - intros H. unfold verifyInvite, verifyInvite_try.
    now rewrite (recoverPublicKey_length _ _ H).
  - intros v Hv H. unfold verifyInvite, verifyInvite_try.
    now rewrite (recoverPublicKey_recovery_byte _ _ v Hv H).
  - intros recovered Hr Hl He Hne. unfold verifyInvite, verifyInvite_try.
    rewrite Hr. cbn [mbind option_bind]. unfold normalizePublicKey.
    rewrite Hl, He. cbn [Nat.eqb mbind option_bind].
    destruct (constantTimeEqual recovered expected) eqn:E; [|reflexivity].
    apply constantTimeEqual_spec in E. contradiction.
  - intros publicKey Hk. unfold verifyInviteWithPrivateKey. now rewrite Hk.
Qed.

(** C2 at concrete inputs: a signature of three bytes, a recovery byte of
    4 and a signature over other payload bytes. *)
Lemma verification_catches_witness :
  @verifyInvite reference_platform short_signature (x04 :: sample_key ++ sample_key) = false /\
  @verifyInvite reference_platform bad_recovery_byte (x04 :: sample_key ++ sample_key) = false /\
  @verifyInvite reference_platform tampered_payload (x04 :: sample_key ++ sample_key) = false /\
  @verifyInviteWithPrivateKey reference_platform short_signature sample_key = Some false.
Proof.
  pose proof (@verification_catches reference_platform short_signature
                (x04 :: sample_key ++ sample_key) sample_key) as (_ & H1 & _ & _ & H5).
  pose proof (@verification_catches reference_platform bad_recovery_byte
                (x04 :: sample_key ++ sample_key) sample_key) as (_ & _ & H2 & _ & _).
  pose proof (@verification_catches reference_platform tampered_payload
                (x04 :: sample_key ++ sample_key) sample_key) as (H3 & _ & _ & _ & _).
  assert (E1 : @verifyInvite reference_platform short_signature
                 (x04 :: sample_key ++ sample_key) = false).
  { apply H1. cbn. lia. }
  split; [exact E1|].
  split; [apply (H2 x04); [reflexivity | reflexivity]|].
  split; [apply H3; reflexivity|].
  rewrite (H5 (x04 :: sample_key ++ sample_key) eq_refl). now rewrite E1.
Defined.

(** C2 fails as stated: [verifyInviteWithPrivateKey] derives the public
    key before the [try] block of [verifyInvite] is entered, so a private
    key that [getPublicKey] rejects, here the empty one, makes it
    throw. *)
Lemma verification_throws_on_bad_key :
  @getPublicKey reference_platform [] = None /\
  @verifyInviteWithPrivateKey reference_platform short_signature [] = None.
Proof. split; reflexivity. Qed.

(** ** Malformed invites *)

(** C3.  For every direct message from another inbox whose text fails
    [parseInviteSlug]: if the trimmed text has at least 50 characters,
    all of them letters, digits, [_], [-] or [*], the middleware runs the
    block action on the sender, reports the message as handled and does
    not call the next handler, and the join-request handler returns
    [BlockSender]; otherwise the middleware does nothing but call the
    next handler, and the join-request handler returns
    [NotJoinRequest]. *)
Theorem malformed_invite_classified `{P : Platform} (mw : ConvosMiddleware)
    (h : JoinRequestHandler) (now_ms err_ms : Z) (ctx : XMTPMessageContext) (text : string) :
  extractText (ctx_content ctx) = Some text ->
  ctx_senderInboxId ctx <> mw_inboxId mw ->
  ctx_senderInboxId ctx <> jr_inboxId h ->
  parseInviteSlug now_ms text = None ->
  (50 <= js_length (trim text) /\ string_forallb slug_char (trim text) = true ->
   handleMessage mw now_ms err_ms ctx
     = (blockSender (mw_agent mw) (ctx_senderInboxId ctx), Some true) /\
   middleware mw now_ms err_ms ctx = blockSender (mw_agent mw) (ctx_senderInboxId ctx) /\
   ~ In (Outside Next) (middleware mw now_ms err_ms ctx) /\
   processMessage h now_ms err_ms text (ctx_senderInboxId ctx)
     = ([], Some (outcome BlockSender None None None (Some "Invalid invite format")))) /\
  (~ (50 <= js_length (trim text) /\ string_forallb slug_char (trim text) = true) ->
   handleMessage mw now_ms err_ms ctx = ([], Some false) /\
   middleware mw now_ms err_ms ctx = [Outside Next] /\
   processMessage h now_ms err_ms text (ctx_senderInboxId ctx)
     = ([], Some (outcome NotJoinRequest None None None None))).
Proof.
  intros Htext Hmw Hh Hparse.
  assert (Hlegacy : processMessage h now_ms err_ms text (ctx_senderInboxId ctx)
            = if looksLikeInviteSlug text
              then ([], Some (outcome BlockSender None None None
                                (Some "Invalid invite format")))
              else ([], Some (outcome NotJoinRequest None None None None))).
  { unfold processMessage. destruct (decide _) as [E|_]; [contradiction|].
    now rewrite Hparse. }
  split; intros Hlooks.
  - apply looksLikeInviteSlug_spec in Hlooks as Hl.
    assert (Hm : handleMessage mw now_ms err_ms ctx
                 = (blockSender (mw_agent mw) (ctx_senderInboxId ctx), Some true)).
    { unfold handleMessage. rewrite Htext. cbn [truthy_param].
      destruct Hlooks as [Hlen _].
      assert (Hne : nonempty text = true).
      { destruct text; [cbn in Hlen; lia | reflexivity]. }
      rewrite Hne. destruct (decide _) as [E|_]; [contradiction|].
      now rewrite Hparse, Hl. }
    assert (Hmid : middleware mw now_ms err_ms ctx
                   = blockSender (mw_agent mw) (ctx_senderInboxId ctx)).
    { unfold middleware. now rewrite Hm. }
    split; [exact Hm|]. split; [exact Hmid|].
    split; [rewrite Hmid; apply blockSender_no_next|].
    now rewrite Hlegacy, Hl.
  - assert (Hl : looksLikeInviteSlug text = false).
    { destruct (looksLikeInviteSlug text) eqn:E; [|reflexivity].
      apply looksLikeInviteSlug_spec in E. contradiction. }
    assert (Hm : handleMessage mw now_ms err_ms ctx = ([], Some false)).
    { unfold handleMessage. rewrite Htext. cbn [truthy_param].
      destruct (nonempty text); [|reflexivity].
      destruct (decide _) as [E|_]; [contradiction|].
      now rewrite Hparse, Hl. }
    split; [exact Hm|]. split; [unfold middleware; now rewrite Hm|].
    now rewrite Hlegacy, Hl.
Qed.

(** C3 at concrete inputs: a text of 62 slug characters between spaces,
    and a greeting. *)
Lemma malformed_invite_classified_witness :
  (@middleware reference_platform sample_middleware 0 0 (message_from "joiner" malformed_slug)
   = [Outside RefreshConsentList; Outside (Block ["joiner"])] /\
   result <$> snd (@processMessage reference_platform sample_handler 0 0 malformed_slug "joiner")
   = Some BlockSender) /\
  (@middleware reference_platform sample_middleware 0 0
     (message_from "joiner" "Hello, how are you?") = [Outside Next] /\
   result <$> snd (@processMessage reference_platform sample_handler 0 0
                     "Hello, how are you?" "joiner")
   = Some NotJoinRequest).
Proof.
  split.
  - destruct (@malformed_invite_classified reference_platform sample_middleware sample_handler 0 0
                (message_from "joiner" malformed_slug) malformed_slug)
      as [Hblock _]; [reflexivity | discriminate | discriminate | reflexivity |].
    destruct Hblock as (_ & Hm & _ & Hp).
    { split; [vm_compute; lia | reflexivity]. }
    split; [exact Hm|]. cbn [ctx_senderInboxId message_from] in Hp. now rewrite Hp.
  - destruct (@malformed_invite_classified reference_platform sample_middleware sample_handler 0 0
                (message_from "joiner" "Hello, how are you?") "Hello, how are you?")
      as [_ Hpass]; [reflexivity | discriminate | discriminate | reflexivity |].
    destruct Hpass as (_ & Hm & Hp).
    { intros [Hlen _]. vm_compute in Hlen. lia. }
    split; [exact Hm|]. cbn [ctx_senderInboxId message_from] in Hp. now rewrite Hp.
Defined.

(** ** Expired invites *)

(** C4.  For every direct message from another inbox whose non-empty
    text parses as an invite of this inbox that verifies, with
    [isExpired] and [isConversationExpired] both true: the middleware
    sends one message on the DM conversation, the encoded
    [ConversationExpired] error for the invite's tag, and does nothing
    else, so no handler runs and the next handler is not called; the
    join-request handler reports one [ConversationExpired] error. *)
Theorem both_expired_one_error `{P : Platform} (mw : ConvosMiddleware)
    (h : JoinRequestHandler) (now_ms err_ms : Z) (ctx : XMTPMessageContext) (text : string)
    (parsedInvite : ParsedInvite) :
  truthy_param (extractText (ctx_content ctx)) = Some text ->
  ctx_senderInboxId ctx <> mw_inboxId mw ->
  parseInviteSlug now_ms text = Some parsedInvite ->
  pi_creatorInboxId parsedInvite = mw_inboxId mw ->
  verifyInviteWithPrivateKey (pi_signedInvite parsedInvite) (mw_privateKey mw) = Some true ->
  jr_inboxId h = mw_inboxId mw ->
  jr_privateKey h = mw_privateKey mw ->
  pi_isExpired parsedInvite = true ->
  pi_isConversationExpired parsedInvite = true ->
  let error := createConversationExpiredError err_ms (ip_tag (pi_payload parsedInvite)) in
  handleMessage mw now_ms err_ms ctx
    = ([Outside (Send (encodeInviteJoinError error))], Some true) /\
  middleware mw now_ms err_ms ctx = [Outside (Send (encodeInviteJoinError error))] /\
  processMessage h now_ms err_ms text (ctx_senderInboxId ctx)
    = (call_onJoinError h (ctx_senderInboxId ctx) error,
       Some (outcome SendError None (Some (ip_tag (pi_payload parsedInvite))) (Some error)
               (Some "Invite expired"))) /\
  length (call_onJoinError h (ctx_senderInboxId ctx) error) <= 1.
Proof.
  intros Htext Hsender Hparse Hcreator Hverify Hid Hkey He Hce error.
  assert (Hm : handleMessage mw now_ms err_ms ctx
               = ([Outside (Send (encodeInviteJoinError error))], Some true)).
  { unfold handleMessage. rewrite Htext.
    destruct (decide _) as [E|_]; [contradiction|].
    rewrite Hparse, Hcreator. rewrite bool_decide_eq_true_2 by reflexivity. cbn [negb].
    rewrite Hverify, He. reflexivity. }
  split; [exact Hm|]. split; [unfold middleware; now rewrite Hm|].
  split.
  - unfold processMessage. rewrite Hid, Hkey.
    destruct (decide _) as [E|_]; [contradiction|].
    rewrite Hparse, Hcreator. rewrite bool_decide_eq_true_2 by reflexivity. cbn [negb].
    rewrite Hverify, He. reflexivity.
  - unfold call_onJoinError. destruct (jr_onJoinError h); cbn; lia.
Qed.

(** C4 at a concrete input: the invite of [expired_options], sent in
    2027. *)
Lemma both_expired_one_error_witness :
  @middleware reference_platform sample_middleware 1800000000000 1800000000500
    (message_from "joiner" expired_slug)
  = [Outside (Send (@encodeInviteJoinError reference_platform
                      {| errorType := ConversationExpired; inviteTag := "a1B2c3D4e5";
                         timestamp := 1800000000500 |}))] /\
  fst (@processMessage reference_platform sample_handler 1800000000000 1800000000500
         expired_slug "joiner")
  = [("joiner", {| errorType := ConversationExpired; inviteTag := "a1B2c3D4e5";
                   timestamp := 1800000000500 |})].
Proof.
  destruct (@parseInviteSlug reference_platform 1800000000000 expired_slug)
    as [parsedInvite|] eqn:Hparse; [|vm_compute in Hparse; discriminate].
  assert (Hp := Hparse). vm_compute in Hp. injection Hp as Hp.
  destruct (@both_expired_one_error reference_platform sample_middleware sample_handler
              1800000000000 1800000000500 (message_from "joiner" expired_slug)
              expired_slug parsedInvite) as (_ & Hm & Hl & _).
  - reflexivity.
  - discriminate.
  - exact Hparse.
  - now rewrite <- Hp.
  - rewrite <- Hp. now vm_compute.
  - reflexivity.
  - reflexivity.
  - now rewrite <- Hp.
  - now rewrite <- Hp.
  - rewrite <- Hp in Hm, Hl. split; [exact Hm|].
    cbn [ctx_senderInboxId message_from] in Hl. rewrite Hl. reflexivity.
Defined.

(** ** Metadata round trip *)

(** C5, as amended.  For every metadata value whose encoding is at most
    1 MiB and whose timestamp, when set, is a 64-bit integer:
    [getInviteTag (encodeMetadata m)] is the tag of [m], and
    [decodeMetadata (encodeMetadata m)] has the tag of [m] and the
    profiles of [m], in order, a name or image that is not set being read
    back as the empty string; when the timestamp is set and not 0 and the
    key is set and not empty, [decodeMetadata (encodeMetadata m)] is [m]
    up to those names and images, so it is [m] when every profile has
    both. *)
Theorem metadata_roundtrip `{L : PlatformLaws} (m : ConversationCustomMetadata) :
  (N.of_nat (length (encodeConversationMetadata m)) <= MAX_DECOMPRESSED_SIZE)%N ->
  opt_ok int64 (md_expiresAtUnix m) ->
  getInviteTag (encodeMetadata m) = Some (md_tag m) /\
  md_tag <$> decodeMetadata (encodeMetadata m) = Some (md_tag m) /\
  md_profiles <$> decodeMetadata (encodeMetadata m)
  = Some (map profile_read_back (md_profiles m)) /\
  forall expiresAtUnix imageEncryptionKey,
    md_expiresAtUnix m = Some expiresAtUnix -> expiresAtUnix <> 0%Z ->
    md_imageEncryptionKey m = Some imageEncryptionKey -> imageEncryptionKey <> [] ->
    decodeMetadata (encodeMetadata m)
    = Some {| md_tag := md_tag m;
              md_profiles := map profile_read_back (md_profiles m);
              md_expiresAtUnix := Some expiresAtUnix;
              md_imageEncryptionKey := Some imageEncryptionKey |} /\
    (Forall (fun p => is_Some (cp_name p) /\ is_Some (cp_image p)) (md_profiles m) ->
     decodeMetadata (encodeMetadata m) = Some m).
Proof.
  intros Hsize He.
  pose proof (decodeMetadata_encodeMetadata m Hsize He) as E.
  split; [unfold getInviteTag; now rewrite E|].
  split; [now rewrite E|]. split; [now rewrite E|].
  intros expiresAtUnix imageEncryptionKey Hexp Hnz Hkey Hne.
  assert (E' : decodeMetadata (encodeMetadata m)
               = Some {| md_tag := md_tag m;
                         md_profiles := map profile_read_back (md_profiles m);
                         md_expiresAtUnix := Some expiresAtUnix;
                         md_imageEncryptionKey := Some imageEncryptionKey |}).
  { rewrite E. unfold metadata_read_back. now rewrite Hexp, Hkey. }
  split; [exact E'|]. intros Hset.
  rewrite E', (profile_read_back_set _ Hset), <- Hexp, <- Hkey. now destruct m.
Qed.

(** C5 at a concrete input: metadata with a timestamp, a key and two
    profiles, one of them without a name. *)
Lemma metadata_roundtrip_witness :
  @getInviteTag reference_platform (@encodeMetadata reference_platform keyed_metadata)
  = Some "a1B2c3D4e5" /\
  @decodeMetadata reference_platform (@encodeMetadata reference_platform keyed_metadata)
  = Some {| md_tag := "a1B2c3D4e5";
            md_profiles :=
              [ {| cp_inboxId := [xab; xcd]; cp_name := Some "Agent";
                   cp_image := Some "https://example.com/b.png" |};
                {| cp_inboxId := [x01; x02]; cp_name := Some "";
                   cp_image := Some "https://example.com/a.png" |} ];
            md_expiresAtUnix := Some 1700000000%Z;
            md_imageEncryptionKey := Some [x01; x02] |}.
Proof.
  destruct (@metadata_roundtrip reference_platform reference_laws keyed_metadata)
    as (Htag & _ & _ & Hfull).
  - evaluate.
  - intros z [= <-]. unfold int64. lia.
  - split; [exact Htag|].
    refine (proj1 (Hfull 1700000000%Z [x01; x02] eq_refl _ eq_refl _)).
    + lia.
    + intros E. discriminate E.
Defined.

(** C5 fails as stated: a profile without an image reads back with the
    empty string as its image, although the timestamp and the key of the
    metadata are set. *)
Lemma metadata_roundtrip_unset_image :
  @decodeMetadata reference_platform
    (@encodeMetadata reference_platform
       {| md_tag := "a1B2c3D4e5";
          md_profiles := [ {| cp_inboxId := [xab; xcd]; cp_name := Some "Agent";
                              cp_image := None |} ];
          md_expiresAtUnix := Some 1700000000%Z;
          md_imageEncryptionKey := Some [x01; x02] |})
  = Some {| md_tag := "a1B2c3D4e5";
            md_profiles := [ {| cp_inboxId := [xab; xcd]; cp_name := Some "Agent";
                                cp_image := Some "" |} ];
            md_expiresAtUnix := Some 1700000000%Z;
            md_imageEncryptionKey := Some [x01; x02] |}.
Proof. reflexivity. Qed.

(** ** Compression framing round trip *)

(** C6, as amended.  For every byte string [x] of length at most 1 MiB
    that [compressIfSmaller] compresses, or that does not begin with the
    marker byte 0x78, [decompress (compressIfSmaller x)] returns [x]. *)
Theorem compression_roundtrip `{L : PlatformLaws} (x : bytes) :
  (N.of_nat (length x) <= MAX_DECOMPRESSED_SIZE)%N ->
  isCompressed x = false \/ compressIfSmaller x <> x ->
  decompress (compressIfSmaller x) = Some x.
Proof.
  intros Hlen Hc.
  destruct (compressIfSmaller_cases x) as [E | (c & Hd & Hlt & E)].
  - rewrite E. destruct Hc as [Hc|Hc]; [now apply decompress_unmarked | contradiction].
  - rewrite E. unfold decompress. rewrite byte_eqb_refl.
    rewrite (inflate_deflate _ _ Hd). cbn [mbind option_bind].
    destruct (MAX_DECOMPRESSED_SIZE <? N.of_nat (length x))%N eqn:B; [|reflexivity].
    apply N.ltb_lt in B. lia.
Qed.

(** C6 at a concrete input: 200 bytes 0x78, which are compressed. *)
Lemma compression_roundtrip_witness :
  ((N.of_nat (length (repeat x78 200)) <= MAX_DECOMPRESSED_SIZE)%N /\
   @compressIfSmaller reference_platform (repeat x78 200) <> repeat x78 200) /\
  @decompress reference_platform (@compressIfSmaller reference_platform (repeat x78 200))
    = Some (repeat x78 200).
Proof.
  assert (Hlen : (N.of_nat (length (repeat x78 200)) <= MAX_DECOMPRESSED_SIZE)%N)
    by now vm_compute.
  assert (Hc : @compressIfSmaller reference_platform (repeat x78 200) <> repeat x78 200)
    by now vm_compute.
  exact (conj (conj Hlen Hc)
           (@compression_roundtrip reference_platform reference_laws (repeat x78 200)
              Hlen (or_intror Hc))).
Defined.

(** C6 fails as stated: the nine bytes 78 78 9c 03 00 00 00 00 01 are
    below the compression threshold and returned as they are; their
    first byte is the marker, the other eight are the deflate stream of
    the empty input, so [decompress] returns the empty byte string. *)
Lemma compression_marker_collision :
  (N.of_nat (length (COMPRESSION_MARKER :: zlib_empty_stream)) <= MAX_DECOMPRESSED_SIZE)%N /\
  @compressIfSmaller reference_platform (COMPRESSION_MARKER :: zlib_empty_stream)
    = [x78; x78; x9c; x03; x00; x00; x00; x00; x01] /\
  @decompress reference_platform
     (@compressIfSmaller reference_platform (COMPRESSION_MARKER :: zlib_empty_stream))
    = Some [].
Proof.
  split; [now vm_compute|]. split; reflexivity.
Qed.

(** ** Zero timestamps *)

(** C7: the metadata decoder does not treat a timestamp of 0 as not
    set.  The field read from the wire, or the default of the prototype,
    is a [Long] object, so [message.expiresAtUnix ? ... : undefined] takes
    its first branch: a wire-level 0 decodes as [0n], and so does a
    message that omits the field; no encoding decodes with the field not
    set. *)
Theorem metadata_zero_expiry_decoded :
  md_expiresAtUnix <$> decodeConversationMetadata metadata_zero_expiry = Some (Some 0%Z) /\
  md_expiresAtUnix <$> decodeConversationMetadata metadata_no_expiry = Some (Some 0%Z) /\
  forall bs, match decodeConversationMetadata bs with
             | Some metadata => is_Some (md_expiresAtUnix metadata)
             | None => True
             end.
Proof.
  split; [reflexivity|]. split; [reflexivity|].
  intros bs. unfold decodeConversationMetadata.
  destruct (ConversationCustomMetadataType_decode bs) as [m|]; [|exact I].
  cbn. eauto.
Qed.

(** ** Invite base URL *)

(** C8: the constructor of src/middleware/convos-middleware.ts does not
    read the environment.  With no [inviteBaseURL] override the base URL
    is https://popup.convos.org/v2 for every environment, also for dev
    and local, where the compiled constructor and [getInviteBaseURL] give
    https://dev.convos.org/v2; the invite URL is that base followed by
    [?i=] and the URL-encoded slug. *)
Theorem source_constructor_base_url (agent : XMTPAgent) (key : bytes) (env : option string) :
  let options :=
    {| opt_privateKey := Some (inl key); opt_inviteBaseURL := None; opt_env := env |} in
  mw_inviteBaseURL <$> ConvosMiddleware_create agent options None
    = Some "https://popup.convos.org/v2" /\
  mw_inviteBaseURL <$>
    ConvosMiddleware_create_dist agent
      {| opt_privateKey := Some (inl key); opt_inviteBaseURL := None;
         opt_env := Some "dev" |} None
    = Some "https://dev.convos.org/v2" /\
  forall slug,
    (fun mw => generateInviteURL slug (Some (mw_inviteBaseURL mw)))
      <$> ConvosMiddleware_create agent options None
    = Some ("https://popup.convos.org/v2?i=" +:+ encodeURIComponent slug).
Proof.
  cbv zeta. split; [reflexivity|]. split; [reflexivity|].
  intros slug. reflexivity.
Qed.

(** ** Profile upsert *)

(** C9, as amended.  For every group whose current metadata has at most
    one profile per inbox id, and a caller whose inbox id is a lowercase
    hex string of even length, where the metadata to save encodes to at
    most 1 MiB: [setConversationProfile] hands to [updateAppData] the
    encoding of metadata that keeps the tag, timestamp and key, has at
    most one profile per inbox id and exactly one for the caller, holding
    the new name and image; an entry of the caller is replaced in place,
    and without one the new entry is appended; the entries of the other
    inboxes stay where they are.  When the call resolves, the [appData]
    of the group is that encoding and decodes to those profiles; a second
    call on it hands to [updateAppData], and so leaves in the group, the
    encoding of metadata with as many profiles, at most one per inbox id
    and exactly one for the caller, holding the name and image of the
    second call, the entries of the other inboxes where they were. *)
Theorem profile_upsert `{L : PlatformLaws} (mw : ConvosMiddleware)
    (g : XMTPGroupWithAppData) (freshTag freshTag' : string)
    (options options' : SetConversationProfileOptions) :
  is_lower_hex (mw_inboxId mw) = true ->
  NoDup (map cp_inboxId (md_profiles (currentMetadata g freshTag))) ->
  (forall saved, profileMetadata mw g freshTag options = Some saved ->
     (N.of_nat (length (encodeConversationMetadata saved)) <= MAX_DECOMPRESSED_SIZE)%N) ->
  let profiles := md_profiles (currentMetadata g freshTag) in
  exists inboxIdBytes saved,
    let profile :=
      {| cp_inboxId := inboxIdBytes; cp_name := sp_name options;
         cp_image := sp_image options |} in
    let profile' :=
      {| cp_inboxId := inboxIdBytes; cp_name := sp_name options';
         cp_image := sp_image options' |} in
    hexToBytes (mw_inboxId mw) = Some inboxIdBytes /\
    setConversationProfile mw g freshTag options = updateAppData g (encodeMetadata saved) /\
    md_tag saved = md_tag (currentMetadata g freshTag) /\
    md_expiresAtUnix saved = md_expiresAtUnix (currentMetadata g freshTag) /\
    md_imageEncryptionKey saved = md_imageEncryptionKey (currentMetadata g freshTag) /\
    NoDup (map cp_inboxId (md_profiles saved)) /\
    List.filter (own_profile (mw_inboxId mw)) (md_profiles saved) = [profile] /\
    (forall i p, profiles !! i = Some p -> cp_inboxId p = inboxIdBytes ->
                 md_profiles saved = <[i := profile]> profiles) /\
    ((forall p, In p profiles -> cp_inboxId p <> inboxIdBytes) ->
     md_profiles saved = profiles ++ [profile]) /\
    (forall i p, profiles !! i = Some p -> cp_inboxId p <> inboxIdBytes ->
                 md_profiles saved !! i = Some p) /\
    forall g1,
      setConversationProfile mw g freshTag options = Some g1 ->
      appData g1 = encodeMetadata saved /\
      md_profiles <$> decodeMetadata (appData g1)
      = Some (map profile_read_back (md_profiles saved)) /\
      exists saved',
        setConversationProfile mw g1 freshTag' options'
        = updateAppData g1 (encodeMetadata saved') /\
        length (md_profiles saved') = length (md_profiles saved) /\
        NoDup (map cp_inboxId (md_profiles saved')) /\
        List.filter (own_profile (mw_inboxId mw)) (md_profiles saved') = [profile'] /\
        (forall i p, md_profiles saved !! i = Some p -> cp_inboxId p <> inboxIdBytes ->
                     md_profiles saved' !! i = Some (profile_read_back p)) /\
        forall g2,
          setConversationProfile mw g1 freshTag' options' = Some g2 ->
          appData g2 = encodeMetadata saved'.
Proof.
  intros Hhex Hnd Hsize profiles.
  destruct (bytesToHex_hexToBytes _ Hhex) as (inboxIdBytes & Hbytes & _).
  set (metadata := currentMetadata g freshTag) in *.
  set (saved := {| md_tag := md_tag metadata;
                   md_profiles := upsertProfile profiles (mw_inboxId mw) inboxIdBytes options;
                   md_expiresAtUnix := md_expiresAtUnix metadata;
                   md_imageEncryptionKey := md_imageEncryptionKey metadata |}).
  assert (Hsaved : profileMetadata mw g freshTag options = Some saved).
  { unfold profileMetadata. rewrite Hbytes. reflexivity. }
  specialize (Hsize saved Hsaved).
  exists inboxIdBytes, saved. cbv zeta.
  split; [exact Hbytes|].
  split; [unfold setConversationProfile; now rewrite Hsaved|].
  cbn [saved md_tag md_profiles md_expiresAtUnix md_imageEncryptionKey].
  split; [reflexivity|]. split; [reflexivity|]. split; [reflexivity|].
  pose proof (upsertProfile_NoDup _ _ Hhex Hbytes profiles options Hnd) as Hnd1.
  split; [exact Hnd1|].
  split; [exact (upsertProfile_one _ _ Hhex Hbytes profiles options Hnd)|].
  split; [|split; [|split]].
  - intros i p Hp Hid.
    destruct (upsertProfile_cases _ _ Hhex Hbytes profiles options)
      as [(j & q & Hq & Hqid & ->) | (Hno & _)].
    + assert (i = j) as ->; [|reflexivity].
      apply (NoDup_lookup_key cp_inboxId profiles i j p q Hnd Hp Hq). congruence.
    + exfalso. apply (Hno p); [|exact Hid].
      apply list_elem_of_In. now apply list_elem_of_lookup_2 in Hp.
  - intros Hno.
    destruct (upsertProfile_cases _ _ Hhex Hbytes profiles options)
      as [(j & q & Hq & Hqid & _) | (_ & ->)]; [|reflexivity].
    exfalso. apply (Hno q); [|exact Hqid].
    apply list_elem_of_In. now apply list_elem_of_lookup_2 in Hq.
  - intros i p Hp Hid. exact (upsertProfile_others _ _ Hhex Hbytes profiles options i p Hnd Hp Hid).
  - intros g1 Hset.
    destruct (setConversationProfile_stores mw g freshTag options saved g1 Hsaved Hset)
      as (Ha & Hu).
    assert (He : opt_ok int64 (md_expiresAtUnix saved)) by apply currentMetadata_int64.
    pose proof (decodeMetadata_encodeMetadata saved Hsize He) as Hdec.
    split; [exact Ha|]. rewrite Ha, Hdec. split; [reflexivity|].
    assert (Hcur : currentMetadata g1 freshTag' = metadata_read_back saved).
    { unfold currentMetadata. rewrite Ha, encodeMetadata_nonempty. now rewrite Hdec. }
    set (saved' := {| md_tag := md_tag (metadata_read_back saved);
                      md_profiles :=
                        upsertProfile (md_profiles (metadata_read_back saved))
                          (mw_inboxId mw) inboxIdBytes options';
                      md_expiresAtUnix := md_expiresAtUnix (metadata_read_back saved);
                      md_imageEncryptionKey :=
                        md_imageEncryptionKey (metadata_read_back saved) |}).
    assert (Hsaved' : profileMetadata mw g1 freshTag' options' = Some saved').
    { unfold profileMetadata. rewrite Hbytes. cbn [mbind option_bind]. now rewrite Hcur. }
    exists saved'.
    split; [unfold setConversationProfile; now rewrite Hsaved'|].
    cbn [saved' md_profiles metadata_read_back].
    assert (Hnd2 : NoDup (map cp_inboxId (map profile_read_back (md_profiles saved)))).
    { rewrite map_profile_read_back. exact Hnd1. }
    split; [|split; [|split; [|split]]].
    + destruct (upsertProfile_own _ _ Hhex Hbytes profiles options) as (i & Hi).
      destruct (upsertProfile_cases _ _ Hhex Hbytes
                  (map profile_read_back (md_profiles saved)) options')
        as [(j & q & Hq & Hqid & ->) | (Hno & _)].
      * now rewrite length_insert, length_map.
      * exfalso. apply (Hno (profile_read_back
                               {| cp_inboxId := inboxIdBytes; cp_name := sp_name options;
                                  cp_image := sp_image options |})); [|reflexivity].
        apply in_map. apply list_elem_of_In. now apply list_elem_of_lookup_2 in Hi.
    + exact (upsertProfile_NoDup _ _ Hhex Hbytes _ options' Hnd2).
    + exact (upsertProfile_one _ _ Hhex Hbytes _ options' Hnd2).
    + intros i p Hp Hid.
      apply (upsertProfile_others _ _ Hhex Hbytes _ options' i (profile_read_back p) Hnd2);
        [|exact Hid].
      rewrite list_lookup_fmap. cbn [saved md_profiles]. now rewrite Hp.
    + intros g2 Hset2.
      exact (proj1 (setConversationProfile_stores mw g1 freshTag' options' saved' g2
                      Hsaved' Hset2)).
Qed.

(** C9 at a concrete input: a group with a profile of another inbox and
    one of the caller, and two calls. *)
Lemma profile_upsert_witness :
  exists g1 saved',
    @setConversationProfile reference_platform sample_middleware profile_group "t1" first_call
      = Some g1 /\
    md_profiles <$> @decodeMetadata reference_platform (appData g1)
      = Some [ other_profile;
               {| cp_inboxId := hex_pairs sample_inbox; cp_name := Some "Agent";
                  cp_image := Some "" |} ] /\
    @setConversationProfile reference_platform sample_middleware g1 "t2" second_call
      = @updateAppData g1 (@encodeMetadata reference_platform saved') /\
    List.filter (own_profile sample_inbox) (md_profiles saved')
      = [ {| cp_inboxId := hex_pairs sample_inbox; cp_name := Some "Agent 2";
             cp_image := Some "https://example.com/a.png" |} ].
Proof.
  assert (Hcur : md_profiles (@currentMetadata reference_platform profile_group "t1")
                 = [ other_profile;
                     {| cp_inboxId := hex_pairs sample_inbox; cp_name := Some "Old";
                        cp_image := Some "" |} ]) by (vm_compute; reflexivity).
  destruct (@profile_upsert reference_platform reference_laws sample_middleware
              profile_group "t1" "t2" first_call second_call)
    as (inboxIdBytes & saved & Hb & _ & _ & _ & _ & _ & _ & Hreplace & _ & _ & Htwo).
  - evaluate.
  - rewrite Hcur. apply (bool_decide_unpack _). vm_compute. exact I.
  - intros saved Hs. vm_compute in Hs. injection Hs as <-. evaluate.
  - assert (Hid : inboxIdBytes = hex_pairs sample_inbox).
    { vm_compute in Hb. injection Hb as <-. vm_compute. reflexivity. }
    subst inboxIdBytes.
    destruct (@setConversationProfile reference_platform sample_middleware profile_group
                "t1" first_call) as [g1|] eqn:Hg1; [|vm_compute in Hg1; discriminate Hg1].
    destruct (Htwo g1 eq_refl) as (_ & Hdec & saved' & Hset' & _ & _ & Hone & _).
    exists g1, saved'. split; [reflexivity|]. split; [|split; [exact Hset' | exact Hone]].
    rewrite Hdec.
    rewrite (Hreplace 1 _ ltac:(rewrite Hcur; reflexivity) eq_refl). rewrite Hcur.
    reflexivity.
Defined.

(** C9 fails as stated: a caller whose inbox id is written in capitals.
    [hexToBytes] reads [ABCD] as the bytes ab cd, but the search compares
    [bytesToHex] of an entry, which is [abcd], with [ABCD] and finds
    nothing, so the second call appends a second profile with the same
    inbox id. *)
Lemma profile_upsert_uppercase_inbox_id :
  exists g1 g2,
    @setConversationProfile reference_platform uppercase_middleware fresh_group "a1B2c3D4e5"
      first_call = Some g1 /\
    @setConversationProfile reference_platform uppercase_middleware g1 "b2C3d4E5f6"
      second_call = Some g2 /\
    md_profiles <$> @decodeMetadata reference_platform (appData g2)
    = Some [ {| cp_inboxId := [xab; xcd]; cp_name := Some "Agent"; cp_image := Some "" |};
             {| cp_inboxId := [xab; xcd]; cp_name := Some "Agent 2";
                cp_image := Some "https://example.com/a.png" |} ].
Proof.
  eexists _, _. split; [reflexivity|]. split; reflexivity.
Qed.

(** ** Empty display fields *)

(** C10.  For every wire encoding of an invite payload,
    [decodeInvitePayload] returns a name, description and image URL that
    are never the empty string, and returns them not set where the
    message read from the wire has them as the empty string; an invite
    minted with empty display strings parses with those fields not
    set. *)
Theorem empty_display_fields `{L : PlatformLaws} (bs : bytes) (m : InvitePayloadMessage)
    (p : InvitePayload) (nonce : bytes) (now_ms : Z) (options : CreateInviteOptions)
    (pk : bytes) :
  (InvitePayloadType_decode bs = Some m ->
   decodeInvitePayload bs = Some p ->
   (msg_name m = Some "" -> ip_name p = None) /\
   (msg_description m = Some "" -> ip_description p = None) /\
   (msg_imageURL m = Some "" -> ip_imageURL p = None) /\
   ip_name p <> Some "" /\ ip_description p <> Some "" /\ ip_imageURL p <> Some "") /\
  (length nonce = 12 ->
   secp_getPublicKey (o_privateKey options) = Some pk ->
   is_lower_hex (o_creatorInboxId options) = true ->
   packable (o_conversationId options) ->
   opt_ok valid_date (o_expiresAt options) ->
   opt_ok valid_date (o_conversationExpiresAt options) ->
   (forall sb, signedInviteBytes nonce options = Some sb ->
               (N.of_nat (length sb) <= MAX_DECOMPRESSED_SIZE)%N) ->
   exists slug parsed,
     createInviteSlug nonce options = Some slug /\
     parseInviteSlug now_ms slug = Some parsed /\
     ip_name (pi_payload parsed) = o_name options ≫= or_undefined /\
     ip_description (pi_payload parsed) = o_description options ≫= or_undefined /\
     ip_imageURL (pi_payload parsed) = o_imageURL options ≫= or_undefined).
Proof.
  split.
  - unfold decodeInvitePayload. intros -> [= <-]. cbn.
    repeat split; try (intros ->; reflexivity).
    all: match goal with |- or_undefined ?s <> _ => now destruct s end.
  - intros Hn Hk Hhex Hp Hd1 Hd2 Hsize.
    destruct (parse_created_slug nonce now_ms options pk Hn Hk Hhex Hp Hd1 Hd2 Hsize)
      as (slug & payload & signature & Hslug & _ & Hparse & _ & _ & _ & Hname & Hdesc
          & Himg & _).
    eexists slug, _. split; [exact Hslug|]. split; [exact Hparse|].
    cbn [pi_payload payload_read_back ip_name ip_description ip_imageURL].
    now rewrite Hname, Hdesc, Himg.
Qed.

(** C10 at concrete inputs: wire bytes with the three fields present and
    empty, and an invite minted with three empty strings. *)
Lemma empty_display_fields_witness :
  (InvitePayloadType_decode payload_empty_display = Some message_empty_display /\
   exists p, decodeInvitePayload payload_empty_display = Some p /\
             ip_name p = None /\ ip_description p = None /\ ip_imageURL p = None) /\
  exists slug parsed,
    @createInviteSlug reference_platform sample_nonce options_empty_display = Some slug /\
    @parseInviteSlug reference_platform 0 slug = Some parsed /\
    ip_name (pi_payload parsed) = None /\
    ip_description (pi_payload parsed) = None /\
    ip_imageURL (pi_payload parsed) = None.
Proof.
  destruct (@empty_display_fields reference_platform reference_laws
              payload_empty_display message_empty_display
              {| ip_conversationToken := []; ip_creatorInboxId := []; ip_tag := "t";
                 ip_name := None; ip_description := None; ip_imageURL := None;
                 ip_conversationExpiresAtUnix := None; ip_expiresAtUnix := None;
                 ip_expiresAfterUse := false |}
              sample_nonce 0 options_empty_display (x04 :: sample_key ++ sample_key))
    as [Hdecode Hmint].
  split.
  - split; [reflexivity|]. eexists. split; [reflexivity|].
    destruct (Hdecode eq_refl eq_refl) as (Hn & Hd & Hi & _).
    exact (conj (Hn eq_refl) (conj (Hd eq_refl) (Hi eq_refl))).
  - apply Hmint.
    + evaluate.
    + evaluate.
    + evaluate.
    + right. cbn. lia.
    + intros x [=].
    + intros x [=].
    + size_by_evaluation.
Defined.

(* ===================================================================== *)
(** * Part IV: further properties of the code                            *)
(* ===================================================================== *)

(** ** utils/hex.js *)

Lemma hex_char_lower (b : byte) :
  is_lower_hex_char (hex_char (Byte.to_N b / 16)) = true /\
  is_lower_hex_char (hex_char (Byte.to_N b mod 16)) = true.
Proof.
  pose (chk := fun b => is_lower_hex_char (hex_char (Byte.to_N b / 16))
                        && is_lower_hex_char (hex_char (Byte.to_N b mod 16))).
  assert (E : chk b = true) by (apply forall_byte; now vm_compute).
  now apply andb_prop in E.
Qed.

Lemma bytesToHex_shape (bs : bytes) :
  String.length (bytesToHex bs) = 2 * length bs /\
  string_forallb is_lower_hex_char (bytesToHex bs) = true.
Proof.
  induction bs as [|b r [IHl IHc]]; [split; reflexivity|].
  destruct (hex_char_lower b) as [H1 H2].
  cbn [bytesToHex byte_hex String.append String.length string_forallb length].
  rewrite IHl, H1, H2, IHc. split; [lia | reflexivity].
Qed.

(** X1.  [hexToBytes (bytesToHex bs)] is [bs] for every byte string, and
    [bytesToHex bs] is a string of [2 * length bs] lowercase hex digits. *)
Theorem hex_of_bytes_roundtrip (bs : bytes) :
  hexToBytes (bytesToHex bs) = Some bs /\
  String.length (bytesToHex bs) = 2 * length bs /\
  is_lower_hex (bytesToHex bs) = true.
Proof.
  destruct (bytesToHex_shape bs) as [Hl Hc].
  assert (He : Nat.even (String.length (bytesToHex bs)) = true).
  { rewrite Hl. rewrite Nat.even_mul. reflexivity. }
  split; [|split; [exact Hl|]].
  - rewrite hexToBytes_ascii by now apply lower_hex_chars_ascii.
    rewrite He. now rewrite hex_pairs_bytesToHex.
  - unfold is_lower_hex. now rewrite He, Hc.
Qed.

Lemma bytesToHex_hex_pairs_lower (s : string) :
  is_hex_string s = true -> bytesToHex (hex_pairs s) = toLowerCase s.
Proof.
  unfold is_hex_string. induction s as [|c|c1 c2 r IH] using string_ind2; intros H.
  - reflexivity.
  - cbn in H. discriminate.
  - cbn [String.length Nat.even string_forallb] in H.
    apply andb_prop in H as [He H]. apply andb_prop in H as [H1 H].
    apply andb_prop in H as [H2 H].
    cbn [hex_pairs bytesToHex toLowerCase].
    rewrite hex_pair_lower by assumption.
    rewrite IH by now rewrite He, H. reflexivity.
Qed.

(** X2.  For every string of hex digits, in capitals or not: if its
    length is even, [hexToBytes] returns half as many bytes and
    [bytesToHex] of them is the string in lowercase; if its length is
    odd, [hexToBytes] throws. *)
Theorem hexToBytes_hex_digits (s : string) :
  string_forallb is_hex_char s = true ->
  if Nat.even (String.length s)
  then exists bs, hexToBytes s = Some bs /\
                  2 * length bs = String.length s /\
                  bytesToHex bs = toLowerCase s
  else hexToBytes s = None.
Proof.
  intros Hc. rewrite hexToBytes_ascii by now apply hex_chars_ascii.
  destruct (Nat.even (String.length s)) eqn:He; [|reflexivity].
  assert (H : is_hex_string s = true) by (unfold is_hex_string; now rewrite He, Hc).
  pose proof (bytesToHex_hex_pairs_lower s H) as Hb.
  exists (hex_pairs s). split; [reflexivity|]. split; [|exact Hb].
  pose proof (bytesToHex_shape (hex_pairs s)) as [Hl _]. rewrite Hb in Hl.
  rewrite <- Hl. clear. induction s as [|c r IH]; [reflexivity|].
  cbn [toLowerCase String.length]. now rewrite IH.
Qed.

(** X2 at two inputs: eight digits in mixed case, and seven digits. *)
Lemma hexToBytes_hex_digits_witness :
  (exists bs, hexToBytes "00FfaB10" = Some bs /\ 2 * length bs = 8 /\
              bytesToHex bs = "00ffab10") /\
  hexToBytes "00FfaB1" = None.
Proof.
  split.
  - exact (hexToBytes_hex_digits "00FfaB10" eq_refl).
  - exact (hexToBytes_hex_digits "00FfaB1" eq_refl).
Defined.

(** ** utils/base64url.js *)

Lemma sextets_length (bs : bytes) : length (sextets bs) = (4 * length bs + 2) / 3.
Proof.
  induction bs as [|a|a b|a b c r IH] using list_ind3; cbn [sextets length];
    try reflexivity.
  rewrite IH. replace (4 * S (S (S (length r))) + 2) with ((4 * length r + 2) + 4 * 3) by lia.
  rewrite Nat.div_add by lia. lia.
Qed.

Lemma string_of_chars_length (l : list ascii) : String.length (string_of_chars l) = length l.
Proof. induction l as [|c r IH]; cbn; [reflexivity | now rewrite IH]. Qed.

(** X3.  [base64UrlDecode (base64UrlEncode data)] is [data] for every
    byte string; the encoding consists of letters, digits, [-] and [_]
    only, without padding, and has [ceil (4 n / 3)] characters for [n]
    bytes. *)
Theorem base64url_roundtrip (data : bytes) :
  base64UrlDecode (base64UrlEncode data) = data /\
  string_forallb is_urlchar (base64UrlEncode data) = true /\
  String.length (base64UrlEncode data) = (4 * length data + 2) / 3.
Proof.
  split; [apply base64UrlDecode_encode|]. split; [apply base64UrlEncode_urlchars|].
  rewrite base64UrlEncode_chars, string_of_chars_length, length_map.
  apply sextets_length.
Qed.

(** ** utils/compression.js *)

(** X4.  [compressIfSmaller] never returns more bytes than it is given:
    it returns its input, or, for an input of at least 100 bytes, the
    marker byte followed by the deflate stream where that is strictly
    shorter than the input. *)
Theorem compressIfSmaller_not_longer `{P : Platform} (data : bytes) :
  length (compressIfSmaller data) <= length data /\
  (compressIfSmaller data = data \/
   exists compressed,
     pako_deflate data = Some compressed /\
     compressIfSmaller data = COMPRESSION_MARKER :: compressed /\
     isCompressed (compressIfSmaller data) = true /\
     length (compressIfSmaller data) < length data /\
     MIN_SIZE_FOR_COMPRESSION <= length data).
Proof.
  unfold compressIfSmaller.
  destruct (length data <? MIN_SIZE_FOR_COMPRESSION) eqn:Hmin; [split; [lia | now left]|].
  apply Nat.ltb_ge in Hmin.
  destruct (pako_deflate data) as [c|]; [|split; [lia | now left]].
  destruct (length c + 1 <? length data) eqn:Hlt; [|split; [lia | now left]].
  apply Nat.ltb_lt in Hlt. split; [cbn [length]; lia|].
  right. exists c. repeat split; try assumption; cbn [length]; lia.
Qed.

(** ** invite/encoding.js *)

Lemma string_take_length (n : nat) (s : string) :
  String.length (string_take n s) = Nat.min n (String.length s).
Proof.
  revert s. induction n as [|n IH]; intros [|c r]; cbn [string_take String.length];
    try reflexivity.
  now rewrite IH.
Qed.

Lemma slices_empty (fuel every : nat) : slices fuel every EmptyString = [].
Proof. destruct fuel; reflexivity. Qed.

Lemma slices_cons (f every : nat) (s : string) :
  0 < String.length s ->
  slices (S f) every s = string_take every s :: slices f every (string_drop every s).
Proof. destruct s; [cbn; lia | reflexivity]. Qed.

Lemma slices_spec (every : nat) :
  0 < every ->
  forall fuel s, String.length s <= fuel ->
    concat_strings (slices fuel every s) = s /\
    Forall (fun p => 0 < String.length p <= every) (slices fuel every s) /\
    length (slices fuel every s) = (String.length s + every - 1) / every.
Proof.
  intros He. induction fuel as [|f IH]; intros s Hs.
  - destruct s; [|cbn in Hs; lia]. cbn. split; [reflexivity|]. split; [constructor|].
    symmetry. apply Nat.div_small. lia.
  - destruct (Nat.eq_dec (String.length s) 0) as [Hz|Hnz].
    + destruct s; [|discriminate]. cbn. split; [reflexivity|]. split; [constructor|].
      symmetry. apply Nat.div_small. lia.
    + assert (Hpos : 0 < String.length s) by lia.
      rewrite (slices_cons f every s Hpos).
      assert (Hd : String.length (string_drop every s) <= f)
        by (rewrite string_drop_length; lia).
      destruct (IH (string_drop every s) Hd) as (Hc & Hf & Hn).
      cbn [concat_strings length]. rewrite Hc, take_drop. split; [reflexivity|].
      split.
      * constructor; [|exact Hf]. rewrite string_take_length. lia.
      * rewrite Hn, string_drop_length.
        destruct (Nat.le_gt_cases (String.length s) every) as [Hle|Hgt].
        -- replace (String.length s - every) with 0 by lia.
           rewrite (Nat.div_small (0 + every - 1)) by lia.
           apply (Nat.div_unique _ _ 1 (String.length s - 1)); lia.
        -- replace (String.length s + every - 1)
             with ((String.length s - every + every - 1) + 1 * every) by lia.
           rewrite Nat.div_add by lia. lia.
Qed.

Lemma join_singleton_take (every : nat) (s : string) (sep : ascii) :
  String.length s <= every -> join sep (slices (String.length s) every s) = s.
Proof.
  intros H. destruct (Nat.eq_dec (String.length s) 0) as [Hz|Hnz].
  { destruct s; [reflexivity | discriminate]. }
  destruct (String.length s) as [|n] eqn:El; [lia|].
  rewrite (slices_cons n every s) by lia.
  assert (Hd : string_drop every s = EmptyString).
  { pose proof (string_drop_length every s) as Hl.
    destruct (string_drop every s); [reflexivity | cbn in Hl; lia]. }
  rewrite Hd, slices_empty. cbn [join].
  pose proof (take_drop every s) as Ht. rewrite Hd, app_empty_r in Ht. exact Ht.
Qed.

(** X5.  For a chunk size above 0, [insertSeparators] cuts the string
    into consecutive pieces and joins them with the separator: the
    pieces put together are the string, each has between 1 and [every]
    characters, and there are [ceil (length / every)] of them. *)
Theorem insertSeparators_pieces (str : string) (separator : ascii) (every : nat) :
  0 < every ->
  exists parts,
    insertSeparators str separator every = join separator parts /\
    concat_strings parts = str /\
    Forall (fun p => 0 < String.length p <= every) parts /\
    length parts = (String.length str + every - 1) / every.
Proof.
  intros He. exists (slices (String.length str) every str).
  destruct (slices_spec every He (String.length str) str (Nat.le_refl _)) as (Hc & Hf & Hn).
  split; [|now repeat split].
  unfold insertSeparators. destruct (String.length str <=? every) eqn:E; [|reflexivity].
  apply Nat.leb_le in E. symmetry. now apply join_singleton_take.
Qed.

(** X5 at a concrete input: seven characters in pieces of three. *)
Lemma insertSeparators_pieces_witness :
  exists parts,
    insertSeparators "abcdefg" "*" 3 = join "*" parts /\
    concat_strings parts = "abcdefg" /\
    Forall (fun p => 0 < String.length p <= 3) parts /\
    length parts = 3.
Proof. exact (insertSeparators_pieces "abcdefg" "*" 3 ltac:(lia)). Defined.

(** X6.  For every byte string of at most 1 MiB that is compressed or
    does not begin with the marker byte, [decodeFromSlug (encodeToSlug
    data)] is [data]; the slug consists of letters, digits, [-], [_] and
    [*] only, and [parseInviteCode] returns it as it is. *)
Theorem slug_roundtrip `{L : PlatformLaws} (data : bytes) :
  (N.of_nat (length data) <= MAX_DECOMPRESSED_SIZE)%N ->
  isCompressed data = false \/ compressIfSmaller data <> data ->
  decodeFromSlug (encodeToSlug data) = Some data /\
  string_forallb slug_char (encodeToSlug data) = true /\
  parseInviteCode (encodeToSlug data) = encodeToSlug data.
Proof.
  intros Hsize Hc. split; [|split].
  - rewrite decodeFromSlug_encodeToSlug. now apply decompress_compressIfSmaller.
  - apply encodeToSlug_slug_chars.
  - apply parseInviteCode_slug, encodeToSlug_slug_chars.
Qed.

(** X6 at a concrete input: 400 bytes, whose slug has a separator. *)
Lemma slug_roundtrip_witness :
  @decodeFromSlug reference_platform
    (@encodeToSlug reference_platform (map byte_of_N (map N.of_nat (seq 0 400))))
  = Some (map byte_of_N (map N.of_nat (seq 0 400))) /\
  string_mem "*" (@encodeToSlug reference_platform (map byte_of_N (map N.of_nat (seq 0 400))))
  = true.
Proof.
  split; [|evaluate].
  apply (@slug_roundtrip reference_platform reference_laws).
  - evaluate.
  - left. evaluate.
Defined.

Lemma slug_char_unreserved (c : ascii) : slug_char c = true -> uri_unreserved c = true.
Proof. revert c. apply char_impl. now vm_compute. Qed.

Lemma encodeURIComponent_unreserved (s : string) :
  string_forallb uri_unreserved s = true -> encodeURIComponent s = s.
Proof.
  induction s as [|c r IH]; [reflexivity|]. cbn [string_forallb encodeURIComponent].
  intros H. apply andb_prop in H as [Hc Hr]. now rewrite Hc, IH.
Qed.

(** X7.  A slug made by [encodeToSlug] needs no escaping: the URL
    [generateInviteURL] builds for it is the base URL, [?i=] and the slug
    itself. *)
Theorem generateInviteURL_of_slug `{P : Platform} (data : bytes) (baseURL : string) :
  encodeURIComponent (encodeToSlug data) = encodeToSlug data /\
  generateInviteURL (encodeToSlug data) (Some baseURL)
  = baseURL +:+ "?i=" +:+ encodeToSlug data /\
  generateInviteURL (encodeToSlug data) None
  = "https://popup.convos.org/v2?i=" +:+ encodeToSlug data.
Proof.
  assert (E : encodeURIComponent (encodeToSlug data) = encodeToSlug data).
  { apply encodeURIComponent_unreserved.
    apply (string_forallb_impl slug_char); [apply slug_char_unreserved|].
    apply encodeToSlug_slug_chars. }
  unfold generateInviteURL. rewrite E. repeat split.
Qed.

(** ** proto/invite.ts *)

(** X8.  A 64-bit field on the wire: what [Long.fromBigInt] makes of a
    BigInt, written as [sfixed64], is 8 bytes that the reader reads back
    as a [Long] whose value, as [BigInt(l.toString())] gives it, is the
    BigInt wrapped modulo 2^64 into the signed 64-bit range; so every
    signed 64-bit integer is read back unchanged and any other integer is
    silently changed. *)
Theorem sfixed64_of_bigint_wraps (value : Z) (rest : bytes) :
  length (writer_sfixed64 (Long_fromBigInt value)) = 8 /\
  exists l,
    reader_sfixed64 (writer_sfixed64 (Long_fromBigInt value) ++ rest) = Some (l, rest) /\
    Long_toBigInt l = ((value + 2 ^ 63) mod 2 ^ 64 - 2 ^ 63)%Z /\
    (Long_toBigInt l = value <-> (- 2 ^ 63 <= value < 2 ^ 63)%Z).
Proof.
  split; [reflexivity|]. exists (Long_fromBigInt value).
  split; [apply reader_sfixed64_writer, Long_fromBigInt_wf|].
  assert (Hw : Long_toBigInt (Long_fromBigInt value)
               = ((value + 2 ^ 63) mod 2 ^ 64 - 2 ^ 63)%Z).
  { unfold Long_toBigInt, Long_fromBigInt. cbn [Long_low Long_high].
    change 4294967295%Z with (Z.ones 32). rewrite !Z.land_ones by lia.
    rewrite Z.shiftr_div_pow2 by lia. rewrite !Z.mod_mod by lia.
    assert (E : ((value / 2 ^ 32) mod 2 ^ 32 * 2 ^ 32 + value mod 2 ^ 32
                 = value mod 2 ^ 64)%Z).
    { change (2 ^ 64)%Z with (2 ^ 32 * 2 ^ 32)%Z. rewrite Z.rem_mul_r by lia. lia. }
    rewrite E. destruct (value mod 2 ^ 64 <? 2 ^ 63)%Z eqn:C.
    - apply Z.ltb_lt in C. divmod.
    - apply Z.ltb_ge in C. divmod. }
  split; [exact Hw|]. rewrite Hw. split; intros H.
  - pose proof (Z.mod_pos_bound (value + 2 ^ 63) (2 ^ 64) ltac:(lia)). lia.
  - rewrite Z.mod_small by lia. lia.
Qed.

(** X9.  For every invite payload whose encoding is shorter than 2^32
    bytes and whose timestamps are 64-bit integers,
    [decodeInvitePayload (encodeInvitePayload p)] is [p] with the empty
    display strings and the zero timestamps not set. *)
Theorem invite_payload_roundtrip (p : InvitePayload) :
  (N.of_nat (length (encodeInvitePayload p)) < 2 ^ 32)%N ->
  opt_ok int64 (ip_conversationExpiresAtUnix p) ->
  opt_ok int64 (ip_expiresAtUnix p) ->
  decodeInvitePayload (encodeInvitePayload p) = Some (payload_read_back p) /\
  (ip_name p <> Some "" -> ip_description p <> Some "" -> ip_imageURL p <> Some "" ->
   ip_conversationExpiresAtUnix p <> Some 0%Z -> ip_expiresAtUnix p <> Some 0%Z ->
   decodeInvitePayload (encodeInvitePayload p) = Some p).
Proof.
  intros Hs H1 H2.
  pose proof (decodeInvitePayload_encode p (encodeInvitePayload_ok p Hs H1 H2)) as E.
  split; [exact E|]. intros Hn Hd Hi Hc He. rewrite E. f_equal.
  destruct p as [t c tag n d i ce e u]. unfold payload_read_back. cbn in *. f_equal.
  - destruct n as [[|]|]; try reflexivity. contradiction.
  - destruct d as [[|]|]; try reflexivity. contradiction.
  - destruct i as [[|]|]; try reflexivity. contradiction.
  - destruct ce as [z|]; [|reflexivity]. cbn. destruct (z =? 0)%Z eqn:Z0; [|reflexivity].
    apply Z.eqb_eq in Z0. subst. contradiction.
  - destruct e as [z|]; [|reflexivity]. cbn. destruct (z =? 0)%Z eqn:Z0; [|reflexivity].
    apply Z.eqb_eq in Z0. subst. contradiction.
Qed.

(** X9 at a concrete input: a payload with a negative timestamp. *)
Lemma invite_payload_roundtrip_witness :
  decodeInvitePayload (encodeInvitePayload sample_payload) = Some sample_payload.
Proof.
  refine (proj2 (invite_payload_roundtrip sample_payload _ _ _) _ _ _ _ _).
  - evaluate.
  - intros z [= <-]. unfold int64. lia.
  - intros z [= <-]. unfold int64. lia.
  - discriminate.
  - discriminate.
  - discriminate.
  - discriminate.
  - discriminate.
Defined.

(** X10.  For every signed invite whose payload and signature are
    shorter than 2^32 bytes, [decodeSignedInvite (encodeSignedInvite
    invite)] is [invite]; the encoding begins with the tag byte 0x0a, so
    [decompress] never takes it for compressed data. *)
Theorem signed_invite_roundtrip (invite : SignedInvite) :
  (N.of_nat (length (si_payload invite)) < 2 ^ 32)%N ->
  (N.of_nat (length (si_signature invite)) < 2 ^ 32)%N ->
  decodeSignedInvite (encodeSignedInvite invite) = Some invite /\
  isCompressed (encodeSignedInvite invite) = false.
Proof.
  intros H1 H2. split; [now apply decodeSignedInvite_encode|].
  destruct (encodeSignedInvite_shape invite) as (rest & -> & _). reflexivity.
Qed.

(** X10 at a concrete input. *)
Lemma signed_invite_roundtrip_witness :
  decodeSignedInvite (encodeSignedInvite tampered_payload) = Some tampered_payload /\
  isCompressed (encodeSignedInvite tampered_payload) = false.
Proof. apply signed_invite_roundtrip; evaluate. Defined.

(** ** crypto/secp256k1.js *)

(** X11.  [constantTimeEqual] returns true exactly when the two byte
    strings are equal: they have the same length and the same bytes. *)
Theorem constantTimeEqual_decides (a b : bytes) :
  constantTimeEqual a b = bool_decide (a = b).
Proof.
  destruct (constantTimeEqual a b) eqn:E.
  - apply constantTimeEqual_spec in E. symmetry. now apply bool_decide_eq_true_2.
  - symmetry. apply bool_decide_eq_false_2. intros Hab.
    apply constantTimeEqual_spec in Hab. congruence.
Qed.

(** X12.  For every private key that [getPublicKey] accepts and every
    message hash of 32 bytes, [signWithRecovery] returns 65 bytes whose
    last byte is a recovery id of at most 3, and [recoverPublicKey] of
    the hash and that signature is the public key of the private key. *)
Theorem sign_then_recover `{L : PlatformLaws} (messageHash privateKey publicKey : bytes) :
  length messageHash = 32 ->
  getPublicKey privateKey = Some publicKey ->
  exists signature recoveryId,
    signWithRecovery messageHash privateKey = Some signature /\
    length signature = 65 /\
    signature !! 64 = Some recoveryId /\ (Byte.to_N recoveryId <= 3)%N /\
    recoverPublicKey messageHash signature = Some publicKey.
Proof.
  intros Hh Hk.
  destruct (sign_recover messageHash privateKey publicKey Hh Hk)
    as (c & v & Hs & Hc & Hv & Hr).
  assert (E : <[64 := v]> (firstn 65 (c ++ repeat x00 65)) = c ++ [v]).
  { rewrite firstn_app, Hc. rewrite firstn_all2 by lia.
    change (firstn (65 - 64) (repeat x00 65)) with [x00].
    rewrite insert_app_r_alt by lia. rewrite Hc. reflexivity. }
  exists (c ++ [v]), v. unfold signWithRecovery. rewrite Hs.
  cbn [mbind option_bind]. rewrite Hc. change (65 <? 64) with false. cbv iota.
  split; [now rewrite E|]. split; [rewrite length_app, Hc; reflexivity|].
  split; [rewrite lookup_app_r by lia; now rewrite Hc|]. split; [exact Hv|].
  unfold recoverPublicKey. rewrite length_app, Hc. cbn [length Nat.add Nat.eqb negb].
  rewrite lookup_app_r by lia. rewrite Hc.
  rewrite firstn_app, Hc. rewrite firstn_all2 by lia.
  change ([v] !! (64 - 64)) with (Some v). change (firstn (64 - 64) [v]) with (@nil byte).
  cbn [mbind option_bind]. rewrite app_nil_r.
  replace (3 <? Byte.to_N v)%N with false by (symmetry; apply N.ltb_ge; exact Hv).
  exact Hr.
Qed.

(** X12 at a concrete input. *)
Lemma sign_then_recover_witness :
  exists signature recoveryId,
    @signWithRecovery reference_platform (Reference.digest [x0a; x00]) sample_key
      = Some signature /\
    length signature = 65 /\
    signature !! 64 = Some recoveryId /\ (Byte.to_N recoveryId <= 3)%N /\
    @recoverPublicKey reference_platform (Reference.digest [x0a; x00]) signature
      = Some (x04 :: sample_key ++ sample_key).
Proof.
  apply (@sign_then_recover reference_platform reference_laws); evaluate.
Defined.

(** ** invite/conversation-token.ts *)

(** X13.  [unpackConversationId (packConversationId id)] for every id: a
    UUID comes back in lowercase; any other id of 1 to 65535 bytes comes
    back as [TextDecoder] reads its bytes; the empty id and ids of more
    than 65535 bytes are packed but make [unpackConversationId] throw. *)
Theorem unpack_pack_all (conversationId : string) :
  unpackConversationId (packConversationId conversationId)
  = if UUID_PATTERN_test conversationId then Some (toLowerCase conversationId)
    else if ((1 <=? N.of_nat (String.length conversationId))
             && (N.of_nat (String.length conversationId) <=? 65535))%N
         then Some (TextDecoder_decode (utf8_encode conversationId))
         else None.
Proof.
  destruct (UUID_PATTERN_test conversationId) eqn:U.
  { rewrite unpack_pack by now left. unfold canonical_id. now rewrite U. }
  destruct ((1 <=? N.of_nat (String.length conversationId))
            && (N.of_nat (String.length conversationId) <=? 65535))%N eqn:B.
  { apply andb_prop in B as [B1 B2]. apply N.leb_le in B1, B2.
    rewrite unpack_pack by (right; lia). unfold canonical_id. now rewrite U. }
  unfold packConversationId. rewrite U.
  pose proof (utf8_encode_length conversationId) as Hn.
  set (bs := utf8_encode conversationId) in *. clearbody bs.
  rewrite <- Hn in B. clear Hn U conversationId.
  apply andb_false_iff in B. unfold unpackConversationId.
  change (byte_eqb TYPE_STRING TYPE_UUID) with false.
  change (byte_eqb TYPE_STRING TYPE_STRING) with true. cbv iota.
  destruct (length bs <=? 255) eqn:C.
  - apply Nat.leb_le in C. destruct B as [B|B]; [|apply N.leb_gt in B; lia].
    apply N.leb_gt in B. destruct bs; [reflexivity | cbn in B; lia].
  - apply Nat.leb_gt in C. destruct B as [B|B]; [apply N.leb_gt in B; lia|].
    apply N.leb_gt in B.
    change (byte_eqb x00 x00) with true. cbv iota.
    rewrite be16_join.
    change 255%N with (N.ones 8). rewrite !N.land_ones, N.shiftr_div_pow2.
    rewrite !to_N_byte_of_N. cbn [mbind option_bind length].
    set (len' := (((N.of_nat (length bs) / 2 ^ 8) mod 2 ^ 8) mod 256 * 256
                  + (N.of_nat (length bs) mod 2 ^ 8) mod 256)%N).
    assert (Hlt : (len' < 65536)%N).
    { subst len'. change (2 ^ 8)%N with 256%N.
      pose proof (N.mod_lt ((N.of_nat (length bs) / 256) mod 256) 256).
      pose proof (N.mod_lt (N.of_nat (length bs) mod 256) 256). lia. }
    replace (S (S (S (S (length bs)))) =? 4 + N.to_nat len') with false; [reflexivity|].
    symmetry. apply Nat.eqb_neq. lia.
Qed.

(** X14.  [decryptConversationToken] throws on the empty token, on a
    token whose first byte is not the format version 1, and on a token
    of fewer than 29 bytes, whatever the inbox id and the key. *)
Theorem decryptConversationToken_rejects `{P : Platform} (tokenBytes : bytes)
    (creatorInboxId : string) (privateKey : bytes) :
  tokenBytes !! 0 <> Some FORMAT_VERSION \/ length tokenBytes < 29 ->
  decryptConversationToken tokenBytes creatorInboxId privateKey = None.
Proof.
  intros H. unfold decryptConversationToken.
  destruct tokenBytes as [|version encrypted]; [reflexivity|].
  destruct (byte_eqb version FORMAT_VERSION) eqn:V; [|reflexivity].
  apply byte_eqb_eq in V. subst version. cbn [negb].
  destruct H as [H|H]; [now contradiction H|].
  unfold decrypt. cbn [length] in H.
  replace (length encrypted <? NONCE_LENGTH + TAG_LENGTH) with true; [reflexivity|].
  symmetry. apply Nat.ltb_lt. unfold NONCE_LENGTH, TAG_LENGTH. lia.
Qed.

(** X14 at two inputs: a token of version 2 and a token of 28 bytes. *)
Lemma decryptConversationToken_rejects_witness :
  @decryptConversationToken reference_platform (x02 :: repeat x00 40) sample_inbox sample_key
    = None /\
  @decryptConversationToken reference_platform (x01 :: repeat x00 27) sample_inbox sample_key
    = None.
Proof.
  split.
  - apply decryptConversationToken_rejects. left. discriminate.
  - apply decryptConversationToken_rejects. right. cbn. lia.
Defined.

(** ** crypto/chacha20poly1305.js and invite/conversation-token *)

(** X26.  [encrypt] puts the nonce in front of what the cipher returns,
    and [decrypt] reads it back: for a 32-byte key and a 12-byte nonce the
    result has the nonce as its first 12 bytes, is 28 bytes longer than
    the plaintext, and decrypts under the same key and associated data to
    the plaintext; and [decrypt] throws on every input shorter than
    28 bytes without calling the cipher. *)
Theorem encrypt_decrypt_roundtrip `{L : PlatformLaws} (nonce plaintext key aad : bytes) :
  length key = 32 -> length nonce = 12 ->
  (exists combined,
     encrypt nonce plaintext key aad = Some combined /\
     firstn 12 combined = nonce /\
     length combined = length plaintext + 28 /\
     decrypt combined key aad = Some plaintext) /\
  (forall short, length short < 28 -> decrypt short key aad = None).
Proof.
  intros Hk Hn. split.
  - destruct (decrypt_encrypt nonce plaintext key aad Hk Hn) as (combined & He & Hl & Hd).
    exists combined. split; [exact He|]. split; [|split; [lia | exact Hd]].
    unfold encrypt in He. destruct (chacha_encrypt key nonce aad plaintext) as [ct|];
      [|discriminate He]. injection He as <-.
    rewrite firstn_app, Hn. cbn [Nat.sub firstn]. rewrite app_nil_r.
    apply firstn_all2. lia.
  - intros short Hs. unfold decrypt, NONCE_LENGTH, TAG_LENGTH.
    apply Nat.ltb_lt in Hs. cbn [Nat.add]. now rewrite Hs.
Qed.

(** X26 at a concrete input. *)
Lemma encrypt_decrypt_roundtrip_witness :
  exists combined,
    @encrypt reference_platform sample_nonce [x68; x69] sample_key [x61] = Some combined /\
    firstn 12 combined = sample_nonce /\
    length combined = 30 /\
    @decrypt reference_platform combined sample_key [x61] = Some [x68; x69].
Proof.
  exact (proj1 (@encrypt_decrypt_roundtrip reference_platform reference_laws
                  sample_nonce [x68; x69] sample_key [x61] eq_refl eq_refl)).
Defined.

(** X27.  The conversation token: for a 12-byte nonce and a conversation
    id that is UUID-shaped or has 1 to 65535 UTF-8 bytes,
    [encryptConversationToken] returns the version byte 1, then the nonce
    in clear, then the ciphertext, 29 bytes more than the packed id in
    all, and [decryptConversationToken] with the same inbox id and key
    returns the conversation id as it is read back. *)
Theorem conversation_token_roundtrip `{L : PlatformLaws} (nonce : bytes)
    (conversationId creatorInboxId : string) (privateKey : bytes) :
  length nonce = 12 -> packable conversationId ->
  exists ciphertext,
    encryptConversationToken nonce conversationId creatorInboxId privateKey
    = Some (FORMAT_VERSION :: nonce ++ ciphertext) /\
    length ciphertext = length (packConversationId conversationId) + 16 /\
    decryptConversationToken (FORMAT_VERSION :: nonce ++ ciphertext) creatorInboxId privateKey
    = Some (canonical_id conversationId).
Proof.
  intros Hn Hp.
  destruct (decryptConversationToken_encrypt nonce conversationId creatorInboxId privateKey
              Hn Hp) as (token & He & Hl & Hd).
  unfold encryptConversationToken, encrypt in He.
  destruct (chacha_encrypt _ nonce _ _) as [ct|] eqn:Hc; [|discriminate He].
  cbn [mbind option_bind] in He. injection He as <-.
  exists ct. unfold encryptConversationToken, encrypt. rewrite Hc. cbn [mbind option_bind].
  split; [reflexivity|]. split; [|exact Hd].
  cbn [length] in Hl. rewrite length_app, Hn in Hl. lia.
Qed.

(** X27 at a concrete input. *)
Lemma conversation_token_roundtrip_witness :
  exists ciphertext,
    @decryptConversationToken reference_platform
      (FORMAT_VERSION :: sample_nonce ++ ciphertext) sample_inbox sample_key
    = Some "chat-42".
Proof.
  destruct (@conversation_token_roundtrip reference_platform reference_laws sample_nonce
              "chat-42" sample_inbox sample_key) as (ciphertext & _ & _ & Hd).
  - reflexivity.
  - right. cbn [String.length]. lia.
  - exists ciphertext. exact Hd.
Defined.

(** ** utils/random.js *)

Lemma random_char_alnum (b : byte) :
  exists c, random_char (Some b) = String c EmptyString /\ is_alnum c = true.
Proof.
  pose (chk := fun b =>
    match random_char (Some b) with
    | String c EmptyString => is_alnum c
    | _ => false
    end).
  assert (E : chk b = true) by (apply forall_byte; now vm_compute).
  unfold chk in E. destruct (random_char (Some b)) as [|c [|]]; try discriminate. eauto.
Qed.

Lemma generateSecureRandomString_from_shape (bytes : bytes) (count i : nat) :
  i + count <= length bytes ->
  String.length (generateSecureRandomString_from bytes i count) = count /\
  string_forallb is_alnum (generateSecureRandomString_from bytes i count) = true.
Proof.
  revert i. induction count as [|k IH]; intros i Hi; [split; reflexivity|].
  cbn [generateSecureRandomString_from].
  destruct (lookup_lt_is_Some_2 bytes i ltac:(lia)) as [b Hb]. rewrite Hb.
  destruct (random_char_alnum b) as (c & -> & Hc).
  destruct (IH (S i) ltac:(lia)) as [Hl Ha].
  cbn [String.append String.length string_forallb]. rewrite Hl, Hc, Ha. split; reflexivity.
Qed.

Lemma get_past_end (s : string) (n : nat) : String.length s <= n -> String.get n s = None.
Proof.
  revert n. induction s as [|c r IH]; intros n H; [reflexivity|].
  destruct n as [|n]; [cbn in H; lia|]. cbn [String.get]. apply IH. cbn in H. lia.
Qed.

(** X15.  Given as many random bytes as characters are asked for,
    [generateSecureRandomString] returns that many characters, all of
    them letters or digits, and [generateInviteTag] returns ten.  The
    characters are not equally likely: five byte values select each of
    the first eight characters of the alphabet and four select each of
    the others. *)
Theorem generateSecureRandomString_shape (bytes : bytes) (n : nat) :
  length bytes = n ->
  String.length (generateSecureRandomString bytes n) = n /\
  string_forallb is_alnum (generateSecureRandomString bytes n) = true /\
  (n = 10 -> String.length (generateInviteTag bytes) = 10) /\
  forall index c, String.get index ALPHANUMERIC = Some c ->
    length (bytes_selecting c) = if index <? 8 then 5 else 4.
Proof.
  intros Hn.
  destruct (generateSecureRandomString_from_shape bytes n 0 ltac:(lia)) as [Hl Ha].
  split; [exact Hl|]. split; [exact Ha|]. split.
  - intros ->. exact Hl.
  - intros index c Hc.
    assert (Hi : index < 62).
    { destruct (Nat.lt_ge_cases index 62) as [H|H]; [exact H|].
      rewrite get_past_end in Hc by exact H. discriminate Hc. }
    assert (E : forallb (fun i => match String.get i ALPHANUMERIC with
                                  | Some c => length (bytes_selecting c)
                                              =? (if i <? 8 then 5 else 4)
                                  | None => true
                                  end) (seq 0 62) = true) by (vm_compute; reflexivity).
    rewrite forallb_forall in E. specialize (E index ltac:(apply in_seq; lia)).
    rewrite Hc in E. now apply Nat.eqb_eq.
Qed.

(** X15 at a concrete input: the ten bytes 0, 25, 26, 51, 52, 61, 62,
    123, 248 and 255. *)
Lemma generateSecureRandomString_shape_witness :
  generateInviteTag [x00; x19; x1a; x33; x34; x3d; x3e; x7b; xf8; xff] = "AZaz09A9AH" /\
  String.length (generateInviteTag [x00; x19; x1a; x33; x34; x3d; x3e; x7b; xf8; xff]) = 10 /\
  length (bytes_selecting "A") = 5 /\ length (bytes_selecting "9") = 4.
Proof.
  destruct (generateSecureRandomString_shape
              [x00; x19; x1a; x33; x34; x3d; x3e; x7b; xf8; xff] 10 eq_refl)
    as (_ & _ & Hl & Hb).
  split; [reflexivity|]. split; [exact (Hl eq_refl)|].
  split; [exact (Hb 0 "A"%char eq_refl) | exact (Hb 61 "9"%char eq_refl)].
Defined.

(** ** middleware/convos-middleware.ts: metadata *)

(** Metadata of fewer than 100 bytes is stored uncompressed and read
    back without the libraries. *)
Lemma decodeMetadata_small `{P : Platform} (m : ConversationCustomMetadata) :
  length (encodeConversationMetadata m) < MIN_SIZE_FOR_COMPRESSION ->
  encodeMetadata m = base64UrlEncode (encodeConversationMetadata m) /\
  decodeMetadata (encodeMetadata m)
  = decodeConversationMetadata (encodeConversationMetadata m).
Proof.
  intros Hs.
  assert (E : compressIfSmaller (encodeConversationMetadata m) = encodeConversationMetadata m).
  { unfold compressIfSmaller. apply Nat.ltb_lt in Hs. now rewrite Hs. }
  unfold decodeMetadata, encodeMetadata. rewrite E. split; [reflexivity|].
  rewrite base64UrlDecode_encode.
  destruct (encodeConversationMetadata_head m) as (rest & ->). reflexivity.
Qed.

Lemma initial_metadata_size (tag : string) (seconds : option Z) :
  String.length tag = 10 ->
  length (encodeConversationMetadata
            {| md_tag := tag; md_profiles := []; md_expiresAtUnix := seconds;
               md_imageEncryptionKey := None |}) <= 21.
Proof.
  intros Ht. unfold encodeConversationMetadata, ConversationCustomMetadataType_encode.
  cbn [md_tag md_profiles md_expiresAtUnix md_imageEncryptionKey msg_md_tag msg_profiles
       msg_md_expiresAtUnix msg_imageEncryptionKey map concat field app].
  rewrite app_nil_r. unfold writer_string, writer_bytes.
  rewrite !length_app, utf8_encode_length, Ht.
  change (length (writer_uint32 (1 * 8 + 2))) with 1.
  change (length (writer_uint32 (N.of_nat 10))) with 1.
  destruct (Long_of_truthy seconds) as [l|]; cbn [field length]; [|lia].
  rewrite length_app. change (length (writer_uint32 (3 * 8 + 1))) with 1.
  unfold writer_sfixed64, writeFixed32. cbn [length app]. lia.
Qed.

(** X16.  For every ten random bytes and every valid date,
    [createInitialMetadata] returns metadata with the generated tag of
    ten letters and digits and no profiles, and an encoding from which
    [getInviteTag] reads that tag and which [decodeMetadata] reads back
    as the metadata, with the timestamp 0 where none was given and an
    empty key. *)
Theorem createInitialMetadata_decodes `{P : Platform} (bytes : bytes)
    (expiresAt : option Z) :
  length bytes = 10 ->
  opt_ok valid_date expiresAt ->
  let tag := generateInviteTag bytes in
  let created := createInitialMetadata tag expiresAt in
  md_tag (fst created) = tag /\
  String.length tag = 10 /\
  md_profiles (fst created) = [] /\
  getInviteTag (snd created) = Some tag /\
  decodeMetadata (snd created)
  = Some {| md_tag := tag; md_profiles := [];
            md_expiresAtUnix := Some (default 0%Z (unix_seconds expiresAt));
            md_imageEncryptionKey := Some [] |}.
Proof.
  intros Hb Hd tag created.
  destruct (generateSecureRandomString_from_shape bytes 10 0 ltac:(lia)) as [Hl _].
  fold (generateSecureRandomString bytes 10) in Hl. fold (generateInviteTag bytes) in Hl.
  fold tag in Hl.
  set (metadata := {| md_tag := tag; md_profiles := [];
                      md_expiresAtUnix := unix_seconds expiresAt;
                      md_imageEncryptionKey := None |}).
  assert (Hsize : length (encodeConversationMetadata metadata) <= 21)
    by now apply initial_metadata_size.
  destruct (decodeMetadata_small metadata) as [_ E];
    [unfold MIN_SIZE_FOR_COMPRESSION; lia|].
  assert (D : decodeMetadata (encodeMetadata metadata) = Some (metadata_read_back metadata)).
  { rewrite E. apply decodeConversationMetadata_encode; [lia|].
    now apply unix_seconds_int64. }
  subst created. unfold createInitialMetadata. cbn [fst snd]. fold metadata.
  split; [reflexivity|]. split; [exact Hl|]. split; [reflexivity|]. split.
  - unfold getInviteTag. rewrite D. reflexivity.
  - exact D.
Qed.

(** X16 at a concrete input. *)
Lemma createInitialMetadata_decodes_witness :
  @getInviteTag reference_platform
    (snd (@createInitialMetadata reference_platform
            (generateInviteTag [x00; x19; x1a; x33; x34; x3d; x3e; x7b; xf8; xff])
            (Some 1700000000123%Z)))
  = Some "AZaz09A9AH".
Proof.
  refine (proj1 (proj2 (proj2 (proj2
    (@createInitialMetadata_decodes reference_platform
       [x00; x19; x1a; x33; x34; x3d; x3e; x7b; xf8; xff] (Some 1700000000123%Z) _ _))))).
  - reflexivity.
  - intros x [= <-]. unfold valid_date. lia.
Defined.

(** X17.  [rotateInviteTag] changes the tag only: the profiles, the
    timestamp and the key of the new metadata are those of the current
    one; and for metadata of at most 1 MiB with a 64-bit timestamp,
    [getInviteTag] of the new encoding is the new tag and [decodeMetadata]
    of it has the profiles of the current metadata as they are read
    back. *)
Theorem rotateInviteTag_keeps `{L : PlatformLaws} (newTag : string)
    (currentMetadata : ConversationCustomMetadata) :
  let rotated := rotateInviteTag newTag currentMetadata in
  (N.of_nat (length (encodeConversationMetadata (rotated_metadata rotated)))
   <= MAX_DECOMPRESSED_SIZE)%N ->
  opt_ok int64 (md_expiresAtUnix currentMetadata) ->
  rotated_newTag rotated = newTag /\
  md_tag (rotated_metadata rotated) = newTag /\
  md_profiles (rotated_metadata rotated) = md_profiles currentMetadata /\
  md_expiresAtUnix (rotated_metadata rotated) = md_expiresAtUnix currentMetadata /\
  md_imageEncryptionKey (rotated_metadata rotated) = md_imageEncryptionKey currentMetadata /\
  getInviteTag (rotated_encodedMetadata rotated) = Some newTag /\
  md_profiles <$> decodeMetadata (rotated_encodedMetadata rotated)
  = Some (map profile_read_back (md_profiles currentMetadata)).
Proof.
  intros rotated Hsize He.
  pose proof (decodeMetadata_encodeMetadata (rotated_metadata rotated) Hsize He) as D.
  repeat split; try reflexivity.
  - unfold getInviteTag. cbn [rotated_encodedMetadata rotated rotateInviteTag].
    cbn [rotated_metadata rotated rotateInviteTag] in D. rewrite D. reflexivity.
  - cbn [rotated_encodedMetadata rotated rotateInviteTag].
    cbn [rotated_metadata rotated rotateInviteTag] in D. rewrite D. reflexivity.
Qed.

(** X17 at a concrete input: [sample_metadata] with a new tag. *)
Lemma rotateInviteTag_keeps_witness :
  @getInviteTag reference_platform
    (rotated_encodedMetadata (@rotateInviteTag reference_platform "Zz9Yy8Xx7W" sample_metadata))
  = Some "Zz9Yy8Xx7W" /\
  md_profiles (rotated_metadata
                 (@rotateInviteTag reference_platform "Zz9Yy8Xx7W" sample_metadata))
  = md_profiles sample_metadata.
Proof.
  destruct (@rotateInviteTag_keeps reference_platform reference_laws "Zz9Yy8Xx7W"
              sample_metadata) as (_ & _ & Hp & _ & _ & Ht & _).
  - evaluate.
  - intros z [= <-]. unfold int64. lia.
  - split; [exact Ht | exact Hp].
Defined.

(** ** middleware/convos-middleware.ts: [join] *)

(** X18.  [join] does not look at the signature: for the slug of any
    encoded signed invite of at most 1 MiB, whatever its signature bytes,
    that is not expired and names another inbox as creator, when
    [createDm] and the send resolve, [join] creates one DM with the
    creator, sends the slug on it once (by [sendText] when the
    conversation has it, else by [send]) and returns the creator, the tag
    and the display fields of the payload, with the conversation token
    printed as comma-separated decimal bytes for the conversation id. *)
Theorem join_sends_slug `{L : PlatformLaws} (mw : ConvosMiddleware)
    (createDm : string -> option DmConversation) (dm : DmConversation) (now_ms : Z)
    (payload : InvitePayload) (signature : bytes) :
  let signedInvite := {| si_payload := encodeInvitePayload payload;
                         si_signature := signature |} in
  let slug := encodeToSlug (encodeSignedInvite signedInvite) in
  let creator := bytesToHex (ip_creatorInboxId payload) in
  (N.of_nat (length (encodeSignedInvite signedInvite)) <= MAX_DECOMPRESSED_SIZE)%N ->
  opt_ok int64 (ip_conversationExpiresAtUnix payload) ->
  opt_ok int64 (ip_expiresAtUnix payload) ->
  expired_at now_ms (nonzero (ip_expiresAtUnix payload)) = false ->
  expired_at now_ms (nonzero (ip_conversationExpiresAtUnix payload)) = false ->
  creator <> mw_inboxId mw ->
  createDm creator = Some dm ->
  match dm_sendText dm with
  | Some sendText => sendText slug
  | None => dm_send dm slug
  end = true ->
  ConvosMiddleware_join mw (Some createDm) now_ms slug
  = ([DmCreated creator;
      match dm_sendText dm with Some _ => TextSent slug | None => ContentSent slug end],
     Some {| join_conversationId := Uint8Array_toString (ip_conversationToken payload);
             join_creatorInboxId := creator;
             join_inviteTag := ip_tag payload;
             join_name := ip_name payload ≫= or_undefined;
             join_description := ip_description payload ≫= or_undefined |}).
Proof.
  intros signedInvite slug creator Hsize H7 H8 He Hce Hcreator Hdm Hsend.
  pose proof (parseInviteSlug_encodeToSlug now_ms payload signature Hsize H7 H8) as Hparse.
  fold signedInvite in Hparse. fold slug in Hparse. fold creator in Hparse.
  unfold ConvosMiddleware_join. rewrite Hparse.
  cbn [pi_isExpired pi_isConversationExpired pi_creatorInboxId pi_payload].
  rewrite He, Hce. destruct (decide _) as [E|_]; [contradiction|].
  rewrite Hdm.
  assert (Hcode : parseInviteCode slug = slug)
    by apply parseInviteCode_slug, encodeToSlug_slug_chars.
  rewrite Hcode.
  destruct (dm_sendText dm) as [sendText|]; rewrite Hsend; reflexivity.
Qed.

(** X18 at a concrete input: [open_payload] with an empty signature. *)
Lemma join_sends_slug_witness :
  snd (@ConvosMiddleware_join reference_platform joiner_middleware
         (Some (fun _ => Some resolving_dm)) 1600000000000
         (@encodeToSlug reference_platform (encodeSignedInvite
            {| si_payload := encodeInvitePayload open_payload; si_signature := [] |})))
  = Some {| join_conversationId := "1,160,161";
            join_creatorInboxId := "abcd";
            join_inviteTag := "a1B2c3D4e5";
            join_name := Some "Test Group Chat";
            join_description := None |}.
Proof.
  refine (eq_trans (f_equal snd
    (@join_sends_slug reference_platform reference_laws joiner_middleware
       (fun _ => Some resolving_dm) resolving_dm 1600000000000 open_payload []
       _ _ _ _ _ _ _ _)) _).
  - evaluate.
  - intros z [=].
  - intros z [= <-]. unfold int64. lia.
  - evaluate.
  - evaluate.
  - evaluate.
  - reflexivity.
  - reflexivity.
  - evaluate.
Defined.

(** ** middleware/convos-middleware.ts: from [createInvite] to the handlers *)

Lemma insertSeparators_nonempty (s : string) :
  string_forallb is_urlchar s = true -> nonempty s = true ->
  nonempty (insertSeparators s IMESSAGE_SEPARATOR IMESSAGE_CHUNK_SIZE) = true.
Proof.
  intros Hu Hn. pose proof (insertSeparators_strip s Hu) as E.
  destruct (insertSeparators s IMESSAGE_SEPARATOR IMESSAGE_CHUNK_SIZE); [|reflexivity].
  cbn in E. subst s. discriminate.
Qed.

Lemma encodeToSlug_nonempty `{P : Platform} (b : byte) (r : bytes) :
  nonempty (encodeToSlug (b :: r)) = true.
Proof.
  unfold encodeToSlug. apply insertSeparators_nonempty; [apply base64UrlEncode_urlchars|].
  destruct (compressIfSmaller_cases (b :: r)) as [-> | (c & _ & _ & ->)];
    apply base64UrlEncode_nonempty.
Qed.

(** X19.  An invite of the middleware reaches its handlers: for a
    middleware with a key that [getPublicKey] accepts and a lowercase hex
    inbox id, [createInviteInternal] returns an invite, and when its slug
    arrives as the text of a message from another inbox before either
    expiry, while the agent finds the conversation, [handleMessage]
    reports the message as handled and runs the registered handlers,
    each on a context with the sender as joiner, the conversation id as
    it is read back and the tag the invite was created with. *)
Theorem created_invite_reaches_handlers `{L : PlatformLaws} (mw : ConvosMiddleware)
    (nonce : bytes) (now_ms err_ms : Z) (conversationId tag : string)
    (options : option ConvosGroupInviteOptions) (pk : bytes) :
  length nonce = 12 ->
  secp_getPublicKey (mw_privateKey mw) = Some pk ->
  is_lower_hex (mw_inboxId mw) = true ->
  packable conversationId ->
  opt_ok valid_date (options ≫= go_expiresAt) ->
  opt_ok valid_date (options ≫= go_conversationExpiresAt) ->
  (forall sb,
     signedInviteBytes nonce (internal_options mw conversationId tag options) = Some sb ->
     (N.of_nat (length sb) <= MAX_DECOMPRESSED_SIZE)%N) ->
  expired_at now_ms (nonzero (unix_seconds (options ≫= go_expiresAt))) = false ->
  expired_at now_ms (nonzero (unix_seconds (options ≫= go_conversationExpiresAt))) = false ->
  exists r parsedInvite,
    createInviteInternal mw nonce conversationId tag options = Some r /\
    url r = generateInviteURL (slug r) (Some (mw_inviteBaseURL mw)) /\
    parseInviteSlug now_ms (slug r) = Some parsedInvite /\
    forall ctx conversation,
      extractText (ctx_content ctx) = Some (slug r) ->
      ctx_senderInboxId ctx <> mw_inboxId mw ->
      agent_getConversationById (mw_agent mw) (canonical_id conversationId)
      = Some (Some conversation) ->
      handleMessage mw now_ms err_ms ctx
      = (emit (mw_agent mw) ctx err_ms
           {| joinerInboxId := ctx_senderInboxId ctx;
              ic_conversationId := canonical_id conversationId;
              ic_inviteTag := tag;
              invite := parsedInvite |} conversation 0 (mw_inviteHandlers mw),
         Some true).
Proof.
  intros Hn Hk Hhex Hp Hd1 Hd2 Hsize He Hce.
  set (opts := internal_options mw conversationId tag options) in *.
  destruct (parse_created_slug nonce now_ms opts pk Hn Hk Hhex Hp Hd1 Hd2 Hsize)
    as (s & payload & signature & Hslug & _ & Hparse & Hv & Hdec & Htag & _).
  destruct (signedInviteBytes_steps nonce opts pk Hn Hk Hhex Hp)
    as (payload' & signature' & _ & Hsb & _).
  assert (Hne : nonempty s = true).
  { unfold createInviteSlug in Hslug. rewrite Hsb in Hslug. cbn [mbind option_bind] in Hslug.
    injection Hslug as <-.
    destruct (encodeSignedInvite_shape {| si_payload := encodeInvitePayload payload';
                                          si_signature := signature' |}) as (rest & -> & _).
    apply encodeToSlug_nonempty. }
  assert (Hr : createInviteInternal mw nonce conversationId tag options
               = Some {| slug := s;
                         url := generateInviteURL s (Some (mw_inviteBaseURL mw));
                         qrData := generateInviteURL s (Some (mw_inviteBaseURL mw)) |}).
  { unfold createInviteInternal. fold (internal_options mw conversationId tag options).
    fold opts. rewrite Hslug. reflexivity. }
  eexists _, _. split; [exact Hr|]. cbn [slug url]. split; [reflexivity|].
  split; [exact Hparse|].
  intros ctx conversation Htext Hsender Hconv.
  unfold handleMessage. rewrite Htext. cbn [truthy_param]. rewrite Hne.
  destruct (decide _) as [E|_]; [contradiction|].
  rewrite Hparse. cbn [pi_creatorInboxId pi_signedInvite pi_isExpired pi_isConversationExpired
                       pi_payload opts internal_options o_creatorInboxId o_expiresAt
                       o_conversationExpiresAt].
  rewrite bool_decide_eq_true_2 by reflexivity. cbn [negb].
  unfold verifyInviteWithPrivateKey, getPublicKey. rewrite Hk. cbn [mbind option_bind].
  rewrite Hv, He, Hce. cbn [orb].
  unfold decryptInviteConversationId.
  cbn [pi_payload pi_creatorInboxId payload_read_back ip_conversationToken ip_tag].
  cbn [opts internal_options o_creatorInboxId o_privateKey o_conversationId o_inviteTag]
    in Hdec, Htag.
  rewrite Hdec, Hconv, Htag. reflexivity.
Qed.

(** X19 at a concrete input: an invite of [sample_middleware], whose
    handler accepts, sent back by the inbox [00ff]. *)
Lemma created_invite_reaches_handlers_witness :
  exists r,
    @createInviteInternal reference_platform sample_middleware sample_nonce
      "550e8400-e29b-41d4-a716-446655440000" "a1B2c3D4e5" None = Some r /\
    handler_runs
      (fst (@handleMessage reference_platform sample_middleware 1600000000000 1600000000000
              (message_from "00ff" (slug r)))) = [0].
Proof.
  destruct (@created_invite_reaches_handlers reference_platform reference_laws
              sample_middleware sample_nonce 1600000000000 1600000000000
              "550e8400-e29b-41d4-a716-446655440000" "a1B2c3D4e5" None
              (default [] (Reference.public_key sample_key)))
    as (r & parsedInvite & Hr & _ & _ & Hrun).
  - reflexivity.
  - evaluate.
  - evaluate.
  - left. evaluate.
  - intros x [=].
  - intros x [=].
  - intros sb Hsb. vm_compute in Hsb. injection Hsb as <-. evaluate.
  - reflexivity.
  - reflexivity.
  - exists r. split; [exact Hr|].
    rewrite (Hrun (message_from "00ff" (slug r)) "550e8400-e29b-41d4-a716-446655440000").
    + reflexivity.
    + reflexivity.
    + evaluate.
    + reflexivity.
Defined.

(** ** middleware/convos-middleware.ts: the invite handlers *)

Lemma run_actions_events `{P : Platform} (agent : XMTPAgent) (ctx : XMTPMessageContext)
    (err_ms : Z) (ic : InviteContext) (conversation : string) (actions : list HandlerAction) :
  Forall (handler_event ic conversation)
         (fst (run_actions agent ctx err_ms ic conversation actions)) /\
  handler_runs (fst (run_actions agent ctx err_ms ic conversation actions)) = [].
Proof.
  induction actions as [|a rest [IH1 IH2]]; [split; [constructor | reflexivity]|].
  destruct a as [|error|]; cbn [run_actions].
  - destruct (agent_addMembers agent conversation [joinerInboxId ic]).
    + destruct (run_actions agent ctx err_ms ic conversation rest) as [t threw].
      cbn [fst] in *. split; [constructor; [split; reflexivity | exact IH1] | exact IH2].
    + cbn [fst]. split; [repeat constructor | reflexivity].
  - destruct (run_actions agent ctx err_ms ic conversation rest) as [t threw].
    cbn [fst sendError app] in *. split; [constructor; [exact I | exact IH1] | exact IH2].
  - split; [constructor | reflexivity].
Qed.

Lemma handler_runs_app (a b : list Trace) :
  handler_runs (a ++ b) = handler_runs a ++ handler_runs b.
Proof.
  induction a as [|[e|i c] a IH]; cbn [app handler_runs]; [reflexivity | exact IH |].
  now rewrite IH.
Qed.

(** Every handler runs once, in the order of registration, and the
    handlers touch nothing but the conversation of the invite. *)
Lemma emit_events `{P : Platform} (agent : XMTPAgent) (ctx : XMTPMessageContext)
    (err_ms : Z) (ic : InviteContext) (conversation : string) (index : nat)
    (handlers : list InviteHandler) :
  Forall (handler_event ic conversation)
         (emit agent ctx err_ms ic conversation index handlers) /\
  handler_runs (emit agent ctx err_ms ic conversation index handlers)
  = seq index (length handlers).
Proof.
  revert index. induction handlers as [|handler rest IH]; intros index;
    [split; [constructor | reflexivity]|].
  cbn [emit length seq].
  destruct (run_actions_events agent ctx err_ms ic conversation (handler ic)) as [H1 H2].
  destruct (run_actions agent ctx err_ms ic conversation (handler ic)) as [t threw].
  cbn [fst] in H1, H2. destruct (IH (S index)) as [IH1 IH2]. split.
  - constructor; [reflexivity|]. apply Forall_app. split; [exact H1|].
    apply Forall_app. split; [|exact IH1].
    destruct threw; [|constructor]. cbn [sendError]. repeat constructor.
  - cbn [handler_runs]. rewrite !handler_runs_app, H2, IH2.
    destruct threw; reflexivity.
Qed.

(** ** middleware/convos-middleware.ts: [handleMessage] *)

(** The ways a run of [handleMessage] ends. *)
Lemma handleMessage_cases `{P : Platform} (mw : ConvosMiddleware) (now_ms err_ms : Z)
    (ctx : XMTPMessageContext) :
  let run := handleMessage mw now_ms err_ms ctx in
  let sender := ctx_senderInboxId ctx in
  run = ([], Some false) \/
  run = ([], None) \/
  run = (blockSender (mw_agent mw) sender, Some true) \/
  (exists tag, run = (sendError ctx (createConversationExpiredError err_ms tag), Some true)) \/
  exists text parsedInvite conversationId conversation,
    truthy_param (extractText (ctx_content ctx)) = Some text /\
    sender <> mw_inboxId mw /\
    parseInviteSlug now_ms text = Some parsedInvite /\
    pi_creatorInboxId parsedInvite = mw_inboxId mw /\
    verifyInviteWithPrivateKey (pi_signedInvite parsedInvite) (mw_privateKey mw) = Some true /\
    pi_isExpired parsedInvite = false /\
    pi_isConversationExpired parsedInvite = false /\
    decryptInviteConversationId parsedInvite (mw_privateKey mw) = Some conversationId /\
    agent_getConversationById (mw_agent mw) conversationId = Some (Some conversation) /\
    run = (emit (mw_agent mw) ctx err_ms
             {| joinerInboxId := sender; ic_conversationId := conversationId;
                ic_inviteTag := ip_tag (pi_payload parsedInvite);
                invite := parsedInvite |} conversation 0 (mw_inviteHandlers mw),
           Some true).
Proof.
  intros run sender. subst run sender. unfold handleMessage.
  destruct (truthy_param (extractText (ctx_content ctx))) as [text|] eqn:Htext; [|now left].
  destruct (decide _) as [E|Hs]; [now left|].
  destruct (parseInviteSlug now_ms text) as [parsedInvite|] eqn:Hp.
  2:{ destruct (looksLikeInviteSlug text); [right; right; now left | now left]. }
  destruct (bool_decide (pi_creatorInboxId parsedInvite = mw_inboxId mw)) eqn:Hc;
    cbn [negb]; [|right; right; now left].
  apply bool_decide_eq_true_1 in Hc.
  destruct (verifyInviteWithPrivateKey _ _) as [[|]|] eqn:Hv;
    [| right; right; now left | right; now left].
  destruct (pi_isExpired parsedInvite) eqn:He; cbn [orb];
    [right; right; right; left; eexists; reflexivity|].
  destruct (pi_isConversationExpired parsedInvite) eqn:Hce;
    [right; right; right; left; eexists; reflexivity|].
  destruct (decryptInviteConversationId _ _) as [conversationId|] eqn:Hd;
    [|right; right; now left].
  destruct (agent_getConversationById _ _) as [[conversation|]|] eqn:Hg;
    [| right; right; right; left; eexists; reflexivity | right; now left].
  right; right; right; right.
  exists text, parsedInvite, conversationId, conversation. repeat split; assumption || reflexivity.
Qed.

Lemma blockSender_events (agent : XMTPAgent) (inboxId : string) (e : Trace) :
  In e (blockSender agent inboxId) ->
  e = Outside RefreshConsentList \/ e = Outside (Block [inboxId]).
Proof.
  unfold blockSender. destruct (agent_refreshConsentList agent); cbn; intuition.
Qed.

(** X21.  Members are added only for a verified invite: if a run of the
    middleware adds members to a conversation, then the message came from
    another inbox, its text parses as an invite whose creator is this
    inbox, the signature verifies with this inbox's key, neither expiry
    has passed, the token decrypts to the id of a conversation the agent
    finds, which is the conversation the members are added to, and the
    members added are the sender alone. *)
Theorem members_added_only_if_verified `{P : Platform} (mw : ConvosMiddleware)
    (now_ms err_ms : Z) (ctx : XMTPMessageContext) (c : string) (inboxIds : list string) :
  In (Outside (AddMembers c inboxIds)) (middleware mw now_ms err_ms ctx) ->
  exists text parsedInvite conversationId,
    extractText (ctx_content ctx) = Some text /\
    ctx_senderInboxId ctx <> mw_inboxId mw /\
    parseInviteSlug now_ms text = Some parsedInvite /\
    pi_creatorInboxId parsedInvite = mw_inboxId mw /\
    verifyInviteWithPrivateKey (pi_signedInvite parsedInvite) (mw_privateKey mw) = Some true /\
    pi_isExpired parsedInvite = false /\
    pi_isConversationExpired parsedInvite = false /\
    decryptInviteConversationId parsedInvite (mw_privateKey mw) = Some conversationId /\
    agent_getConversationById (mw_agent mw) conversationId = Some (Some c) /\
    inboxIds = [ctx_senderInboxId ctx].
Proof.
  intros Hin. unfold middleware in Hin.
  destruct (handleMessage_cases mw now_ms err_ms ctx)
    as [E | [E | [E | [(tag & E) | (text & parsedInvite & conversationId & conversation & Ht
        & Hs & Hp & Hc & Hv & He & Hce & Hd & Hg & E)]]]]; rewrite E in Hin.
  - cbn in Hin. destruct Hin as [H|[]]. discriminate H.
  - destruct Hin.
  - apply blockSender_events in Hin as [H|H]; discriminate H.
  - cbn in Hin. destruct Hin as [H|[]]. discriminate H.
  - destruct (emit_events (mw_agent mw) ctx err_ms
                {| joinerInboxId := ctx_senderInboxId ctx;
                   ic_conversationId := conversationId;
                   ic_inviteTag := ip_tag (pi_payload parsedInvite);
                   invite := parsedInvite |} conversation 0 (mw_inviteHandlers mw)) as [H1 _].
    rewrite Forall_forall in H1. apply list_elem_of_In in Hin. apply H1 in Hin.
    cbn in Hin. destruct Hin as [-> ->].
    exists text, parsedInvite, conversationId.
    assert (Ht' : extractText (ctx_content ctx) = Some text).
    { unfold truthy_param in Ht. destruct (extractText (ctx_content ctx)) as [s|]; [|discriminate].
      destruct (nonempty s); [exact Ht | discriminate]. }
    repeat split; assumption.
Qed.

(** X21 at a concrete input: [open_slug], sent to [sample_middleware],
    whose handler accepts. *)
Lemma members_added_only_if_verified_witness :
  exists text parsedInvite conversationId,
    extractText (ctx_content (message_from "00ff" open_slug)) = Some text /\
    ctx_senderInboxId (message_from "00ff" open_slug) <> mw_inboxId sample_middleware /\
    @parseInviteSlug reference_platform 1600000000000 text = Some parsedInvite /\
    pi_creatorInboxId parsedInvite = mw_inboxId sample_middleware /\
    @verifyInviteWithPrivateKey reference_platform (pi_signedInvite parsedInvite)
      (mw_privateKey sample_middleware) = Some true /\
    pi_isExpired parsedInvite = false /\
    pi_isConversationExpired parsedInvite = false /\
    @decryptInviteConversationId reference_platform parsedInvite
      (mw_privateKey sample_middleware) = Some conversationId /\
    agent_getConversationById (mw_agent sample_middleware) conversationId
      = Some (Some "550e8400-e29b-41d4-a716-446655440000") /\
    ["00ff"] = [ctx_senderInboxId (message_from "00ff" open_slug)].
Proof.
  apply (@members_added_only_if_verified reference_platform sample_middleware
           1600000000000 1600000000000 (message_from "00ff" open_slug)
           "550e8400-e29b-41d4-a716-446655440000" ["00ff"]).
  vm_compute. right. left. reflexivity.
Defined.

(** X22.  A message is passed on or handled, never both: the next
    handler of the chain is called exactly when [handleMessage] returns
    false, and then the middleware has done nothing else; a message whose
    handling throws is not passed on either. *)
Theorem next_only_when_unhandled `{P : Platform} (mw : ConvosMiddleware)
    (now_ms err_ms : Z) (ctx : XMTPMessageContext) :
  (In (Outside Next) (middleware mw now_ms err_ms ctx) <->
   snd (handleMessage mw now_ms err_ms ctx) = Some false) /\
  (In (Outside Next) (middleware mw now_ms err_ms ctx) <->
   middleware mw now_ms err_ms ctx = [Outside Next]).
Proof.
  unfold middleware.
  destruct (handleMessage_cases mw now_ms err_ms ctx)
    as [E | [E | [E | [(tag & E) | (text & parsedInvite & conversationId & conversation & _
        & _ & _ & _ & _ & _ & _ & _ & _ & E)]]]]; rewrite E; cbn [fst snd app].
  - split; split; intros _; reflexivity || now left.
  - split; split; intros H; first [discriminate H | destruct H].
  - split; split; intros H; try discriminate H.
    + now apply blockSender_no_next in H.
    + now apply blockSender_no_next in H.
    + exfalso. eapply blockSender_no_next. rewrite H. now left.
  - split; split; intros H; try discriminate H.
    + destruct H as [H|[]]; discriminate H.
    + destruct H as [H|[]]; discriminate H.
  - destruct (emit_events (mw_agent mw) ctx err_ms
                {| joinerInboxId := ctx_senderInboxId ctx;
                   ic_conversationId := conversationId;
                   ic_inviteTag := ip_tag (pi_payload parsedInvite);
                   invite := parsedInvite |} conversation 0 (mw_inviteHandlers mw)) as [H1 _].
    rewrite Forall_forall in H1.
    assert (Hno : ~ In (Outside Next) (emit (mw_agent mw) ctx err_ms
                {| joinerInboxId := ctx_senderInboxId ctx;
                   ic_conversationId := conversationId;
                   ic_inviteTag := ip_tag (pi_payload parsedInvite);
                   invite := parsedInvite |} conversation 0 (mw_inviteHandlers mw))).
    { intros Hin. apply list_elem_of_In in Hin. exact (H1 _ Hin). }
    split; split; intros H; try discriminate H; try (now apply Hno in H).
    exfalso. apply Hno. rewrite H. now left.
Qed.

(** X23.  A forged invite gets its sender blocked: when the text of a
    message from another inbox parses as an invite and the invite names
    another creator, or its signature does not verify with this inbox's
    key, or it is unexpired and its token does not decrypt, the
    middleware refreshes the consent list and, if that resolves, blocks
    the sender; it sends nothing, runs no handler and does not call the
    next handler. *)
Theorem forged_invite_blocked `{P : Platform} (mw : ConvosMiddleware)
    (now_ms err_ms : Z) (ctx : XMTPMessageContext) (text : string)
    (parsedInvite : ParsedInvite) :
  truthy_param (extractText (ctx_content ctx)) = Some text ->
  ctx_senderInboxId ctx <> mw_inboxId mw ->
  parseInviteSlug now_ms text = Some parsedInvite ->
  pi_creatorInboxId parsedInvite <> mw_inboxId mw \/
  verifyInviteWithPrivateKey (pi_signedInvite parsedInvite) (mw_privateKey mw) = Some false \/
  (verifyInviteWithPrivateKey (pi_signedInvite parsedInvite) (mw_privateKey mw) = Some true /\
   pi_isExpired parsedInvite = false /\ pi_isConversationExpired parsedInvite = false /\
   decryptInviteConversationId parsedInvite (mw_privateKey mw) = None) ->
  middleware mw now_ms err_ms ctx
  = Outside RefreshConsentList
    :: (if agent_refreshConsentList (mw_agent mw)
        then [Outside (Block [ctx_senderInboxId ctx])] else []) /\
  handler_runs (middleware mw now_ms err_ms ctx) = [].
Proof.
  intros Ht Hs Hp Hforged.
  assert (Hb : blockSender (mw_agent mw) (ctx_senderInboxId ctx)
               = Outside RefreshConsentList
                 :: (if agent_refreshConsentList (mw_agent mw)
                     then [Outside (Block [ctx_senderInboxId ctx])] else [])).
  { unfold blockSender. now destruct (agent_refreshConsentList (mw_agent mw)). }
  assert (Hm : handleMessage mw now_ms err_ms ctx
               = (blockSender (mw_agent mw) (ctx_senderInboxId ctx), Some true)).
  { unfold handleMessage. rewrite Ht. destruct (decide _) as [E|_]; [contradiction|].
    rewrite Hp. destruct Hforged as [Hc | [Hv | (Hv & He & Hce & Hd)]].
    - rewrite bool_decide_eq_false_2 by exact Hc. reflexivity.
    - destruct (bool_decide _); cbn [negb]; [|reflexivity]. now rewrite Hv.
    - destruct (bool_decide _); cbn [negb]; [|reflexivity].
      now rewrite Hv, He, Hce, Hd. }
  unfold middleware. rewrite Hm, Hb. split; [reflexivity|].
  now destruct (agent_refreshConsentList (mw_agent mw)).
Qed.

(** X23 at a concrete input: [unsigned_slug], an invite of another inbox,
    sent to [sample_middleware]. *)
Lemma forged_invite_blocked_witness :
  @middleware reference_platform sample_middleware 1600000000000 1600000000000
    (message_from "00ff" unsigned_slug)
  = [Outside RefreshConsentList; Outside (Block ["00ff"])].
Proof.
  refine (proj1 (@forged_invite_blocked reference_platform sample_middleware
            1600000000000 1600000000000 (message_from "00ff" unsigned_slug) unsigned_slug
            (default {| pi_signedInvite := short_signature; pi_payload := open_payload;
                        pi_creatorInboxId := EmptyString; pi_isExpired := false;
                        pi_isConversationExpired := false |}
               (@parseInviteSlug reference_platform 1600000000000 unsigned_slug))
            _ _ _ _)).
  - reflexivity.
  - evaluate.
  - evaluate.
  - left. evaluate.
Defined.

(** ** middleware/join-request-handler.ts *)

(** X24.  The join-request handler reports [Success] only for a verified
    invite: then the message came from another inbox, its text parses as
    an invite of this inbox whose signature verifies with this inbox's
    key, neither expiry has passed, the token decrypts to the
    conversation id of the outcome, the conversation exists where that is
    checked, the join callback, where there is one, returned true, and
    the error callback was not called. *)
Theorem success_only_if_verified `{P : Platform} (h : JoinRequestHandler)
    (now_ms err_ms : Z) (messageText senderInboxId : string)
    (calls : list (string * InviteJoinError)) (out : JoinRequestOutcome) :
  processMessage h now_ms err_ms messageText senderInboxId = (calls, Some out) ->
  result out = Success ->
  calls = [] /\
  senderInboxId <> jr_inboxId h /\
  exists parsedInvite conversationId,
    parseInviteSlug now_ms messageText = Some parsedInvite /\
    pi_creatorInboxId parsedInvite = jr_inboxId h /\
    verifyInviteWithPrivateKey (pi_signedInvite parsedInvite) (jr_privateKey h) = Some true /\
    pi_isExpired parsedInvite = false /\
    pi_isConversationExpired parsedInvite = false /\
    decryptInviteConversationId parsedInvite (jr_privateKey h) = Some conversationId /\
    out = outcome Success (Some conversationId) (Some (ip_tag (pi_payload parsedInvite)))
            None None /\
    (forall conversationExists, jr_conversationExists h = Some conversationExists ->
       conversationExists conversationId = Some true) /\
    (forall onJoinRequest, jr_onJoinRequest h = Some onJoinRequest ->
       onJoinRequest senderInboxId conversationId (ip_tag (pi_payload parsedInvite))
       = inl true).
Proof.
  unfold processMessage. intros Hrun Hsuccess.
  destruct (decide _) as [E|Hs]; [injection Hrun as <- <-; discriminate Hsuccess|].
  destruct (parseInviteSlug now_ms messageText) as [parsedInvite|] eqn:Hp.
  2:{ destruct (looksLikeInviteSlug messageText); injection Hrun as <- <-;
      discriminate Hsuccess. }
  destruct (bool_decide (pi_creatorInboxId parsedInvite = jr_inboxId h)) eqn:Hc;
    cbn [negb] in Hrun; [|injection Hrun as <- <-; discriminate Hsuccess].
  apply bool_decide_eq_true_1 in Hc.
  destruct (verifyInviteWithPrivateKey _ _) as [[|]|] eqn:Hv;
    [| injection Hrun as <- <-; discriminate Hsuccess | discriminate Hrun].
  destruct (pi_isExpired parsedInvite) eqn:He;
    [injection Hrun as <- <-; discriminate Hsuccess|].
  destruct (pi_isConversationExpired parsedInvite) eqn:Hce;
    [injection Hrun as <- <-; discriminate Hsuccess|].
  destruct (decryptInviteConversationId _ _) as [conversationId|] eqn:Hd;
    [|injection Hrun as <- <-; discriminate Hsuccess].
  assert (Hgoal : forall (Hexists : forall conversationExists,
                     jr_conversationExists h = Some conversationExists ->
                     conversationExists conversationId = Some true)
                   (Hjoin : forall onJoinRequest, jr_onJoinRequest h = Some onJoinRequest ->
                     onJoinRequest senderInboxId conversationId
                       (ip_tag (pi_payload parsedInvite)) = inl true),
             calls = [] ->
             out = outcome Success (Some conversationId)
                     (Some (ip_tag (pi_payload parsedInvite))) None None ->
             calls = [] /\ senderInboxId <> jr_inboxId h /\
             exists parsedInvite0 conversationId0,
               Some parsedInvite = Some parsedInvite0 /\
               pi_creatorInboxId parsedInvite0 = jr_inboxId h /\
               verifyInviteWithPrivateKey (pi_signedInvite parsedInvite0) (jr_privateKey h)
               = Some true /\
               pi_isExpired parsedInvite0 = false /\
               pi_isConversationExpired parsedInvite0 = false /\
               decryptInviteConversationId parsedInvite0 (jr_privateKey h)
               = Some conversationId0 /\
               out = outcome Success (Some conversationId0)
                       (Some (ip_tag (pi_payload parsedInvite0))) None None /\
               (forall conversationExists, jr_conversationExists h = Some conversationExists ->
                  conversationExists conversationId0 = Some true) /\
               (forall onJoinRequest, jr_onJoinRequest h = Some onJoinRequest ->
                  onJoinRequest senderInboxId conversationId0
                    (ip_tag (pi_payload parsedInvite0)) = inl true)).
  { intros Hexists Hjoin Hcalls Hout. split; [exact Hcalls|]. split; [exact Hs|].
    exists parsedInvite, conversationId. repeat split; assumption. }
  assert (Hexists : forall conversationExists,
            jr_conversationExists h = Some conversationExists ->
            conversationExists conversationId = Some true).
  { intros f Hf. rewrite Hf in Hrun. destruct (f conversationId) as [[|]|]; cbn in Hrun;
      [reflexivity | injection Hrun as <- <-; discriminate Hsuccess | discriminate Hrun]. }
  assert (Hmissing : match jr_conversationExists h with
                     | Some exists_ => option_map negb (exists_ conversationId)
                     | None => Some false
                     end = Some false).
  { destruct (jr_conversationExists h) as [f|]; [|reflexivity].
    now rewrite (Hexists f eq_refl). }
  rewrite Hmissing in Hrun.
  destruct (jr_onJoinRequest h) as [onJoinRequest|] eqn:Hj.
  - destruct (onJoinRequest senderInboxId conversationId (ip_tag (pi_payload parsedInvite)))
      as [[|]|message] eqn:Hr; injection Hrun as <- <-; try discriminate Hsuccess.
    apply Hgoal; try reflexivity; [exact Hexists|]. intros f [= <-]. exact Hr.
  - injection Hrun as <- <-. apply Hgoal; try reflexivity; [exact Hexists|]. intros f [=].
Qed.

(** X24 at a concrete input: [open_slug] sent to [sample_handler]. *)
Lemma success_only_if_verified_witness :
  exists parsedInvite,
    @parseInviteSlug reference_platform 1600000000000 open_slug = Some parsedInvite /\
    pi_creatorInboxId parsedInvite = sample_inbox /\
    @decryptInviteConversationId reference_platform parsedInvite sample_key
    = Some "550e8400-e29b-41d4-a716-446655440000".
Proof.
  destruct (@success_only_if_verified reference_platform sample_handler
              1600000000000 1600000000000 open_slug "00ff" []
              (outcome Success (Some "550e8400-e29b-41d4-a716-446655440000")
                 (Some "a1B2c3D4e5") None None))
    as (_ & _ & parsedInvite & conversationId & Hp & Hc & _ & _ & _ & Hd & Hout & _).
  - evaluate.
  - reflexivity.
  - exists parsedInvite. split; [exact Hp|]. split; [exact Hc|].
    injection Hout as <-. exact Hd.
Defined.

(** X25.  The error callback of the join-request handler is called only
    on the way to a [SendError] outcome: an outcome with the result
    [Success], [BlockSender] or [NotJoinRequest] is returned without a
    call of the callback; and an outcome carries an error exactly when
    its result is [SendError], the error being a [ConversationExpired] or
    [GenericFailure] error for the tag of the outcome. *)
Theorem error_callback_only_on_errors `{P : Platform} (h : JoinRequestHandler)
    (now_ms err_ms : Z) (messageText senderInboxId : string) :
  match processMessage h now_ms err_ms messageText senderInboxId with
  | (calls, Some out) =>
      (result out <> SendError -> calls = []) /\
      (is_Some (out_error out) <-> result out = SendError) /\
      (forall error, out_error out = Some error ->
         exists tag, out_inviteTag out = Some tag /\
           (error = createConversationExpiredError err_ms tag \/
            error = createGenericFailureError err_ms tag))
  | (_, None) => True
  end.
Proof.
  assert (Hok : forall r conversationId tag message,
            r <> SendError ->
            let out := outcome r conversationId tag None message in
            (result out <> SendError -> @nil (string * InviteJoinError) = []) /\
            (is_Some (out_error out) <-> result out = SendError) /\
            (forall error, out_error out = Some error ->
               exists tag, out_inviteTag out = Some tag /\
                 (error = createConversationExpiredError err_ms tag \/
                  error = createGenericFailureError err_ms tag))).
  { intros r c t m Hr out. split; [reflexivity|]. split.
    - cbn. split; [intros [x Hx]; discriminate Hx | intros Hx; contradiction].
    - intros error Hx. discriminate Hx. }
  assert (Herr : forall (calls : list (string * InviteJoinError)) conversationId tag error
                        message,
            error = createConversationExpiredError err_ms tag \/
            error = createGenericFailureError err_ms tag ->
            let out := outcome SendError conversationId (Some tag) (Some error) message in
            (result out <> SendError -> calls = []) /\
            (is_Some (out_error out) <-> result out = SendError) /\
            (forall error, out_error out = Some error ->
               exists tag, out_inviteTag out = Some tag /\
                 (error = createConversationExpiredError err_ms tag \/
                  error = createGenericFailureError err_ms tag))).
  { intros calls c t e m He out. split; [intros Hx; now contradiction Hx|]. split.
    - cbn. split; [reflexivity | intros _; now eexists].
    - intros error [= <-]. exists t. split; [reflexivity | exact He]. }
  unfold processMessage.
  destruct (decide _) as [E|Hs]; [now apply Hok|].
  destruct (parseInviteSlug now_ms messageText) as [parsedInvite|].
  2:{ destruct (looksLikeInviteSlug messageText); now apply Hok. }
  destruct (bool_decide _); cbn [negb]; [|now apply Hok].
  destruct (verifyInviteWithPrivateKey _ _) as [[|]|]; [| now apply Hok | exact I].
  destruct (pi_isExpired parsedInvite); [apply Herr; now left|].
  destruct (pi_isConversationExpired parsedInvite); [apply Herr; now left|].
  destruct (decryptInviteConversationId _ _) as [conversationId|]; [|now apply Hok].
  destruct (match jr_conversationExists h with
            | Some exists_ => option_map negb (exists_ conversationId)
            | None => Some false
            end) as [[|]|]; [apply Herr; now left | | exact I].
  destruct (jr_onJoinRequest h) as [onJoinRequest|]; [|now apply Hok].
  destruct (onJoinRequest _ _ _) as [[|]|message];
    [now apply Hok | apply Herr; now right | apply Herr; now right].
Qed.

(** ** middleware/convos-group.ts: [createInvite] *)

Lemma initial_metadata_decodes `{P : Platform} (freshTag : string) :
  String.length freshTag = 10 ->
  decodeMetadata (snd (createInitialMetadata freshTag None))
  = Some {| md_tag := freshTag; md_profiles := [];
            md_expiresAtUnix := Some 0%Z; md_imageEncryptionKey := Some [] |}.
Proof.
  intros Hl. unfold createInitialMetadata. cbn [snd unix_seconds].
  set (metadata := {| md_tag := freshTag; md_profiles := [];
                      md_expiresAtUnix := None; md_imageEncryptionKey := None |}).
  pose proof (initial_metadata_size freshTag None Hl) as Hsize. fold metadata in Hsize.
  destruct (decodeMetadata_small metadata) as [_ E];
    [unfold MIN_SIZE_FOR_COMPRESSION; lia|].
  rewrite E. rewrite decodeConversationMetadata_encode; [reflexivity | lia | intros z [=]].
Qed.

(** A group whose metadata carries a tag keeps it. *)
Lemma group_createInvite_existing `{P : Platform} (mw : ConvosMiddleware)
    (g : XMTPGroupWithAppData) (freshTag retryTag : string) (nonce : bytes)
    (options : option ConvosGroupInviteOptions) (metadata : ConversationCustomMetadata) :
  nonempty (appData g) = true ->
  decodeMetadata (appData g) = Some metadata ->
  nonempty (md_tag metadata) = true ->
  group_createInvite mw g freshTag retryTag nonce options
  = (r ← createInviteInternal mw nonce (group_id g) (md_tag metadata) options; Some (g, r)).
Proof.
  intros Ha Hd Ht. unfold group_createInvite. rewrite Ha, Hd, Ht. reflexivity.
Qed.

(** X28.  The tag of a group's invites: on a group without metadata,
    [createInvite] stores the encoding of fresh metadata with the
    generated tag by [updateAppData] and signs the invite with that tag;
    on a group whose [appData] decodes to metadata with a non-empty tag,
    as it does once the first call has stored it, [createInvite] uses
    that tag, whatever tag would be generated, and does not call
    [updateAppData]. *)
Theorem group_createInvite_reuses_tag `{P : Platform} (mw : ConvosMiddleware)
    (g g1 : XMTPGroupWithAppData) (freshTag retryTag : string) (nonce : bytes)
    (options : option ConvosGroupInviteOptions) (r1 : InviteResult) :
  String.length freshTag = 10 ->
  appData g = EmptyString ->
  group_createInvite mw g freshTag retryTag nonce options = Some (g1, r1) ->
  updateAppData g (snd (createInitialMetadata freshTag None)) = Some g1 /\
  getInviteTag (appData g1) = Some freshTag /\
  createInviteInternal mw nonce (group_id g) freshTag options = Some r1 /\
  forall otherTag otherRetryTag nonce2 options2,
    group_createInvite mw g1 otherTag otherRetryTag nonce2 options2
    = (r ← createInviteInternal mw nonce2 (group_id g) freshTag options2; Some (g1, r)).
Proof.
  intros Hl Ha Hrun. unfold group_createInvite in Hrun. rewrite Ha in Hrun.
  cbn [nonempty] in Hrun. unfold initializeMetadata in Hrun.
  pose proof (initial_metadata_decodes freshTag Hl) as Hd.
  unfold createInitialMetadata in Hrun, Hd |- *. cbn [snd] in Hd |- *.
  set (encoded := encodeMetadata _) in *.
  destruct (updateAppData g encoded) as [g'|] eqn:Hu; [|discriminate Hrun].
  cbn [mbind option_bind md_tag] in Hrun.
  assert (Hg : appData g' = encoded /\ group_id g' = group_id g).
  { unfold updateAppData in Hu. destruct (updateAppData_ok g encoded); [|discriminate Hu].
    injection Hu as <-. split; reflexivity. }
  destruct Hg as [Hg1 Hg2]. rewrite Hg2 in Hrun.
  destruct (createInviteInternal mw nonce (group_id g) freshTag options) as [r|] eqn:Hr;
    [|discriminate Hrun].
  cbn [mbind option_bind] in Hrun. injection Hrun as <- <-.
  split; [reflexivity|]. split; [|split; [reflexivity|]].
  - unfold getInviteTag. rewrite Hg1, Hd. reflexivity.
  - intros otherTag otherRetryTag nonce2 options2.
    rewrite (group_createInvite_existing mw g' otherTag otherRetryTag nonce2 options2 _
               ltac:(rewrite Hg1; apply encodeMetadata_nonempty)
               ltac:(rewrite Hg1; exact Hd)
               ltac:(cbn [md_tag]; destruct freshTag; [discriminate Hl | reflexivity])).
    cbn [md_tag]. now rewrite Hg2.
Qed.

(** X28 at a concrete input: two invites of [fresh_group]. *)
Lemma group_createInvite_reuses_tag_witness :
  exists g1 r1,
    @group_createInvite reference_platform sample_middleware fresh_group "a1B2c3D4e5"
      "b2C3d4E5f6" sample_nonce None = Some (g1, r1) /\
    @getInviteTag reference_platform (appData g1) = Some "a1B2c3D4e5" /\
    @group_createInvite reference_platform sample_middleware g1 "Zz9Yy8Xx7W" "Yy8Xx7Ww6V"
      sample_nonce None
    = Some (g1, r1).
Proof.
  destruct (@group_createInvite reference_platform sample_middleware fresh_group "a1B2c3D4e5"
              "b2C3d4E5f6" sample_nonce None) as [[g1 r1]|] eqn:Hrun; [|vm_compute in Hrun; discriminate Hrun].
  destruct (@group_createInvite_reuses_tag reference_platform sample_middleware fresh_group g1
              "a1B2c3D4e5" "b2C3d4E5f6" sample_nonce None r1 eq_refl eq_refl Hrun)
    as (_ & Ht & Hr & Hnext).
  exists g1, r1. split; [reflexivity|]. split; [exact Ht|].
  rewrite Hnext. cbn [group_id fresh_group] in Hr |- *. rewrite Hr. reflexivity.
Defined.

(** ** middleware/convos-middleware.ts: the private key *)

(** X29.  The private key given as a string of hex digits of even
    length, with or without the prefix [0x]: both constructors read the
    same key, whose hex form is the string in lowercase and which has
    half as many bytes as the string has digits; a key in the options
    has precedence over the environment; and with no key in the options
    (or the empty string) and none in the environment both
    constructors throw. *)
Theorem constructor_reads_hex_key (agent : XMTPAgent) (digits : string)
    (inviteBaseURL env envKey : option string) :
  string_forallb is_hex_char digits = true ->
  Nat.even (String.length digits) = true ->
  let with_key key :=
    {| opt_privateKey := key; opt_inviteBaseURL := inviteBaseURL; opt_env := env |} in
  (exists mw,
     ConvosMiddleware_create agent (with_key (Some (inr ("0x" +:+ digits)))) envKey = Some mw /\
     ConvosMiddleware_create agent (with_key None) (Some ("0x" +:+ digits)) = Some mw /\
     (digits <> EmptyString ->
      ConvosMiddleware_create agent (with_key (Some (inr digits))) envKey = Some mw /\
      ConvosMiddleware_create agent (with_key (Some (inr EmptyString))) (Some digits)
      = Some mw) /\
     mw_privateKey mw = hex_pairs digits /\
     bytesToHex (mw_privateKey mw) = toLowerCase digits /\
     2 * length (mw_privateKey mw) = String.length digits /\
     mw_inboxId mw = agent_inboxId agent /\
     mw_privateKey <$> ConvosMiddleware_create_dist agent
                         (with_key (Some (inr ("0x" +:+ digits)))) envKey
     = Some (mw_privateKey mw)) /\
  ConvosMiddleware_create agent (with_key None) None = None /\
  ConvosMiddleware_create agent (with_key (Some (inr EmptyString))) (Some EmptyString) = None /\
  ConvosMiddleware_create_dist agent (with_key None) None = None.
Proof.
  intros Hc He with_key.
  assert (Hh : hexToBytes digits = Some (hex_pairs digits))
    by (rewrite hexToBytes_ascii by (now apply hex_chars_ascii); now rewrite He).
  assert (Hx : constructor_privateKey (with_key (Some (inr ("0x" +:+ digits)))) envKey
               = Some (hex_pairs digits)) by exact Hh.
  split; [|repeat split; reflexivity].
  eexists. split.
  { unfold ConvosMiddleware_create. rewrite Hx. reflexivity. }
  split.
  { unfold ConvosMiddleware_create, constructor_privateKey. cbn. rewrite Hh. reflexivity. }
  split.
  { intros Hne. destruct digits as [|c r]; [contradiction|].
    assert (Hs : strip_0x (String c r) = String c r).
    { destruct r as [|d r]; [discriminate He|].
      cbn [string_forallb] in Hc. apply andb_prop in Hc as [_ Hc].
      apply andb_prop in Hc as [Hd _]. unfold strip_0x.
      destruct c as [[] [] [] [] [] [] [] []]; try reflexivity.
      destruct d as [[] [] [] [] [] [] [] []]; try reflexivity. discriminate Hd. }
    unfold ConvosMiddleware_create, constructor_privateKey.
    cbn [privateKey_truthy opt_privateKey with_key truthy_param nonempty normalizePrivateKey].
    rewrite Hs, Hh. split; reflexivity. }
  cbn [mw_privateKey mw_inboxId].
  assert (Hb : bytesToHex (hex_pairs digits) = toLowerCase digits).
  { apply bytesToHex_hex_pairs_lower. unfold is_hex_string. now rewrite He, Hc. }
  split; [reflexivity|]. split; [exact Hb|]. split.
  { pose proof (bytesToHex_shape (hex_pairs digits)) as [Hl _]. rewrite Hb in Hl.
    rewrite <- Hl. clear. induction digits as [|c r IH]; [reflexivity|].
    cbn [toLowerCase String.length]. now rewrite IH. }
  split; [reflexivity|].
  unfold ConvosMiddleware_create_dist. rewrite Hx. reflexivity.
Qed.

(** X29 at a concrete input. *)
Lemma constructor_reads_hex_key_witness :
  mw_privateKey <$> ConvosMiddleware_create sample_agent
    {| opt_privateKey := Some (inr "0x00FfaB10"); opt_inviteBaseURL := None;
       opt_env := None |} None
  = Some [x00; xff; xab; x10].
Proof.
  destruct (constructor_reads_hex_key sample_agent "00FfaB10" None None None eq_refl eq_refl)
    as [(mw & Hmw & _ & _ & Hk & _) _].
  exact (eq_trans (f_equal (fmap mw_privateKey) Hmw) (f_equal Some Hk)).
Defined.

(** ** [looksLikeInviteSlug] on slugs *)

Lemma string_filter_length (p : ascii -> bool) (s : string) :
  String.length (string_filter p s) <= String.length s.
Proof.
  induction s as [|c r IH]; [reflexivity|]. cbn [string_filter].
  destruct (p c); cbn [String.length]; lia.
Qed.

Lemma js_length_slug_chars (s : string) :
  string_forallb slug_char s = true -> js_length s = String.length s.
Proof.
  induction s as [|c r IH]; [reflexivity|]. cbn [string_forallb js_length String.length].
  intros H. apply andb_prop in H as [Hc Hr]. rewrite (IH Hr).
  apply slug_char_ascii in Hc. unfold utf16_units.
  replace (code c <? 128)%N with true by (symmetry; apply N.ltb_lt; lia). reflexivity.
Qed.

(** X30.  Which slugs look like invites: the slug of [encodeToSlug] is
    recognised by [looksLikeInviteSlug] exactly when the data, after
    [compressIfSmaller], has at least 37 bytes; so every slug of 37 to
    99 bytes of data is recognised and no slug of fewer than 37 bytes
    is. *)
Theorem slug_looks_like_invite `{P : Platform} (data : bytes) :
  looksLikeInviteSlug (encodeToSlug data) = (37 <=? length (compressIfSmaller data)) /\
  (length data < MIN_SIZE_FOR_COMPRESSION ->
   looksLikeInviteSlug (encodeToSlug data) = (37 <=? length data)).
Proof.
  assert (Hmain : looksLikeInviteSlug (encodeToSlug data)
                  = (37 <=? length (compressIfSmaller data))).
  { pose proof (encodeToSlug_slug_chars data) as Hs.
    unfold looksLikeInviteSlug, base64UrlPattern_test.
    rewrite trim_slug_chars by exact Hs. rewrite js_length_slug_chars by exact Hs.
    rewrite Hs, andb_true_r.
    set (encoded := base64UrlEncode (compressIfSmaller data)).
    assert (Hlen : String.length encoded = (4 * length (compressIfSmaller data) + 2) / 3).
    { subst encoded. rewrite base64UrlEncode_chars, string_of_chars_length, length_map.
      apply sextets_length. }
    assert (Hu : string_forallb is_urlchar encoded = true) by apply base64UrlEncode_urlchars.
    pose proof (insertSeparators_strip encoded Hu) as Hstrip.
    pose proof (string_filter_length (fun c => negb (ascii_eqb c "*"))
                  (insertSeparators encoded IMESSAGE_SEPARATOR IMESSAGE_CHUNK_SIZE)) as Hf.
    rewrite Hstrip in Hf. unfold encodeToSlug. fold encoded.
    destruct (37 <=? length (compressIfSmaller data)) eqn:E.
    - apply Nat.leb_le in E.
      assert (50 <= String.length encoded)
        by (rewrite Hlen; apply Nat.div_le_lower_bound; lia).
      replace (_ <? 50) with false by (symmetry; apply Nat.ltb_ge; lia).
      apply insertSeparators_nonempty; [exact Hu|].
      destruct encoded; [cbn in *; lia | reflexivity].
    - apply Nat.leb_gt in E.
      assert (String.length encoded < 50)
        by (rewrite Hlen; apply Nat.Div0.div_lt_upper_bound; lia).
      unfold insertSeparators, IMESSAGE_CHUNK_SIZE.
      replace (String.length encoded <=? 300) with true by (symmetry; apply Nat.leb_le; lia).
      replace (_ <? 50) with true by (symmetry; apply Nat.ltb_lt; lia). reflexivity. }
  split; [exact Hmain|]. intros Hsmall. rewrite Hmain. unfold compressIfSmaller.
  apply Nat.ltb_lt in Hsmall. now rewrite Hsmall.
Qed.
